(** * A shallow embedding of [mm.c], a segregated free-list allocator

    The C program manages one contiguous arena obtained from [mem_sbrk].
    Every block starts with a 64-bit header word packing the block size
    (a multiple of 16) with three flag bits; free blocks carry list links
    in their payload and, unless they are mini blocks, a footer.

    Conventions of the embedding:
    - [size_t] and [word_t] values are integers in [0, 2^64); arithmetic
      that can wrap in C is wrapped explicitly with [wrap];
    - pointers are byte addresses in [Z], [NULL] is [0];
    - memory is byte addressed; a word access reads or writes eight
      consecutive bytes, little endian;
    - a function of the program that can loop for ever or dereference
      [NULL] returns an [option]; loops without a static bound take fuel;
    - [memset] and [memcpy] belong to the arena and fault, with result
      [None], on a range that leaves it. *)

From Stdlib Require Import ZArith List Bool Lia.
Import ListNotations.
Local Open Scope Z_scope.

(** ** Machine integers *)

Definition word_max : Z := 2 ^ 64.

(** Reduction of a mathematical integer to a [size_t]. *)
Definition wrap (x : Z) : Z := x mod word_max.

(** [(intptr_t) x] for an unsigned 64-bit [x]. *)
Definition to_signed (x : Z) : Z :=
  if x <? 2 ^ 63 then x else x - word_max.

Definition NULL : Z := 0.
Definition SIZE_MAX : Z := word_max - 1.

(** ** Constants of the program *)

Definition SEG_LIST_NUM : Z := 15.
Definition SEARCH_LIMIT : Z := 10.
Definition CLOSE_ENOUGH : Z := 46.

Definition s_list_mini : Z := 32.
Definition s_list_1 : Z := 64.
Definition s_list_2 : Z := 128.
Definition s_list_3 : Z := 256.
Definition s_list_4 : Z := 512.
Definition s_list_5 : Z := 1024.
Definition s_list_6 : Z := 2048.
Definition s_list_7 : Z := 4096.
Definition s_list_8 : Z := 8192.
Definition s_list_9 : Z := 16384.
Definition s_list_10 : Z := 32768.
Definition s_list_11 : Z := 65536.
Definition s_list_12 : Z := 131072.
Definition s_list_13 : Z := 262144.

Definition wsize : Z := 8.
Definition dsize : Z := 2 * wsize.
Definition min_block_size : Z := dsize.
Definition chunksize : Z := Z.shiftl 1 11.

Definition alloc_mask : Z := 1.
Definition prev_alloc_mask : Z := 2.
Definition prev_mini_mask : Z := 4.
(** [~(word_t)0xF] *)
Definition size_mask : Z := word_max - 1 - 15.

(** ** Short helper functions *)

Definition max (x y : Z) : Z := if x >? y then x else y.

Definition round_up (size n : Z) : Z :=
  wrap (n * (wrap (size + (n - 1)) / n)).

Definition pack (size : Z) (alloc prev_alloc prev_mini : bool) : Z :=
  let word := size in
  let word := if alloc then Z.lor word alloc_mask else word in
  let word := if prev_alloc then Z.lor word prev_alloc_mask else word in
  let word := if prev_mini then Z.lor word prev_mini_mask else word in
  word.

Definition extract_size (word : Z) : Z := Z.land word size_mask.

(** [(bool)(word & mask)] *)
Definition extract_alloc (word : Z) : bool :=
  negb (Z.land word alloc_mask =? 0).
Definition extract_prev_alloc (word : Z) : bool :=
  negb (Z.land word prev_alloc_mask =? 0).
Definition extract_prev_mini (word : Z) : bool :=
  negb (Z.land word prev_mini_mask =? 0).

(** ** Size classes *)

Definition get_list_index (size : Z) : Z :=
  if size <=? s_list_7 then
    if size <=? s_list_3 then
      if size <=? s_list_1 then
        if size <? s_list_mini then 0 else 1
      else
        if size <=? s_list_2 then 2 else 3
    else
      if size <=? s_list_5 then
        if size <=? s_list_4 then 4 else 5
      else
        if size <=? s_list_6 then 6 else 7
  else
    if size <=? s_list_11 then
      if size <=? s_list_9 then
        if size <=? s_list_8 then 8 else 9
      else
        if size <=? s_list_10 then 10 else 11
    else
      if size <=? s_list_13 then
        if size <=? s_list_12 then 12 else 13
      else 14.

(** ** Memory

    The arena is a byte-addressed store.  Only the low eight bits of a cell
    are ever observed, so a store that has been written through
    [store64], [memset] and [memcpy] only holds bytes. *)

Definition mem : Type := Z -> Z.

Definition load8 (m : mem) (a : Z) : Z := m a mod 256.

(** Little-endian value of the [n] bytes at [a]. *)
Fixpoint load_le (n : nat) (m : mem) (a : Z) : Z :=
  match n with
  | O => 0
  | S n' => load8 m a + 256 * load_le n' m (a + 1)
  end.

Definition load64 (m : mem) (a : Z) : Z := load_le 8 m a.

Definition store64 (m : mem) (a v : Z) : mem :=
  fun x =>
    if (a <=? x) && (x <? a + 8) then (v / 2 ^ (8 * (x - a))) mod 256
    else m x.

(** ** Allocator state

    The globals [heap_start] and [segregated_free_list], the arena bytes,
    and the three variables of the arena provider. *)

Record state : Type := mkState {
  heap : mem;
  segregated_free_list : list Z;
  heap_start : Z;
  mem_heap : Z;
  mem_brk : Z;
  mem_max_addr : Z
}.

Definition set_heap (s : state) (h : mem) : state :=
  mkState h (segregated_free_list s) (heap_start s)
          (mem_heap s) (mem_brk s) (mem_max_addr s).

Definition set_lists (s : state) (l : list Z) : state :=
  mkState (heap s) l (heap_start s)
          (mem_heap s) (mem_brk s) (mem_max_addr s).

Definition set_heap_start (s : state) (p : Z) : state :=
  mkState (heap s) (segregated_free_list s) p
          (mem_heap s) (mem_brk s) (mem_max_addr s).

Definition set_brk (s : state) (b : Z) : state :=
  mkState (heap s) (segregated_free_list s) (heap_start s)
          (mem_heap s) b (mem_max_addr s).

(** [segregated_free_list[i]] *)
Definition list_head (s : state) (i : Z) : Z :=
  nth (Z.to_nat i) (segregated_free_list s) NULL.

Fixpoint list_update (l : list Z) (n : nat) (v : Z) : list Z :=
  match l, n with
  | [], _ => []
  | _ :: t, O => v :: t
  | h :: t, S n' => h :: list_update t n' v
  end.

(** [segregated_free_list[i] = v] *)
Definition set_list_head (s : state) (i v : Z) : state :=
  set_lists s (list_update (segregated_free_list s) (Z.to_nat i) v).

(** [p->field = v] and [p->field] for a word at byte offset [off]. *)
Definition write_word (s : state) (a v : Z) : state :=
  set_heap s (store64 (heap s) a v).
Definition read_word (s : state) (a : Z) : Z := load64 (heap s) a.

(** Byte offsets of the members of [block_t]. *)
Definition off_payload : Z := 8.
Definition off_next_mini : Z := 8.
Definition off_prev : Z := 8.
Definition off_next : Z := 16.

(** ** Arena provider *)

(** Modelled from the spec: the arena capability [extend(n)] of memlib
    ([mem_sbrk]), of which the program has only the declaration.  The break
    moves up by [incr] bytes and the old break is returned; a negative
    increment, or one that would pass the end of the arena, fails ([None]
    stands for the returned [(void * )-1]). *)
Definition mem_sbrk (s : state) (incr : Z) : option (state * Z) :=
  if (incr <? 0) || (mem_brk s + incr >? mem_max_addr s) then None
  else Some (set_brk s (mem_brk s + incr), mem_brk s).

(** Modelled from the spec: [lo()], the address of the first byte of the
    arena ([mem_heap_lo] of memlib). *)
Definition mem_heap_lo (s : state) : Z := mem_heap s.

(** Modelled from the spec: [hi()], the address of the last byte of the
    arena. *)
Definition mem_heap_hi (s : state) : Z := mem_brk s - 1.

(** The [n] bytes from [p] on are bytes of the arena. *)
Definition in_arena (s : state) (p n : Z) : bool :=
  (mem_heap_lo s <=? p) && (p + n - 1 <=? mem_heap_hi s).

(** Modelled from the spec: the arena's byte-level [memset], which the
    program only declares; the arena permits it over its own bytes.
    [None]: the range leaves the arena, and the store faults. *)
Definition memset (s : state) (p c n : Z) : option state :=
  if in_arena s p n then
    Some (set_heap s (fun x => if (p <=? x) && (x <? p + n) then c mod 256
                               else heap s x))
  else None.

(** Modelled from the spec: the arena's byte-level [memcpy], which the
    program only declares; the arena permits it over its own bytes.
    Source and destination do not overlap in [realloc].  [None]: one of
    the two ranges leaves the arena. *)
Definition memcpy (s : state) (dst src n : Z) : option state :=
  if in_arena s dst n && in_arena s src n then
    Some (set_heap s (fun x => if (dst <=? x) && (x <? dst + n)
                               then heap s (src + (x - dst))
                               else heap s x))
  else None.

(** ** Block navigation *)

Definition get_size (s : state) (block : Z) : Z :=
  extract_size (read_word s block).
Definition get_alloc (s : state) (block : Z) : bool :=
  extract_alloc (read_word s block).
Definition get_prev_alloc (s : state) (block : Z) : bool :=
  extract_prev_alloc (read_word s block).
Definition get_prev_mini (s : state) (block : Z) : bool :=
  extract_prev_mini (read_word s block).

Definition payload_to_header (bp : Z) : Z := bp - off_payload.
Definition header_to_payload (block : Z) : Z := block + off_payload.

Definition header_to_footer (s : state) (block : Z) : Z :=
  block + off_payload + get_size s block - dsize.

Definition footer_to_header (s : state) (footer : Z) : Z :=
  let size := extract_size (read_word s footer) in
  footer + wsize - size.

Definition get_payload_size (s : state) (block : Z) : Z :=
  let asize := get_size s block in
  wrap (asize - wsize).

Definition write_epilogue (s : state) (block : Z)
           (prev_alloc prev_mini : bool) : state :=
  write_word s block (pack 0 true prev_alloc prev_mini).

Definition write_block (s : state) (block size : Z)
           (alloc prev_alloc prev_mini : bool) : state :=
  let s := write_word s block (pack size alloc prev_alloc prev_mini) in
  if negb alloc && (size >? min_block_size) then
    let footerp := header_to_footer s block in
    write_word s footerp (pack size alloc prev_alloc prev_mini)
  else s.

Definition find_next (s : state) (block : Z) : Z :=
  block + get_size s block.

Definition find_prev_footer (block : Z) : Z := block - wsize.
Definition find_header (block : Z) : Z := block.

Definition find_prev (s : state) (block : Z) : Z :=
  let prev_mini := get_prev_mini s block in
  if prev_mini then
    let headp := find_header block in
    headp - min_block_size
  else
    let footerp := find_prev_footer block in
    if extract_size (read_word s footerp) =? 0 then NULL
    else footer_to_header s footerp.

(** ** Free lists *)

Definition insert_to_free_list (s : state) (block : Z) : state :=
  if block =? NULL then s
  else
    let seg := get_list_index (get_size s block) in
    let head := list_head s seg in
    if head =? NULL then
      let s := set_list_head s seg block in
      let s := write_word s (block + off_prev) NULL in
      write_word s (block + off_next) NULL
    else
      let s := write_word s (block + off_prev) NULL in
      let s := write_word s (block + off_next) head in
      let s := write_word s (head + off_prev) block in
      set_list_head s seg block.

(** [None]: [prev->free.next] is written through a [NULL] [prev]. *)
Definition delete_from_free_list (s : state) (block : Z) : option state :=
  if block =? NULL then Some s
  else
    let seg := get_list_index (get_size s block) in
    let head := list_head s seg in
    if head =? block then
      let next := read_word s (block + off_next) in
      let s := set_list_head s seg next in
      if negb (next =? NULL) then Some (write_word s (next + off_prev) NULL)
      else Some s
    else
      let prev := read_word s (block + off_prev) in
      let next := read_word s (block + off_next) in
      if prev =? NULL then None
      else
        let s := write_word s (prev + off_next) next in
        if negb (next =? NULL) then Some (write_word s (next + off_prev) prev)
        else Some s.

Definition insert_to_mini_free_list (s : state) (block : Z) : state :=
  if block =? NULL then s
  else
    let head := list_head s 0 in
    if head =? NULL then
      let s := set_list_head s 0 block in
      write_word s (block + off_next_mini) NULL
    else
      let s := write_word s (block + off_next_mini) head in
      set_list_head s 0 block.

(** The loop [while (next != block) { prev = next; next = next->next_mini; }]
    of [delete_from_mini_free_list]; it yields the final [prev].  [None]:
    the walk reaches [NULL], whose member the loop would read, or runs out
    of fuel (a list that never reaches [block]). *)
Fixpoint mini_walk (fuel : nat) (s : state) (prev next block : Z)
  : option Z :=
  match fuel with
  | O => None
  | S fuel' =>
      if next =? block then Some prev
      else if next =? NULL then None
      else mini_walk fuel' s next (read_word s (next + off_next_mini)) block
  end.

Definition delete_from_mini_free_list (fuel : nat) (s : state) (block : Z)
  : option state :=
  if block =? NULL then Some s
  else
    let head := list_head s 0 in
    if head =? NULL then Some s
    else if head =? block then
      let next := read_word s (block + off_next_mini) in
      Some (set_list_head s 0 next)
    else
      match mini_walk fuel s head (read_word s (head + off_next_mini)) block with
      | None => None
      | Some prev =>
          Some (write_word s (prev + off_next_mini)
                           (read_word s (block + off_next_mini)))
      end.

Definition update_block (s : state) (block size : Z)
           (alloc prev_alloc prev_mini : bool) : state :=
  write_word s block (pack size alloc prev_alloc prev_mini).

Definition insert_normal_or_mini (s : state) (block : Z) : state :=
  let size := get_size s block in
  if size =? min_block_size then insert_to_mini_free_list s block
  else insert_to_free_list s block.

Definition delete_normal_or_mini (fuel : nat) (s : state) (block : Z)
  : option state :=
  let size := get_size s block in
  if size =? min_block_size then delete_from_mini_free_list fuel s block
  else delete_from_free_list s block.

(** ** Coalescing *)

Notation "x <- e ;; k" :=
  (match e with Some x => k | None => None end)
    (at level 61, e at next level, right associativity).

(** [coalesce_block]: the four cases on the allocation state of the two
    physical neighbours.  [None]: [find_prev] returned [NULL] and its header
    is read, or a list deletion failed. *)
Definition coalesce_block (fuel : nat) (s : state) (block : Z)
  : option (state * Z) :=
  let block_next := find_next s block in
  let prev_alloc := get_prev_alloc s block in
  let next_alloc := get_alloc s block_next in
  if prev_alloc && next_alloc then
    let s := insert_normal_or_mini s block in
    Some (s, block)
  else
    r <-
      (if negb prev_alloc && next_alloc then
         let block_prev := find_prev s block in
         if block_prev =? NULL then None
         else
           let block_size := get_size s block in
           let block_prev_size := get_size s block_prev in
           let prev_prev_alloc := get_prev_alloc s block_prev in
           let prev_prev_mini := get_prev_mini s block_prev in
           s <- delete_normal_or_mini fuel s block_prev;;
           let block := block_prev in
           let s := write_block s block (wrap (block_prev_size + block_size))
                                false prev_prev_alloc prev_prev_mini in
           let s := insert_normal_or_mini s block in
           Some (s, block)
       else if prev_alloc && negb next_alloc then
         let block_size := get_size s block in
         let block_next_size := get_size s block_next in
         let prev_alloc := get_prev_alloc s block in
         let prev_mini := get_prev_mini s block in
         s <- delete_normal_or_mini fuel s block_next;;
         let s := write_block s block (wrap (block_size + block_next_size))
                              false prev_alloc prev_mini in
         let s := insert_normal_or_mini s block in
         Some (s, block)
       else
         let block_prev := find_prev s block in
         if block_prev =? NULL then None
         else
           let block_size := get_size s block in
           let block_prev_size := get_size s block_prev in
           let block_next_size := get_size s block_next in
           let prev_prev_alloc := get_prev_alloc s block_prev in
           let prev_prev_mini := get_prev_mini s block_prev in
           s <- delete_normal_or_mini fuel s block_next;;
           let block := block_prev in
           s <- delete_normal_or_mini fuel s block;;
           let s := write_block s block
                      (wrap (block_prev_size + block_size + block_next_size))
                      false prev_prev_alloc prev_prev_mini in
           let s := insert_normal_or_mini s block in
           Some (s, block));;
    let (s, block) := r in
    let block_next := find_next s block in
    let s := update_block s block_next (get_size s block_next)
                          (get_alloc s block_next) false false in
    Some (s, block).

(** ** Growing the arena *)

(** The part of [extend_heap] between the successful [mem_sbrk] and the call
    of [coalesce_block]: the old epilogue becomes the header of a free block
    of [size] bytes and a new epilogue is written behind it. *)
Definition extend_heap_init (s : state) (bp size : Z) : state :=
  let block := payload_to_header bp in
  let prev_alloc := get_prev_alloc s block in
  let prev_mini := get_prev_mini s block in
  let s := write_block s block size false prev_alloc prev_mini in
  let block_next := find_next s block in
  let prev_mini := if true then size =? min_block_size else false in
  write_epilogue s block_next false prev_mini.

(** [extend_heap]; a returned [NULL] is [Some (s, NULL)]. *)
Definition extend_heap (fuel : nat) (s : state) (size : Z)
  : option (state * Z) :=
  let size := round_up size dsize in
  match mem_sbrk s (to_signed size) with
  | None => Some (s, NULL)
  | Some (s, bp) =>
      let s := extend_heap_init s bp size in
      coalesce_block fuel s (payload_to_header bp)
  end.

(** ** Placement *)

Definition split_block (s : state) (block asize : Z) : state :=
  let block_size := get_size s block in
  if wrap (block_size - asize) >=? min_block_size then
    let prev_alloc := get_prev_alloc s block in
    let prev_mini := get_prev_mini s block in
    let s := write_block s block asize true prev_alloc prev_mini in
    let block_next := find_next s block in
    let prev_mini := if true then asize =? min_block_size else false in
    let s := write_block s block_next (wrap (block_size - asize))
                         false true prev_mini in
    let block_next_next := find_next s block_next in
    let block_next_next_size := get_size s block_next_next in
    let block_next_next_alloc := get_alloc s block_next_next in
    let prev_mini :=
      if true then wrap (block_size - asize) =? min_block_size else false in
    let s := update_block s block_next_next block_next_next_size
                          block_next_next_alloc false prev_mini in
    insert_normal_or_mini s block_next
  else s.

(** Outcome of the [while] loop of [find_fit] on one list: the function
    returns from inside the loop, or the loop ends (at the end of the list or
    at the [break]) and the [for] loop goes on with the updated locals. *)
Inductive scan_result : Type :=
| ScanReturn (best_fit_block : Z)
| ScanNext (cont : Z) (best_fit_block : Z) (min_diff : Z).

(** The [while (block != NULL)] loop of [find_fit]. *)
Fixpoint find_fit_scan (fuel : nat) (s : state) (block_size : Z)
         (block : Z) (cont : Z) (best_fit_block min_diff : Z)
  : option scan_result :=
  match fuel with
  | O => None
  | S fuel' =>
      if block =? NULL then Some (ScanNext cont best_fit_block min_diff)
      else
        let fits := get_size s block >=? block_size in
        let diff := wrap (get_size s block - block_size) in
        let better := fits && (diff <? min_diff) in
        let min_diff := if better then diff else min_diff in
        let best_fit_block := if better then block else best_fit_block in
        if fits && (min_diff <=? CLOSE_ENOUGH) then
          Some (ScanReturn best_fit_block)
        else if cont >? SEARCH_LIMIT then
          Some (ScanNext 0 best_fit_block min_diff)
        else
          find_fit_scan fuel' s block_size
                        (read_word s (block + off_next)) (cont + 1)
                        best_fit_block min_diff
  end.

(** The [for (int i = seg; i < SEG_LIST_NUM; i++)] loop of [find_fit];
    [n] bounds the number of iterations left. *)
Fixpoint find_fit_lists (n : nat) (fuel : nat) (s : state) (block_size : Z)
         (i : Z) (cont : Z) (best_fit_block min_diff : Z) : option Z :=
  match n with
  | O => Some best_fit_block
  | S n' =>
      if i <? SEG_LIST_NUM then
        r <- find_fit_scan fuel s block_size (list_head s i) cont
                           best_fit_block min_diff;;
        match r with
        | ScanReturn b => Some b
        | ScanNext cont best_fit_block min_diff =>
            find_fit_lists n' fuel s block_size (i + 1) cont
                           best_fit_block min_diff
        end
      else Some best_fit_block
  end.

(** Fuel that the [while] loop of [find_fit] cannot exhaust: the counter
    [cont] ends the loop after at most [SEARCH_LIMIT + 2] blocks. *)
Definition scan_fuel : nat := Z.to_nat (SEARCH_LIMIT + 3).

Definition find_fit (s : state) (asize : Z) : option Z :=
  let block_size := asize in
  let min_diff := SIZE_MAX in
  let seg := get_list_index block_size in
  let cont := 0 in
  if (seg =? 0) && negb (list_head s 0 =? NULL) then Some (list_head s 0)
  else
    find_fit_lists (Z.to_nat (SEG_LIST_NUM - seg)) scan_fuel s block_size
                   seg cont NULL min_diff.

(** ** Heap checker

    Every helper walks the heap or a list with a [while] loop; the walk
    takes fuel and [None] is a walk that does not end within it. *)

Definition check_prologue (s : state) (prologue : Z) : bool :=
  if negb (extract_size (read_word s prologue) =? 0)
     || negb (extract_alloc (read_word s prologue))
  then false else true.

Fixpoint check_epilogue (fuel : nat) (s : state) (epilogue : Z)
  : option bool :=
  match fuel with
  | O => None
  | S fuel' =>
      if negb (get_size s epilogue =? 0) then
        check_epilogue fuel' s (find_next s epilogue)
      else if negb (get_size s epilogue =? 0) || negb (get_alloc s epilogue)
           then Some false else Some true
  end.

Fixpoint check_lie_within_heap (fuel : nat) (s : state) (block : Z)
  : option bool :=
  match fuel with
  | O => None
  | S fuel' =>
      if get_size s block >? 0 then
        if (block <? mem_heap_lo s) || (block >? mem_heap_hi s)
        then Some false
        else check_lie_within_heap fuel' s (find_next s block)
      else Some true
  end.

Fixpoint check_block_alignment (fuel : nat) (s : state) (block : Z)
  : option bool :=
  match fuel with
  | O => None
  | S fuel' =>
      if get_size s block >? 0 then
        if negb (get_size s block mod dsize =? 0) then Some false
        else check_block_alignment fuel' s (find_next s block)
      else Some true
  end.

Fixpoint check_contiguous_free_blocks (fuel : nat) (s : state)
         (prev curr : Z) : option bool :=
  match fuel with
  | O => None
  | S fuel' =>
      if get_size s curr >? 0 then
        if negb (get_alloc s curr) && negb (get_alloc s prev) then Some false
        else check_contiguous_free_blocks fuel' s curr (find_next s curr)
      else Some true
  end.

Fixpoint check_header_footer_match (fuel : nat) (s : state) (block : Z)
  : option bool :=
  match fuel with
  | O => None
  | S fuel' =>
      if (get_size s block >? min_block_size) && negb (get_alloc s block) then
        let footerp := header_to_footer s block in
        if negb (get_size s block =? extract_size (read_word s footerp))
        then Some false
        else check_header_footer_match fuel' s (find_next s block)
      else Some true
  end.

Fixpoint check_minimum_block_size (fuel : nat) (s : state) (block : Z)
  : option bool :=
  match fuel with
  | O => None
  | S fuel' =>
      if get_size s block >? 0 then
        if get_size s block <? min_block_size then Some false
        else check_minimum_block_size fuel' s (find_next s block)
      else Some true
  end.

Fixpoint check_cycle_loop (fuel : nat) (s : state) (hare tortoise : Z)
  : option bool :=
  match fuel with
  | O => None
  | S fuel' =>
      if negb (hare =? NULL)
         && negb (read_word s (hare + off_next) =? NULL) then
        let hare :=
          read_word s (read_word s (hare + off_next) + off_next) in
        let tortoise := read_word s (tortoise + off_next) in
        if hare =? tortoise then Some false
        else check_cycle_loop fuel' s hare tortoise
      else Some true
  end.

Definition check_cycle (fuel : nat) (s : state) (list : Z) : option bool :=
  check_cycle_loop fuel s list list.

Fixpoint check_alloc (fuel : nat) (s : state) (block : Z) : option bool :=
  match fuel with
  | O => None
  | S fuel' =>
      if negb (block =? NULL) then
        if get_alloc s block then Some false
        else check_alloc fuel' s (read_word s (block + off_next))
      else Some true
  end.

Fixpoint check_bounds (fuel : nat) (s : state) (block : Z) : option bool :=
  match fuel with
  | O => None
  | S fuel' =>
      if negb (block =? NULL) then
        if (block <? mem_heap_lo s) || (block >? mem_heap_hi s)
        then Some false
        else check_bounds fuel' s (read_word s (block + off_next))
      else Some true
  end.

Fixpoint check_consecutive (fuel : nat) (s : state) (block : Z)
  : option bool :=
  match fuel with
  | O => None
  | S fuel' =>
      if negb (block =? NULL)
         && negb (read_word s (block + off_next) =? NULL) then
        if negb (read_word s (read_word s (block + off_next) + off_prev)
                 =? block)
        then Some false
        else check_consecutive fuel' s (read_word s (block + off_next))
      else Some true
  end.

Fixpoint check_bucket_loop (fuel : nat) (s : state) (seg block : Z)
  : option bool :=
  match fuel with
  | O => None
  | S fuel' =>
      if negb (block =? NULL) then
        if negb (get_list_index (get_size s block) =? seg) then Some false
        else check_bucket_loop fuel' s seg (read_word s (block + off_next))
      else Some true
  end.

Definition check_bucket (fuel : nat) (s : state) (list : Z) : option bool :=
  if list =? NULL then Some true
  else
    let block := list in
    let seg := get_list_index (get_size s block) in
    check_bucket_loop fuel s seg block.

(** The [for (int i = 1; i < SEG_LIST_NUM; i++)] loop of [mm_checkheap];
    every check assigns [consistent] anew. *)
Fixpoint checkheap_lists (n : nat) (fuel : nat) (s : state) (i : Z)
         (consistent : bool) : option bool :=
  match n with
  | O => Some consistent
  | S n' =>
      if i <? SEG_LIST_NUM then
        consistent <- check_cycle fuel s (list_head s i);;
        consistent <- check_alloc fuel s (list_head s i);;
        consistent <- check_bounds fuel s (list_head s i);;
        consistent <- check_consecutive fuel s (list_head s i);;
        consistent <- check_bucket fuel s (list_head s i);;
        checkheap_lists n' fuel s (i + 1) consistent
      else Some consistent
  end.

(** [mm_checkheap]; every check assigns [consistent] anew.  [None]:
    [heap_start] is [NULL], whose header [find_next] reads before the first
    check, or a walk does not end. *)
Definition mm_checkheap (fuel : nat) (s : state) : option bool :=
  if heap_start s =? NULL then None else
  let prologue := heap_start s - wsize in
  let epilogue := heap_start s in
  let block := heap_start s in
  let prev := heap_start s in
  let curr := find_next s prev in
  let consistent := false in
  let consistent := check_prologue s prologue in
  consistent <- check_epilogue fuel s epilogue;;
  consistent <- check_lie_within_heap fuel s block;;
  consistent <- check_block_alignment fuel s block;;
  consistent <- check_header_footer_match fuel s block;;
  consistent <- check_minimum_block_size fuel s block;;
  consistent <- check_contiguous_free_blocks fuel s prev curr;;
  checkheap_lists (Z.to_nat (SEG_LIST_NUM - 1)) fuel s 1 consistent.

(** ** Public interface *)

Definition mm_init (fuel : nat) (s : state) : option (state * bool) :=
  let s := set_lists s (repeat NULL (Z.to_nat SEG_LIST_NUM)) in
  match mem_sbrk s (2 * wsize) with
  | None => Some (s, false)
  | Some (s, start) =>
      let s := write_word s start (pack 0 true true false) in
      let s := write_word s (start + wsize) (pack 0 true true false) in
      let s := set_heap_start s (start + wsize) in
      r <- extend_heap fuel s chunksize;;
      let (s, block) := r in
      if block =? NULL then Some (s, false) else Some (s, true)
  end.

(** The adjusted block size of [malloc]. *)
Definition malloc_asize (size : Z) : Z :=
  if size <=? wsize then min_block_size
  else round_up (wrap (size + wsize)) dsize.

(** [malloc], "Mark block as allocated" and "Update the next block's
    prev_alloc". *)
Definition mark_allocated (s : state) (block : Z) : state :=
  let block_size := get_size s block in
  let prev_alloc := get_prev_alloc s block in
  let prev_mini := get_prev_mini s block in
  let s := write_block s block block_size true prev_alloc prev_mini in
  let block_next := find_next s block in
  let block_next_size := get_size s block_next in
  let block_next_alloc := get_alloc s block_next in
  let block_next_prev_mini :=
    if true then block_size =? min_block_size else false in
  update_block s block_next block_next_size block_next_alloc true
               block_next_prev_mini.

(** [malloc] from "Delete the block from the free list" to its end. *)
Definition malloc_take (fuel : nat) (s : state) (block asize : Z)
  : option (state * Z) :=
  s <- delete_normal_or_mini fuel s block;;
  let s := mark_allocated s block in
  let s := split_block s block asize in
  let bp := header_to_payload block in
  Some (s, bp).

(** [malloc] from "Search the free list for a fit" to its end. *)
Definition malloc_place (fuel : nat) (s : state) (asize : Z)
  : option (state * Z) :=
  block <- find_fit s asize;;
  if block =? NULL then
    let extendsize := max asize chunksize in
    r <- extend_heap fuel s extendsize;;
    let (s, block) := r in
    if block =? NULL then Some (s, NULL)
    else malloc_take fuel s block asize
  else malloc_take fuel s block asize.

Definition malloc (fuel : nat) (s : state) (size : Z) : option (state * Z) :=
  r <- (if heap_start s =? NULL then mm_init fuel s else Some (s, true));;
  let (s, initialized) := r in
  if negb initialized then Some (s, NULL)
  else if size =? 0 then Some (s, NULL)
  else malloc_place fuel s (malloc_asize size).

(** [free], "Mark the block as free" and "Update the next block's prev_alloc
    and prev_mini". *)
Definition mark_free (s : state) (block : Z) : state :=
  let size := get_size s block in
  let prev_alloc := get_prev_alloc s block in
  let prev_mini := get_prev_mini s block in
  let s := write_block s block size false prev_alloc prev_mini in
  let block_next := find_next s block in
  let block_next_size := get_size s block_next in
  let block_next_alloc := get_alloc s block_next in
  let block_next_prev_mini :=
    if true then size =? min_block_size else false in
  update_block s block_next block_next_size block_next_alloc false
               block_next_prev_mini.

Definition free (fuel : nat) (s : state) (bp : Z) : option state :=
  if bp =? NULL then Some s
  else
    let block := payload_to_header bp in
    let s := mark_free s block in
    r <- coalesce_block fuel s block;;
    Some (fst r).

Definition realloc (fuel : nat) (s : state) (ptr size : Z)
  : option (state * Z) :=
  let block := payload_to_header ptr in
  if size =? 0 then
    s <- free fuel s ptr;;
    Some (s, NULL)
  else if ptr =? NULL then malloc fuel s size
  else
    r <- malloc fuel s size;;
    let (s, newptr) := r in
    if newptr =? NULL then Some (s, NULL)
    else
      let copysize := get_payload_size s block in
      let copysize := if size <? copysize then size else copysize in
      s <- memcpy s newptr ptr copysize;;
      s <- free fuel s ptr;;
      Some (s, newptr).

Definition calloc (fuel : nat) (s : state) (elements size : Z)
  : option (state * Z) :=
  let asize := wrap (elements * size) in
  if elements =? 0 then Some (s, NULL)
  else if negb (asize / elements =? size) then Some (s, NULL)
  else
    r <- malloc fuel s asize;;
    let (s, bp) := r in
    if bp =? NULL then Some (s, NULL)
    else
      s <- memset s bp 0 asize;;
      Some (s, bp).

(** ** Predicates, specification-side definitions and sample states *)

(** Inclusive upper bound of size class [k], for [k] from 0 to 13. *)
Definition class_upper (k : Z) : Z :=
  nth (Z.to_nat k)
      [min_block_size; s_list_1; s_list_2; s_list_3; s_list_4; s_list_5;
       s_list_6; s_list_7; s_list_8; s_list_9; s_list_10; s_list_11;
       s_list_12; s_list_13] 0.

(** The allocator before its first call: zeroed globals and an empty arena
    of [len] bytes at [base]. *)
Definition fresh_arena (base len : Z) : state :=
  mkState (fun _ => 0) (repeat NULL (Z.to_nat SEG_LIST_NUM)) NULL
          base base (base + len).

(** A one-megabyte arena after [mm_init]: the heap is one free block of
    [chunksize] bytes. *)
Definition seeded_arena : state :=
  match mm_init 0 (fresh_arena 4096 1048576) with
  | Some (s, _) => s
  | None => fresh_arena 4096 1048576
  end.

(** [s'] has the arena bounds and the [heap_start] of [s]. *)
Definition same_arena (s s' : state) : Prop :=
  mem_brk s' = mem_brk s /\ mem_heap s' = mem_heap s /\
  mem_max_addr s' = mem_max_addr s /\ heap_start s' = heap_start s.

(** The pointer returned by [malloc] and the size of the block behind it. *)
Definition malloc_probe (fuel : nat) (s : state) (n : Z) : option (Z * Z) :=
  match malloc fuel s n with
  | Some (s', p) => Some (p, get_size s' (payload_to_header p))
  | None => None
  end.

(** A checked heap whose prologue word was overwritten with zero. *)
Definition corrupted_prologue : state :=
  write_word seeded_arena (heap_start seeded_arena - wsize) 0.

(** Runs a sequence of requests and collects the payload pointers. *)
Fixpoint malloc_all (fuel : nat) (s : state) (sizes : list Z)
  : state * list Z :=
  match sizes with
  | [] => (s, [])
  | n :: rest =>
      match malloc fuel s n with
      | Some (s', p) =>
          let (s'', ps) := malloc_all fuel s' rest in (s'', p :: ps)
      | None => (s, [])
      end
  end.

(** Frees a sequence of payload pointers. *)
Fixpoint free_all (fuel : nat) (s : state) (ptrs : list Z) : state :=
  match ptrs with
  | [] => s
  | p :: rest =>
      match free fuel s p with
      | Some s' => free_all fuel s' rest
      | None => s
      end
  end.

(** One 128-byte block and eleven 80-byte blocks, kept apart by live mini
    blocks, are allocated and then freed in that order: the list of size
    class 2 holds the eleven 80-byte blocks followed by the 128-byte one. *)
Definition crowded_bucket : state :=
  let requests :=
    [120; 8] ++ concat (repeat [72; 8] 11) in
  let (s, ps) := malloc_all 0 seeded_arena requests in
  let every_other :=
    map (fun k => nth (2 * k) ps NULL) (seq 0 12) in
  free_all 0 s every_other.

(** The block reached from [p] after [k] steps along [free.next]. *)
Fixpoint nth_entry (s : state) (p : Z) (k : nat) : Z :=
  match k with
  | O => p
  | S k' => nth_entry s (read_word s (p + off_next)) k'
  end.

(** [find_fit] as the specification words it: at most [SEARCH_LIMIT]
    entries of a list are examined. *)
Fixpoint find_fit_scan_spec (budget : nat) (s : state) (asize : Z)
         (block best_fit_block min_diff : Z) : scan_result :=
  match budget with
  | O => ScanNext 0 best_fit_block min_diff
  | S budget' =>
      if block =? NULL then ScanNext 0 best_fit_block min_diff
      else
        let fits := get_size s block >=? asize in
        let diff := wrap (get_size s block - asize) in
        let better := fits && (diff <? min_diff) in
        let min_diff := if better then diff else min_diff in
        let best_fit_block := if better then block else best_fit_block in
        if min_diff <=? CLOSE_ENOUGH then ScanReturn best_fit_block
        else find_fit_scan_spec budget' s asize
                                (read_word s (block + off_next))
                                best_fit_block min_diff
  end.

(** The loop over the lists from [bucket(asize)] to 14, carrying the
    best-so-far from one list to the next. *)
Fixpoint find_fit_lists_spec (n : nat) (s : state) (asize : Z)
         (i : Z) (best_fit_block min_diff : Z) : Z :=
  match n with
  | O => best_fit_block
  | S n' =>
      if i <? SEG_LIST_NUM then
        match find_fit_scan_spec (Z.to_nat SEARCH_LIMIT) s asize
                                 (list_head s i) best_fit_block min_diff with
        | ScanReturn b => b
        | ScanNext _ best_fit_block min_diff =>
            find_fit_lists_spec n' s asize (i + 1) best_fit_block min_diff
        end
      else best_fit_block
  end.

(** Steps 1 to 3 of the specification's [find_fit]. *)
Definition find_fit_spec (s : state) (asize : Z) : Z :=
  let seg := get_list_index asize in
  if (seg =? 0) && negb (list_head s 0 =? NULL) then list_head s 0
  else
    find_fit_lists_spec (Z.to_nat (SEG_LIST_NUM - seg)) s asize seg
                        NULL SIZE_MAX.

(** A stored block pointer is [NULL] or the address of a header, which sits
    eight bytes before a 16-aligned payload. *)
Definition ptr_ok (v : Z) : Prop := v = NULL \/ v mod 16 = 8.

(** Every list head is a block pointer. *)
Definition heads_ok (s : state) : Prop :=
  Forall ptr_ok (segregated_free_list s).

(** [block] is among the first [n] entries of the mini list that starts at
    [p]; every entry up to it is a mini block at a header address whose
    link word holds a block pointer. *)
Fixpoint on_mini_list (n : nat) (s : state) (p block : Z) : Prop :=
  match n with
  | O => False
  | S n' =>
      p mod 16 = 8 /\ get_size s p = min_block_size /\
      ptr_ok (read_word s (p + off_next_mini)) /\
      (p = block \/
       on_mini_list n' s (read_word s (p + off_next_mini)) block)
  end.

(** The chain of [next_mini] links from [p] reaches [block] within [n]
    entries. *)
Fixpoint mini_reach (n : nat) (s : state) (p block : Z) : Prop :=
  match n with
  | O => False
  | S n' =>
      p = block \/
      (p <> NULL /\ mini_reach n' s (read_word s (p + off_next_mini)) block)
  end.

(** [block] is a node of the doubly linked list of its size class: its two
    links hold block pointers; it is the head of that list or the successor
    of its predecessor; its successor, if there is one, points back to it
    and belongs to the same size class. *)
Definition on_free_list (s : state) (block : Z) : Prop :=
  let prev := read_word s (block + off_prev) in
  let next := read_word s (block + off_next) in
  ptr_ok prev /\ ptr_ok next /\
  (list_head s (get_list_index (get_size s block)) = block \/
   (prev <> NULL /\ read_word s (prev + off_next) = block)) /\
  (next <> NULL ->
   read_word s (next + off_prev) = block /\
   get_list_index (get_size s next) = get_list_index (get_size s block)).

(** A free block is on the list that [delete_normal_or_mini] takes it
    from: the mini list for a block of 16 bytes, the list of its size class
    otherwise. *)
Definition listed (fuel : nat) (s : state) (block : Z) : Prop :=
  if get_size s block =? min_block_size
  then on_mini_list fuel s (list_head s 0) block
  else on_free_list s block.

(** What [delete_normal_or_mini] needs of [block] to go through. *)
Definition deletable (fuel : nat) (s : state) (block : Z) : Prop :=
  if get_size s block =? min_block_size
  then mini_reach fuel s (list_head s 0) block /\
       ptr_ok (read_word s (block + off_next_mini))
  else ptr_ok (read_word s (block + off_next)) /\
       (list_head s (get_list_index (get_size s block)) = block \/
        read_word s (block + off_prev) <> NULL).

(** The states in which [free] and [extend_heap] call [coalesce_block]. *)
Inductive just_freed : state -> Z -> Prop :=
| freed_by_free (s : state) (bp : Z) :
    bp <> NULL ->
    just_freed (mark_free s (payload_to_header bp)) (payload_to_header bp)
| freed_by_extend_heap (s : state) (size : Z) (s1 : state) (bp : Z) :
    mem_sbrk s (to_signed (round_up size dsize)) = Some (s1, bp) ->
    just_freed (extend_heap_init s1 bp (round_up size dsize))
               (payload_to_header bp).

(** What coalescing relies on around the freed block: the block is a real
    one at a header address and the array of list heads is in order; a free
    physical predecessor is a real block that ends where the block starts,
    a free physical successor is a real block, and each of them is on the
    free list of its size; the merged size does not wrap. *)
Definition coalesce_ready (fuel : nat) (s : state) (block : Z) : Prop :=
  let prev := find_prev s block in
  let next := find_next s block in
  block mod 16 = 8 /\
  16 <= get_size s block /\
  heads_ok s /\
  length (segregated_free_list s) = Z.to_nat SEG_LIST_NUM /\
  (get_prev_alloc s block = false ->
   0 < prev /\ 16 <= get_size s prev /\ find_next s prev = block /\
   listed fuel s prev) /\
  (get_alloc s next = false ->
   16 <= get_size s next /\ listed fuel s next) /\
  (if get_prev_alloc s block then 0 else get_size s prev)
  + get_size s block
  + (if get_alloc s next then 0 else get_size s next) < word_max.

(** The block that [coalesce_block] returns: the free predecessor if there
    is one, the block itself otherwise. *)
Definition merged_block (s : state) (block : Z) : Z :=
  if get_prev_alloc s block then block else find_prev s block.

(** The size of the block and of its free physical neighbours. *)
Definition merged_size (s : state) (block : Z) : Z :=
  (if get_prev_alloc s block then 0 else get_size s (find_prev s block))
  + get_size s block
  + (if get_alloc s (find_next s block) then 0
     else get_size s (find_next s block)).

(** The end of [coalesce_block] in the cases 2 to 4: the merged block is
    written and inserted, then its successor is updated. *)
Definition merge_result (s : state) (block size : Z) (pa pm : bool) : state :=
  let s := write_block s block size false pa pm in
  let s := insert_normal_or_mini s block in
  let block_next := find_next s block in
  update_block s block_next (get_size s block_next)
               (get_alloc s block_next) false false.

(** Three 32-byte blocks and a live mini block behind them; the first and
    the third block have been freed. *)
Definition neighbours_free : state :=
  let (s, ps) := malloc_all 0 seeded_arena [24; 24; 24; 8] in
  free_all 0 s [nth 0 ps NULL; nth 2 ps NULL].

(** The payload of the second of the three blocks. *)
Definition middle_payload : Z := 4144.

(** [free (middle_payload)] at the call of [coalesce_block]. *)
Definition middle_freed : state :=
  mark_free neighbours_free (payload_to_header middle_payload).

(** A mini block, a 32-byte block, a mini block and a live 32-byte block;
    the two mini blocks have been freed, the second one first, so the mini
    list holds the first and then the second. *)
Definition mini_neighbours_free : state :=
  let (s, ps) := malloc_all 0 seeded_arena [8; 24; 8; 24] in
  free_all 0 s [nth 2 ps NULL; nth 0 ps NULL].

(** The payload of the 32-byte block between the two free mini blocks. *)
Definition mini_middle_payload : Z := 4128.

(** [free (mini_middle_payload)] at the call of [coalesce_block]. *)
Definition mini_middle_freed : state :=
  mark_free mini_neighbours_free (payload_to_header mini_middle_payload).

(** Three live mini blocks of which the first has been freed, at the call
    of [coalesce_block] in [free] of the second: its predecessor is a free
    mini block. *)
Definition mini_prev_freed : state :=
  let (s, ps) := malloc_all 0 seeded_arena [8; 8; 8] in
  mark_free (free_all 0 s [nth 0 ps NULL])
            (payload_to_header (nth 1 ps NULL)).

(** Three live mini blocks of which the second has been freed, at the call
    of [coalesce_block] in [free] of the first: its successor is a free
    mini block. *)
Definition mini_next_freed : state :=
  let (s, ps) := malloc_all 0 seeded_arena [8; 8; 8] in
  mark_free (free_all 0 s [nth 1 ps NULL])
            (payload_to_header (nth 0 ps NULL)).

(** Three live mini blocks at the call of [coalesce_block] in [free] of the
    second: both neighbours are allocated. *)
Definition mini_between_live : state :=
  let (s, ps) := malloc_all 0 seeded_arena [8; 8; 8] in
  mark_free s (payload_to_header (nth 1 ps NULL)).

(** The seeded heap at the call of [coalesce_block] in [extend_heap]: the
    new block lies behind the free block that [mm_init] made. *)
Definition extended_behind_free : state :=
  match mem_sbrk seeded_arena (to_signed (round_up 4016 dsize)) with
  | Some (s1, bp) => extend_heap_init s1 bp (round_up 4016 dsize)
  | None => seeded_arena
  end.

(** An arena that [mm_init] fills to its end. *)
Definition full_arena : state :=
  match mm_init 0 (fresh_arena 4096 (2 * wsize + chunksize)) with
  | Some (s, _) => s
  | None => fresh_arena 4096 (2 * wsize + chunksize)
  end.

(** The run ended with a result. *)
Definition is_some {A : Type} (o : option A) : bool :=
  match o with Some _ => true | None => false end.

(** The arena keeps its base and its limit and the break does not move
    down. *)
Definition arena_grows (s s' : state) : Prop :=
  mem_heap s' = mem_heap s /\
  mem_max_addr s' = mem_max_addr s /\
  mem_brk s <= mem_brk s' /\
  (mem_brk s <= mem_max_addr s -> mem_brk s' <= mem_max_addr s').

(** Offset of the link that [insert_normal_or_mini] points at the old head. *)
Definition next_link_offset (size : Z) : Z :=
  if size =? min_block_size then off_next_mini else off_next.

(** An allocated 32-byte block between two allocated blocks. *)
Definition three_live_blocks : state :=
  fst (malloc_all 0 seeded_arena [24; 24; 24]).

(** Five live mini blocks of which the first and the third have been freed:
    the mini list holds the third block, then the first. *)
Definition two_free_minis : state :=
  let (s, ps) := malloc_all 0 seeded_arena [8; 8; 8; 8; 8] in
  free_all 0 s [nth 0 ps NULL; nth 2 ps NULL].

(** * Properties *)

(** ** Bit-level facts about the header codec *)

Lemma size_mask_shift : size_mask = Z.shiftl (Z.ones 60) 4.
Proof. reflexivity. Qed.

Lemma size_mask_bits (n : Z) :
  Z.testbit size_mask n = (4 <=? n) && (n <? 64).
Proof.
  rewrite size_mask_shift.
  destruct (Z.ltb_spec n 0) as [Hneg | Hpos].
  - rewrite Z.testbit_neg_r by lia.
    destruct (Z.leb_spec 4 n); [lia | reflexivity].
  - rewrite Z.shiftl_spec by lia.
    destruct (Z.leb_spec 4 n) as [H4 | H4]; simpl.
    + destruct (Z.ltb_spec n 64).
      * apply Z.ones_spec_low; lia.
      * apply Z.ones_spec_high; lia.
    + apply Z.testbit_neg_r; lia.
Qed.

Lemma extract_size_decompose (w : Z) :
  extract_size w = 16 * ((w / 16) mod 2 ^ 60).
Proof.
  unfold extract_size.
  change 16 with (2 ^ 4).
  rewrite <- Z.shiftr_div_pow2, <- Z.land_ones by lia.
  rewrite Z.mul_comm, <- Z.shiftl_mul_pow2 by lia.
  apply Z.bits_inj'; intros n Hn.
  rewrite Z.land_spec, size_mask_bits, Z.shiftl_spec by lia.
  destruct (Z.leb_spec 4 n) as [H4 | H4]; simpl.
  - rewrite Z.land_spec, Z.shiftr_spec by lia.
    replace (n - 4 + 4) with n by lia.
    destruct (Z.ltb_spec n 64).
    + rewrite Z.ones_spec_low by lia. reflexivity.
    + rewrite Z.ones_spec_high by lia. reflexivity.
  - rewrite (Z.testbit_neg_r _ (n - 4)) by lia. apply andb_false_r.
Qed.

Lemma extract_size_mod16 (w : Z) : extract_size w mod 16 = 0.
Proof.
  rewrite extract_size_decompose, Z.mul_comm. apply Z.mod_mul. lia.
Qed.

Lemma extract_size_range (w : Z) : 0 <= extract_size w < word_max.
Proof.
  rewrite extract_size_decompose.
  assert (0 <= (w / 16) mod 2 ^ 60 < 2 ^ 60) by (apply Z.mod_pos_bound; lia).
  unfold word_max. change (2 ^ 64) with (16 * 2 ^ 60). lia.
Qed.

Lemma low_bits_of_size (size n : Z) :
  size mod 16 = 0 -> n < 4 -> Z.testbit size n = false.
Proof.
  intros Hm Hn.
  destruct (Z.ltb_spec n 0); [apply Z.testbit_neg_r; lia|].
  change 16 with (2 ^ 4) in Hm.
  rewrite <- (Z.mod_pow2_bits_low size 4 n) by lia.
  rewrite Hm. apply Z.bits_0.
Qed.

Lemma high_bits_of_size (size n : Z) :
  0 <= size < word_max -> 64 <= n -> Z.testbit size n = false.
Proof.
  intros Hr Hn.
  rewrite <- (Z.mod_small size (2 ^ 64)) by exact Hr.
  apply Z.mod_pow2_bits_high. lia.
Qed.

Lemma mask_bits (k n : Z) : 0 <= k -> Z.testbit (2 ^ k) n = (n =? k).
Proof. intros Hk. rewrite Z.pow2_bits_eqb by exact Hk. apply Z.eqb_sym. Qed.

Lemma pack_bits (size : Z) (a pa pm : bool) (n : Z) :
  Z.testbit (pack size a pa pm) n =
  Z.testbit size n || (a && (n =? 0)) || (pa && (n =? 1)) || (pm && (n =? 2)).
Proof.
  pose proof (mask_bits 0 n ltac:(lia)) as H0.
  pose proof (mask_bits 1 n ltac:(lia)) as H1.
  pose proof (mask_bits 2 n ltac:(lia)) as H2.
  change (2 ^ 0) with alloc_mask in H0.
  change (2 ^ 1) with prev_alloc_mask in H1.
  change (2 ^ 2) with prev_mini_mask in H2.
  unfold pack.
  destruct a, pa, pm; rewrite ?Z.lor_spec, ?H0, ?H1, ?H2; simpl;
    rewrite ?orb_false_r; reflexivity.
Qed.

Lemma land_pow2 (w k : Z) :
  0 <= k -> Z.land w (2 ^ k) = if Z.testbit w k then 2 ^ k else 0.
Proof.
  intros Hk. apply Z.bits_inj'; intros n Hn.
  rewrite Z.land_spec, Z.pow2_bits_eqb by lia.
  destruct (Z.eqb_spec k n) as [-> | Hne].
  - destruct (Z.testbit w n); simpl.
    + rewrite Z.pow2_bits_true by lia. reflexivity.
    + rewrite Z.bits_0. reflexivity.
  - rewrite andb_false_r.
    destruct (Z.testbit w k).
    + rewrite Z.pow2_bits_false by lia. reflexivity.
    + rewrite Z.bits_0. reflexivity.
Qed.

Lemma flag_test (w k : Z) :
  0 <= k -> negb (Z.land w (2 ^ k) =? 0) = Z.testbit w k.
Proof.
  intros Hk. rewrite land_pow2 by exact Hk.
  destruct (Z.testbit w k); simpl.
  - assert (0 < 2 ^ k) by (apply Z.pow_pos_nonneg; lia).
    destruct (Z.eqb_spec (2 ^ k) 0); [lia | reflexivity].
  - reflexivity.
Qed.

Lemma extract_alloc_bit (w : Z) : extract_alloc w = Z.testbit w 0.
Proof. exact (flag_test w 0 ltac:(lia)). Qed.
Lemma extract_prev_alloc_bit (w : Z) : extract_prev_alloc w = Z.testbit w 1.
Proof. exact (flag_test w 1 ltac:(lia)). Qed.
Lemma extract_prev_mini_bit (w : Z) : extract_prev_mini w = Z.testbit w 2.
Proof. exact (flag_test w 2 ltac:(lia)). Qed.

Section PackedWord.
Variables (size : Z) (a pa pm : bool).
Hypothesis size_aligned : size mod 16 = 0.

Lemma extract_alloc_pack : extract_alloc (pack size a pa pm) = a.
Proof.
  rewrite extract_alloc_bit, pack_bits, low_bits_of_size by (auto; lia).
  destruct a, pa, pm; reflexivity.
Qed.

Lemma extract_prev_alloc_pack : extract_prev_alloc (pack size a pa pm) = pa.
Proof.
  rewrite extract_prev_alloc_bit, pack_bits, low_bits_of_size by (auto; lia).
  destruct a, pa, pm; reflexivity.
Qed.

Lemma extract_prev_mini_pack : extract_prev_mini (pack size a pa pm) = pm.
Proof.
  rewrite extract_prev_mini_bit, pack_bits, low_bits_of_size by (auto; lia).
  destruct a, pa, pm; reflexivity.
Qed.

Hypothesis size_range : 0 <= size < word_max.

Lemma extract_size_pack : extract_size (pack size a pa pm) = size.
Proof.
  unfold extract_size. apply Z.bits_inj'; intros n Hn.
  rewrite Z.land_spec, size_mask_bits, pack_bits.
  destruct (Z.leb_spec 4 n) as [H4 | H4]; simpl.
  - destruct (Z.eqb_spec n 0); [lia|]. destruct (Z.eqb_spec n 1); [lia|].
    destruct (Z.eqb_spec n 2); [lia|].
    rewrite !andb_false_r, !orb_false_r.
    destruct (Z.ltb_spec n 64); simpl.
    + apply andb_true_r.
    + rewrite andb_false_r. symmetry. apply high_bits_of_size; auto.
  - rewrite andb_false_r. symmetry. apply low_bits_of_size; auto.
Qed.

Lemma pack_range : 0 <= pack size a pa pm < word_max.
Proof.
  assert (Hb : forall n, 64 <= n -> Z.testbit (pack size a pa pm) n = false).
  { intros n Hn. rewrite pack_bits, high_bits_of_size by auto.
    destruct (Z.eqb_spec n 0); [lia|]. destruct (Z.eqb_spec n 1); [lia|].
    destruct (Z.eqb_spec n 2); [lia|].
    rewrite !andb_false_r. reflexivity. }
  assert (Hnn : 0 <= pack size a pa pm).
  { unfold pack, alloc_mask, prev_alloc_mask, prev_mini_mask.
    destruct a, pa, pm; rewrite ?Z.lor_nonneg; lia. }
  split; [exact Hnn|].
  destruct (Z.ltb_spec (pack size a pa pm) word_max) as [|Hge]; [assumption|].
  exfalso.
  destruct (Z.eq_dec (pack size a pa pm) 0) as [E|E].
  { rewrite E in Hge. unfold word_max in Hge. lia. }
  assert (Hlog : 64 <= Z.log2 (pack size a pa pm)).
  { apply Z.log2_le_pow2; [lia | exact Hge]. }
  pose proof (Z.bit_log2 (pack size a pa pm) ltac:(lia)) as Hbit.
  rewrite Hb in Hbit by exact Hlog. discriminate.
Qed.
End PackedWord.

(** ** Loads and stores *)

Lemma load_le_ext (n : nat) (m1 m2 : mem) (a : Z) :
  (forall x, a <= x < a + Z.of_nat n -> m1 x = m2 x) ->
  load_le n m1 a = load_le n m2 a.
Proof.
  revert a. induction n as [|n IH]; intros a H; simpl; [reflexivity|].
  unfold load8. rewrite (H a) by lia. rewrite (IH (a + 1)); [reflexivity|].
  intros x Hx. apply H. lia.
Qed.

Lemma load_le_range (n : nat) (m : mem) (a : Z) :
  0 <= load_le n m a < 2 ^ (8 * Z.of_nat n).
Proof.
  revert a. induction n as [|n IH]; intros a.
  - simpl. lia.
  - cbn [load_le]. specialize (IH (a + 1)).
    replace (8 * Z.of_nat (S n)) with (8 + 8 * Z.of_nat n) by lia.
    rewrite Z.pow_add_r by lia. change (2 ^ 8) with 256.
    unfold load8. pose proof (Z.mod_pos_bound (m a) 256 ltac:(lia)). nia.
Qed.

Lemma load_le_bytes (n : nat) (m : mem) (a v : Z) :
  (forall i, 0 <= i < Z.of_nat n -> m (a + i) mod 256 = (v / 2 ^ (8 * i)) mod 256) ->
  load_le n m a = v mod 2 ^ (8 * Z.of_nat n).
Proof.
  revert a v. induction n as [|n IH]; intros a v H.
  - simpl. rewrite Z.mod_1_r. reflexivity.
  - cbn [load_le]. unfold load8.
    rewrite (IH (a + 1) (v / 256)).
    + pose proof (H 0 ltac:(lia)) as H0.
      rewrite Z.add_0_r in H0. change (2 ^ (8 * 0)) with 1 in H0.
      rewrite Z.div_1_r in H0. rewrite H0.
      replace (8 * Z.of_nat (S n)) with (8 + 8 * Z.of_nat n) by lia.
      rewrite Z.pow_add_r by lia. change (2 ^ 8) with 256.
      symmetry. apply Z.rem_mul_r; [lia|].
      apply Z.pow_pos_nonneg; lia.
    + intros i Hi.
      replace (a + 1 + i) with (a + (i + 1)) by lia.
      rewrite (H (i + 1)) by lia.
      replace (8 * (i + 1)) with (8 + 8 * i) by lia.
      rewrite Z.pow_add_r by lia. change (2 ^ 8) with 256.
      rewrite Z.div_div by (try lia; apply Z.pow_pos_nonneg; lia).
      reflexivity.
Qed.

Lemma load64_range (m : mem) (a : Z) : 0 <= load64 m a < word_max.
Proof. exact (load_le_range 8 m a). Qed.

Lemma load64_store64_same (m : mem) (a v : Z) :
  load64 (store64 m a v) a = wrap v.
Proof.
  unfold load64, wrap, word_max.
  change (2 ^ 64) with (2 ^ (8 * Z.of_nat 8)).
  apply load_le_bytes. intros i Hi. unfold store64.
  destruct (Z.leb_spec a (a + i)); [|lia].
  destruct (Z.ltb_spec (a + i) (a + 8)); [|lia]. simpl.
  replace (a + i - a) with i by lia.
  apply Z.mod_mod. lia.
Qed.

Lemma load64_store64_other (m : mem) (a v b : Z) :
  b + 8 <= a \/ a + 8 <= b ->
  load64 (store64 m a v) b = load64 m b.
Proof.
  intros H. unfold load64. apply load_le_ext. intros x Hx. unfold store64.
  destruct (Z.leb_spec a x); simpl; [|reflexivity].
  destruct (Z.ltb_spec x (a + 8)); [lia | reflexivity].
Qed.

(** ** Effects of the primitive state updates *)

Lemma read_word_range (s : state) (a : Z) : 0 <= read_word s a < word_max.
Proof. apply load64_range. Qed.

Lemma read_write_same (s : state) (a v b : Z) :
  a = b -> read_word (write_word s a v) b = wrap v.
Proof. intros <-. apply load64_store64_same. Qed.

Lemma read_write_other (s : state) (a v b : Z) :
  b + 8 <= a \/ a + 8 <= b ->
  read_word (write_word s a v) b = read_word s b.
Proof. apply load64_store64_other. Qed.

Lemma read_set_list_head (s : state) (i v a : Z) :
  read_word (set_list_head s i v) a = read_word s a.
Proof. reflexivity. Qed.

Lemma list_head_write_word (s : state) (a v i : Z) :
  list_head (write_word s a v) i = list_head s i.
Proof. reflexivity. Qed.

Lemma nth_list_update (l : list Z) (k n : nat) (v d : Z) :
  nth n (list_update l k v) d = v \/ nth n (list_update l k v) d = nth n l d.
Proof.
  revert k n. induction l as [|h t IH]; intros k n; simpl.
  - right. reflexivity.
  - destruct k as [|k]; destruct n as [|n]; simpl; auto.
Qed.

Lemma nth_list_update_other (l : list Z) (k n : nat) (v d : Z) :
  k <> n -> nth n (list_update l k v) d = nth n l d.
Proof.
  revert k n. induction l as [|h t IH]; intros k n Hkn; simpl.
  - reflexivity.
  - destruct k as [|k]; destruct n as [|n]; simpl; auto. congruence.
Qed.

Lemma list_head_set_list_head (s : state) (i v j : Z) :
  list_head (set_list_head s i v) j = v \/
  list_head (set_list_head s i v) j = list_head s j.
Proof. unfold list_head, set_list_head. simpl. apply nth_list_update. Qed.

Lemma wrap_small (x : Z) : 0 <= x < word_max -> wrap x = x.
Proof. apply Z.mod_small. Qed.

Lemma wrap_range (x : Z) : 0 <= wrap x < word_max.
Proof. apply Z.mod_pos_bound. reflexivity. Qed.

Lemma wrap_mod16 (x : Z) : wrap x mod 16 = x mod 16.
Proof.
  unfold wrap, word_max. change (2 ^ 64) with (16 * 2 ^ 60).
  rewrite Z.rem_mul_r by lia.
  rewrite (Z.mul_comm 16), Z.mod_add by lia. apply Z.mod_mod. lia.
Qed.

Lemma get_size_mod16 (s : state) (b : Z) : get_size s b mod 16 = 0.
Proof. apply extract_size_mod16. Qed.

Lemma get_size_range (s : state) (b : Z) : 0 <= get_size s b < word_max.
Proof. apply extract_size_range. Qed.

(** Linear arithmetic with [mod 16] and [/ 16]. *)
Ltac mlia := Z.div_mod_to_equations; lia.

(** ** The size-class index *)

Ltac split_ifs :=
  repeat match goal with
         | |- context [if ?x <=? ?y then _ else _] => destruct (Z.leb_spec x y)
         | |- context [if ?x <? ?y then _ else _] => destruct (Z.ltb_spec x y)
         | |- context [if ?x >? ?y then _ else _] =>
             rewrite (Z.gtb_ltb x y); destruct (Z.ltb_spec y x)
         | |- context [if ?x >=? ?y then _ else _] =>
             rewrite (Z.geb_leb x y); destruct (Z.leb_spec y x)
         | |- context [if ?x =? ?y then _ else _] => destruct (Z.eqb_spec x y)
         end.

Lemma get_list_index_cases (size : Z) :
  (size < 32 /\ get_list_index size = 0) \/
  (32 <= size <= 64 /\ get_list_index size = 1) \/
  (exists k, 2 <= k <= 13 /\ class_upper (k - 1) < size <= class_upper k
             /\ get_list_index size = k) \/
  (262144 < size /\ get_list_index size = 14).
Proof.
  unfold get_list_index, s_list_mini, s_list_1, s_list_2, s_list_3, s_list_4,
    s_list_5, s_list_6, s_list_7, s_list_8, s_list_9, s_list_10, s_list_11,
    s_list_12, s_list_13.
  split_ifs;
    first [ left; split; [lia | reflexivity]
          | right; left; split; [lia | reflexivity]
          | right; right; right; split; [lia | reflexivity]
          | right; right; left ].
  all: match goal with
       | |- exists k, _ /\ _ /\ ?n = k =>
           exists n; split; [lia | split; [vm_compute class_upper; lia | reflexivity]]
       end.
Qed.

(** C9.  For a size that is a positive multiple of 16, [get_list_index]
    returns 0 exactly for 16, 1 exactly for sizes from 32 to 64, [k] from 2 to
    13 exactly for sizes above the upper bound of class [k - 1] and up to the
    upper bound of class [k] (128, 256, ..., 262144), and 14 exactly for
    sizes above 262144. *)
Theorem get_list_index_classes (size : Z) :
  0 < size -> size mod 16 = 0 ->
  (get_list_index size = 0 <-> size = 16) /\
  (get_list_index size = 1 <-> 32 <= size <= 64) /\
  (forall k, 2 <= k <= 13 ->
     (get_list_index size = k <->
      class_upper (k - 1) < size <= class_upper k)) /\
  (get_list_index size = 14 <-> 262144 < size).
Proof.
  intros Hpos Hmod.
  assert (Hup : forall k, 1 <= k <= 13 -> class_upper k = 64 * 2 ^ (k - 1)).
  { intros k Hk.
    assert (k = 1 \/ k = 2 \/ k = 3 \/ k = 4 \/ k = 5 \/ k = 6 \/ k = 7 \/
            k = 8 \/ k = 9 \/ k = 10 \/ k = 11 \/ k = 12 \/ k = 13) as Hc by lia.
    repeat (destruct Hc as [-> | Hc]; [reflexivity|]). subst k. reflexivity. }
  assert (Hmono : forall j k, 1 <= j -> j < k -> k <= 13 ->
                          class_upper j < class_upper k).
  { intros j k Hj Hjk Hk. rewrite !Hup by lia.
    apply Z.mul_lt_mono_pos_l; [lia|].
    apply Z.pow_lt_mono_r; lia. }
  assert (Hmono' : forall j k, 1 <= j -> j <= k -> k <= 13 ->
                          class_upper j <= class_upper k).
  { intros j k Hj Hjk Hk. destruct (Z.eq_dec j k) as [-> | Hne]; [lia|].
    apply Z.lt_le_incl, Hmono; lia. }
  assert (H1 : class_upper 1 = 64) by reflexivity.
  assert (H13 : class_upper 13 = 262144) by reflexivity.
  assert (Hlow : forall k, 2 <= k <= 13 -> 64 <= class_upper (k - 1)).
  { intros k Hk. rewrite <- H1. apply Hmono'; lia. }
  assert (Hhigh : forall k, 2 <= k <= 13 -> class_upper k <= 262144).
  { intros k Hk. rewrite <- H13. apply Hmono'; lia. }
  destruct (get_list_index_cases size)
    as [[Hs Hi] | [[Hs Hi] | [(k0 & Hk0 & Hs & Hi) | [Hs Hi]]]]; rewrite Hi.
  - split; [|split; [|split]].
    + split; intros _; [mlia | reflexivity].
    + split; intros Hx; lia.
    + intros k Hk. specialize (Hlow k Hk). split; intros Hx; lia.
    + split; intros Hx; lia.
  - split; [|split; [|split]].
    + split; intros Hx; lia.
    + split; intros _; [lia | reflexivity].
    + intros k Hk. specialize (Hlow k Hk). split; intros Hx; lia.
    + split; intros Hx; lia.
  - pose proof (Hlow k0 Hk0). pose proof (Hhigh k0 Hk0).
    split; [|split; [|split]].
    + split; intros Hx; lia.
    + split; intros Hx; lia.
    + intros k Hk. split.
      * intros <-. exact Hs.
      * intros Hx.
        destruct (Z.lt_trichotomy k k0) as [Hlt | [-> | Hgt]]; [|reflexivity|].
        -- pose proof (Hmono' k (k0 - 1) ltac:(lia) ltac:(lia) ltac:(lia)). lia.
        -- pose proof (Hmono' k0 (k - 1) ltac:(lia) ltac:(lia) ltac:(lia)). lia.
    + split; intros Hx; lia.
  - split; [|split; [|split]].
    + split; intros Hx; lia.
    + split; intros Hx; lia.
    + intros k Hk. specialize (Hhigh k Hk). split; intros Hx; lia.
    + split; intros _; [exact Hs | reflexivity].
Qed.

Lemma get_list_index_classes_witness :
  (0 < 48 /\ 48 mod 16 = 0) /\
  (get_list_index 48 = 1 <-> 32 <= 48 <= 64).
Proof.
  split; [split; [lia | reflexivity]|].
  exact (proj1 (proj2 (get_list_index_classes 48 ltac:(lia) ltac:(reflexivity)))).
Defined.

(** ** Request sizes *)

Lemma round_up_16 (x : Z) : round_up x 16 = 16 * (wrap (x + 15) / 16).
Proof.
  unfold round_up. change (16 - 1) with 15.
  apply wrap_small.
  pose proof (wrap_range (x + 15)) as Hr. unfold word_max in *.
  mlia.
Qed.

Lemma round_up_16_mod (x : Z) : round_up x 16 mod 16 = 0.
Proof. rewrite round_up_16, Z.mul_comm. apply Z.mod_mul. lia. Qed.

Lemma round_up_16_range (x : Z) : 0 <= round_up x 16 < word_max.
Proof. unfold round_up. apply wrap_range. Qed.


Lemma malloc_asize_mod (n : Z) : malloc_asize n mod 16 = 0.
Proof.
  unfold malloc_asize, min_block_size, dsize, wsize. simpl (2 * 8).
  destruct (n <=? 8); [reflexivity | apply round_up_16_mod].
Qed.




(** ** Operations that leave the arena bounds alone *)

Lemma same_arena_refl (s : state) : same_arena s s.
Proof. repeat split. Qed.

Lemma same_arena_trans (s1 s2 s3 : state) :
  same_arena s1 s2 -> same_arena s2 s3 -> same_arena s1 s3.
Proof. unfold same_arena. intuition congruence. Qed.

Lemma same_arena_write_word (s : state) (a v : Z) :
  same_arena s (write_word s a v).
Proof. repeat split. Qed.

Lemma same_arena_set_list_head (s : state) (i v : Z) :
  same_arena s (set_list_head s i v).
Proof. repeat split. Qed.

Ltac arena_step :=
  match goal with
  | |- same_arena ?s ?s => apply same_arena_refl
  | |- same_arena ?s (write_word ?t _ _) =>
      apply (same_arena_trans s t); [|apply same_arena_write_word]
  | |- same_arena ?s (set_list_head ?t _ _) =>
      apply (same_arena_trans s t); [|apply same_arena_set_list_head]
  | |- same_arena _ (if ?c then _ else _) => destruct c
  | |- same_arena _ (let _ := _ in _) => cbv zeta
  end.

Lemma same_arena_write_block s b size a pa pm :
  same_arena s (write_block s b size a pa pm).
Proof. unfold write_block. repeat arena_step. Qed.

Lemma same_arena_update_block s b size a pa pm :
  same_arena s (update_block s b size a pa pm).
Proof. unfold update_block. repeat arena_step. Qed.

Lemma same_arena_insert s b : same_arena s (insert_normal_or_mini s b).
Proof.
  unfold insert_normal_or_mini, insert_to_mini_free_list, insert_to_free_list.
  repeat arena_step.
Qed.

Lemma same_arena_delete fuel s b s' :
  delete_normal_or_mini fuel s b = Some s' -> same_arena s s'.
Proof.
  unfold delete_normal_or_mini, delete_from_mini_free_list,
    delete_from_free_list.
  intros H.
  repeat match type of H with
         | (if ?c then _ else _) = _ => destruct c
         | match ?x with Some _ => _ | None => _ end = _ => destruct x
         | Some _ = Some _ => injection H as <-
         | None = Some _ => discriminate H
         end; repeat arena_step.
Qed.

Lemma same_arena_coalesce fuel s b s' m :
  coalesce_block fuel s b = Some (s', m) -> same_arena s s'.
Proof.
  unfold coalesce_block. intros H.
  destruct (get_prev_alloc s b && get_alloc s (find_next s b)).
  { injection H as <- <-. apply same_arena_insert. }
  match type of H with
  | match ?x with Some _ => _ | None => _ end = _ =>
      destruct x as [[s1 b1]|] eqn:E; [|discriminate]
  end.
  injection H as <- <-.
  eapply same_arena_trans; [|apply same_arena_update_block].
  repeat match type of E with
         | (if ?c then _ else _) = _ => destruct c
         | None = Some _ => discriminate E
         | match ?x with Some _ => _ | None => _ end = _ =>
             let D := fresh "D" in
             destruct x eqn:D; [apply same_arena_delete in D|discriminate]
         end;
    injection E as <- <-;
    (eapply same_arena_trans; [|apply same_arena_insert]);
    (eapply same_arena_trans; [|apply same_arena_write_block]);
    eauto using same_arena_trans.
Qed.

Lemma same_arena_split s b asize : same_arena s (split_block s b asize).
Proof.
  unfold split_block. cbv zeta.
  destruct (_ >=? _); [|apply same_arena_refl].
  eapply same_arena_trans; [|apply same_arena_insert].
  eapply same_arena_trans; [|apply same_arena_update_block].
  eapply same_arena_trans; [|apply same_arena_write_block].
  apply same_arena_write_block.
Qed.

Lemma same_arena_mark_allocated s b : same_arena s (mark_allocated s b).
Proof.
  unfold mark_allocated. cbv zeta.
  eapply same_arena_trans; [|apply same_arena_update_block].
  apply same_arena_write_block.
Qed.

Lemma same_arena_malloc_take fuel s b asize s' p :
  malloc_take fuel s b asize = Some (s', p) -> same_arena s s'.
Proof.
  unfold malloc_take. intros H.
  destruct (delete_normal_or_mini fuel s b) as [s1|] eqn:D; [|discriminate].
  injection H as <- <-. apply same_arena_delete in D.
  eapply same_arena_trans; [exact D|].
  eapply same_arena_trans; [apply same_arena_mark_allocated|].
  apply same_arena_split.
Qed.


Lemma extend_heap_failure fuel s size :
  mem_sbrk s (to_signed (round_up size dsize)) = None ->
  extend_heap fuel s size = Some (s, NULL).
Proof. unfold extend_heap. intros ->. reflexivity. Qed.


(** ** The public interface on degenerate and failing requests *)

Lemma malloc_initialized fuel s n :
  heap_start s <> NULL ->
  malloc fuel s n =
  if n =? 0 then Some (s, NULL) else malloc_place fuel s (malloc_asize n).
Proof.
  intros H. unfold malloc.
  destruct (Z.eqb_spec (heap_start s) NULL); [contradiction | reflexivity].
Qed.

(** On an allocator that was never initialised, [malloc] runs [mm_init]
    before it looks at the request. *)
Lemma malloc_initialises_lazily :
  heap_start (fresh_arena 4096 1048576) = NULL /\
  match malloc 0 (fresh_arena 4096 1048576) 0 with
  | Some (s', p) => p = NULL /\ heap_start s' = 4104 /\ mem_brk s' = 6160
  | None => False
  end.
Proof.
  split; [reflexivity|].
  destruct (malloc 0 (fresh_arena 4096 1048576) 0) as [[s' p]|] eqn:E.
  - assert (H : match malloc 0 (fresh_arena 4096 1048576) 0 with
                | Some (s', p) => (p, heap_start s', mem_brk s')
                | None => (1, 0, 0)
                end = (NULL, 4104, 6160)) by (vm_compute; reflexivity).
    rewrite E in H. injection H as -> -> ->. auto.
  - assert (H : is_some (malloc 0 (fresh_arena 4096 1048576) 0) = true)
      by (vm_compute; reflexivity).
    rewrite E in H. discriminate H.
Qed.

Lemma malloc_place_no_fit fuel s asize :
  find_fit s asize = Some NULL ->
  malloc_place fuel s asize =
  match extend_heap fuel s (max asize chunksize) with
  | Some (s', block) =>
      if block =? NULL then Some (s', NULL)
      else malloc_take fuel s' block asize
  | None => None
  end.
Proof. unfold malloc_place. intros ->. reflexivity. Qed.



(** C6.  On an initialised allocator, when no free block fits and
    [mem_sbrk] refuses the extension: [extend_heap] returns [NULL] and the
    state it was given, and [malloc], [realloc] and [calloc] return [NULL]
    with the whole allocator state (list heads and every heap byte)
    unchanged. *)
Theorem extension_failure_keeps_state
        (fuel : nat) (s : state) (n ptr elements size : Z) :
  heap_start s <> NULL ->
  0 < n < word_max ->
  find_fit s (malloc_asize n) = Some NULL ->
  mem_sbrk s (to_signed (round_up (max (malloc_asize n) chunksize) dsize))
    = None ->
  (forall size0,
      mem_sbrk s (to_signed (round_up size0 dsize)) = None ->
      extend_heap fuel s size0 = Some (s, NULL)) /\
  malloc fuel s n = Some (s, NULL) /\
  realloc fuel s ptr n = Some (s, NULL) /\
  (0 < elements -> elements * size = n ->
   calloc fuel s elements size = Some (s, NULL)).
Proof.
  intros Hinit Hn Hfit Hbrk.
  pose proof (extend_heap_failure fuel _ _ Hbrk) as He.
  assert (Hm : malloc fuel s n = Some (s, NULL)).
  { rewrite malloc_initialized by exact Hinit.
    destruct (Z.eqb_spec n 0); [lia|].
    rewrite malloc_place_no_fit by exact Hfit. rewrite He. reflexivity. }
  split; [intros size0; apply extend_heap_failure | split; [exact Hm | split]].
  - unfold realloc. destruct (Z.eqb_spec n 0); [lia|].
    destruct (ptr =? NULL); rewrite Hm; reflexivity.
  - intros He0 Hmul. unfold calloc. rewrite Hmul.
    rewrite (wrap_small n) by lia.
    destruct (Z.eqb_spec elements 0); [lia|].
    assert (Hq : n / elements = size).
    { subst n. rewrite Z.mul_comm. apply Z.div_mul. lia. }
    rewrite Hq, Z.eqb_refl. simpl. rewrite Hm. reflexivity.
Qed.

Lemma extension_failure_keeps_state_witness :
  (heap_start full_arena <> NULL /\ 0 < 4000 < word_max /\
   find_fit full_arena (malloc_asize 4000) = Some NULL /\
   mem_sbrk full_arena
            (to_signed (round_up (max (malloc_asize 4000) chunksize) dsize))
   = None) /\
  malloc 0 full_arena 4000 = Some (full_arena, NULL) /\
  realloc 0 full_arena 4112 4000 = Some (full_arena, NULL) /\
  (0 < 4 -> 4 * 1000 = 4000 ->
   calloc 0 full_arena 4 1000 = Some (full_arena, NULL)).
Proof.
  assert (H1 : heap_start full_arena <> NULL) by (vm_compute; congruence).
  assert (H2 : 0 < 4000 < word_max) by (vm_compute; split; congruence).
  assert (H3 : find_fit full_arena (malloc_asize 4000) = Some NULL)
    by (vm_compute; reflexivity).
  assert (H4 : mem_sbrk full_arena
                 (to_signed (round_up (max (malloc_asize 4000) chunksize)
                                      dsize)) = None)
    by (vm_compute; reflexivity).
  split; [auto|].
  pose proof (extension_failure_keeps_state 0 full_arena 4000 4112 4 1000
                H1 H2 H3 H4) as (_ & A & B & C).
  auto.
Defined.

(** C7.  [free(NULL)] changes nothing, [realloc(NULL, n)] is [malloc(n)]
    (same result and same final state), and [realloc(p, 0)] is [free(p)]
    followed by returning [NULL].  The allocator is initialised, as the
    interface requires before any other call; the hypothesis is only used
    for [n = 0], where [malloc] would run [mm_init] first. *)
Theorem realloc_degenerate_cases (fuel : nat) (s : state) (p n : Z) :
  heap_start s <> NULL ->
  free fuel s NULL = Some s /\
  realloc fuel s NULL n = malloc fuel s n /\
  realloc fuel s p 0 =
    match free fuel s p with Some s' => Some (s', NULL) | None => None end.
Proof.
  intros Hinit. split; [reflexivity | split; [|reflexivity]].
  unfold realloc. destruct (Z.eqb_spec n 0) as [-> | Hn].
  - rewrite malloc_initialized by exact Hinit. reflexivity.
  - reflexivity.
Qed.

Lemma realloc_degenerate_cases_witness :
  heap_start seeded_arena <> NULL /\
  free 0 seeded_arena NULL = Some seeded_arena /\
  realloc 0 seeded_arena NULL 0 = malloc 0 seeded_arena 0 /\
  realloc 0 seeded_arena 4112 0 =
    match free 0 seeded_arena 4112 with
    | Some s' => Some (s', NULL)
    | None => None
    end.
Proof.
  assert (H1 : heap_start seeded_arena <> NULL) by (vm_compute; congruence).
  split; [exact H1|].
  exact (realloc_degenerate_cases 0 seeded_arena 4112 0 H1).
Defined.

(** C8.  [calloc] does not return a zeroed region for every request that
    passes its overflow test: for one element of [2^64 - 1] bytes the
    product does not overflow, [malloc] wraps the adjusted size to 16 and
    returns a block of 16 bytes, and zeroing [2^64 - 1] bytes from its
    payload on leaves the block, the heap and the arena. *)
Theorem calloc_overruns_short_block :
  let n := word_max - 1 in
  wrap (1 * n) / 1 = n /\
  (exists s1 bp,
      malloc 0 seeded_arena n = Some (s1, bp) /\
      bp <> NULL /\
      get_size s1 (payload_to_header bp) = 16 /\
      mem_heap_hi s1 < bp + n - 1 /\
      memset s1 bp 0 n = None) /\
  calloc 0 seeded_arena 1 n = None.
Proof.
  cbv zeta. split; [reflexivity | split].
  - assert (H : match malloc 0 seeded_arena (word_max - 1) with
                | Some (s1, bp) =>
                    negb (bp =? NULL)
                    && (get_size s1 (payload_to_header bp) =? 16)
                    && (mem_heap_hi s1 <? bp + (word_max - 1) - 1)
                    && negb (is_some (memset s1 bp 0 (word_max - 1)))
                | None => false
                end = true) by (vm_compute; reflexivity).
    destruct (malloc 0 seeded_arena (word_max - 1)) as [[s1 bp]|];
      [|discriminate H].
    exists s1, bp.
    apply andb_prop in H. destruct H as [H H4].
    apply andb_prop in H. destruct H as [H H3].
    apply andb_prop in H. destruct H as [H1 H2].
    split; [reflexivity|].
    split; [intros ->; discriminate H1|].
    split; [apply Z.eqb_eq, H2|].
    split; [apply Z.ltb_lt, H3|].
    destruct (memset s1 bp 0 (word_max - 1)); [discriminate H4 | reflexivity].
  - assert (H : is_some (calloc 0 seeded_arena 1 (word_max - 1)) = false)
      by (vm_compute; reflexivity).
    destruct (calloc 0 seeded_arena 1 (word_max - 1));
      [discriminate H | reflexivity].
Qed.

(** C10.  A request of more than [2^64 - 9] bytes makes the adjusted size
    wrap around to at most 16 (exactly 16 for [2^64 - 1]); nothing in
    [malloc] rejects it, and on a freshly seeded heap the call returns a
    payload whose block is smaller than the request. *)
Theorem malloc_asize_wraps (n : Z) :
  word_max - 9 < n < word_max ->
  malloc_asize n <= 16 /\
  malloc_asize n < n /\
  (n = word_max - 1 -> malloc_asize n = 16) /\
  exists s s' p,
    heap_start s <> NULL /\
    malloc 0 s n = Some (s', p) /\
    p <> NULL /\
    get_size s' (payload_to_header p) < n.
Proof.
  intros Hn.
  assert (Hrun : exists p sz, malloc_probe 0 seeded_arena n = Some (p, sz)
                              /\ p <> NULL /\ sz < n /\ malloc_asize n <= 16
                              /\ malloc_asize n < n).
  { assert (n = word_max - 8 \/ n = word_max - 7 \/ n = word_max - 6 \/
            n = word_max - 5 \/ n = word_max - 4 \/ n = word_max - 3 \/
            n = word_max - 2 \/ n = word_max - 1) as Hc by lia.
    repeat (destruct Hc as [-> | Hc]); [..|subst n];
      eexists; eexists;
      (split; [vm_compute; reflexivity|]);
      (split; [vm_compute; congruence|]);
      (split; [vm_compute; reflexivity|]);
      (split; [vm_compute; congruence|]);
      vm_compute; reflexivity. }
  destruct Hrun as (p & sz & Hrun & Hp & Hsz & Ha1 & Ha2).
  split; [exact Ha1 | split; [exact Ha2 | split; [intros ->; reflexivity|]]].
  unfold malloc_probe in Hrun.
  destruct (malloc 0 seeded_arena n) as [[s' q]|] eqn:E; [|discriminate].
  injection Hrun as -> <-.
  exists seeded_arena, s', p.
  split; [vm_compute; congruence|]. auto.
Qed.

Lemma malloc_asize_wraps_witness :
  word_max - 9 < word_max - 1 < word_max /\
  malloc_asize (word_max - 1) <= 16 /\
  malloc_asize (word_max - 1) < word_max - 1.
Proof.
  assert (H : word_max - 9 < word_max - 1 < word_max)
    by (vm_compute; split; reflexivity).
  split; [exact H|].
  pose proof (malloc_asize_wraps (word_max - 1) H) as (A & B & _).
  auto.
Defined.

(** ** Header words written by the program *)

Section HeaderWrites.
Variables (s : state) (b size : Z) (a pa pm : bool).
Hypothesis size_aligned : size mod 16 = 0.
Hypothesis size_range : 0 <= size < word_max.

Let w := pack size a pa pm.

Lemma wrap_pack : wrap w = w.
Proof. apply wrap_small, pack_range; assumption. Qed.

Lemma read_header_written : read_word (write_word s b w) b = w.
Proof. rewrite read_write_same by reflexivity. apply wrap_pack. Qed.

Lemma get_size_written : get_size (write_word s b w) b = size.
Proof.
  unfold get_size. rewrite read_header_written.
  apply extract_size_pack; assumption.
Qed.

Lemma write_block_eq :
  write_block s b size a pa pm =
  if negb a && (size >? min_block_size)
  then write_word (write_word s b w) (b + size - 8) w
  else write_word s b w.
Proof.
  unfold write_block. fold w. cbv zeta.
  destruct (negb a && (size >? min_block_size)); [|reflexivity].
  unfold header_to_footer. rewrite get_size_written.
  unfold off_payload, dsize, wsize. f_equal. lia.
Qed.

Lemma read_write_block_header :
  read_word (write_block s b size a pa pm) b = w.
Proof.
  rewrite write_block_eq.
  destruct (negb a && (size >? min_block_size)) eqn:E.
  - apply andb_true_iff in E. destruct E as [_ E].
    unfold min_block_size, dsize, wsize in E. simpl in E.
    apply Z.gtb_lt in E.
    rewrite read_write_other by mlia. apply read_header_written.
  - apply read_header_written.
Qed.

Lemma read_write_block_other (x : Z) :
  x + 8 <= b \/ b + size <= x \/ (b + 8 <= x /\ x + 8 <= b + size - 8) ->
  x + 8 <= b \/ b + 8 <= x ->
  read_word (write_block s b size a pa pm) x = read_word s x.
Proof.
  intros Hx Hx'. rewrite write_block_eq.
  destruct (negb a && (size >? min_block_size)) eqn:E.
  - apply andb_true_iff in E. destruct E as [_ E].
    unfold min_block_size, dsize, wsize in E. simpl in E.
    apply Z.gtb_lt in E.
    rewrite !read_write_other by lia. reflexivity.
  - rewrite read_write_other by lia. reflexivity.
Qed.

Lemma list_head_write_block (i : Z) :
  list_head (write_block s b size a pa pm) i = list_head s i.
Proof.
  rewrite write_block_eq. destruct (negb a && _); reflexivity.
Qed.

Lemma lists_write_block :
  segregated_free_list (write_block s b size a pa pm) =
  segregated_free_list s.
Proof.
  rewrite write_block_eq. destruct (negb a && _); reflexivity.
Qed.
End HeaderWrites.

Lemma fields_of_pack (size : Z) (a pa pm : bool) (w : Z) :
  size mod 16 = 0 -> 0 <= size < word_max -> w = pack size a pa pm ->
  extract_size w = size /\ extract_alloc w = a /\
  extract_prev_alloc w = pa /\ extract_prev_mini w = pm.
Proof.
  intros Hm Hr ->.
  rewrite extract_size_pack, extract_alloc_pack, extract_prev_alloc_pack,
    extract_prev_mini_pack by assumption.
  auto.
Qed.

(** ** List heads *)

Lemma ptr_ok_null : ptr_ok NULL.
Proof. left. reflexivity. Qed.

Lemma ptr_ok_wrap (v : Z) : ptr_ok v -> ptr_ok (wrap v).
Proof.
  intros [-> | H]; [left; reflexivity | right].
  rewrite wrap_mod16. exact H.
Qed.

Lemma heads_ok_list_head (s : state) (i : Z) :
  heads_ok s -> ptr_ok (list_head s i).
Proof.
  unfold heads_ok, list_head. intros H.
  destruct (nth_in_or_default (Z.to_nat i) (segregated_free_list s) NULL)
    as [Hin | ->]; [|apply ptr_ok_null].
  rewrite Forall_forall in H. apply H, Hin.
Qed.

Lemma Forall_list_update (P : Z -> Prop) (l : list Z) (k : nat) (v : Z) :
  Forall P l -> P v -> Forall P (list_update l k v).
Proof.
  intros Hl Hv. revert k. induction Hl as [|h t Hh Ht IH]; intros k; simpl.
  - constructor.
  - destruct k; constructor; auto.
Qed.

Lemma heads_ok_set_list_head (s : state) (i v : Z) :
  heads_ok s -> ptr_ok v -> heads_ok (set_list_head s i v).
Proof. unfold heads_ok. simpl. apply Forall_list_update. Qed.

Lemma heads_ok_write_word (s : state) (a v : Z) :
  heads_ok s -> heads_ok (write_word s a v).
Proof. exact (fun H => H). Qed.

Lemma heads_ok_write_block s b size a pa pm :
  heads_ok s -> heads_ok (write_block s b size a pa pm).
Proof.
  unfold write_block. cbv zeta. destruct (negb a && _); exact (fun H => H).
Qed.

Lemma nth_list_update_same (l : list Z) (k : nat) (v d : Z) :
  (k < length l)%nat -> nth k (list_update l k v) d = v.
Proof.
  revert k. induction l as [|h t IH]; intros k Hk; simpl in *; [lia|].
  destruct k; simpl; [reflexivity | apply IH; lia].
Qed.

Lemma list_update_restore (l : list Z) (k : nat) (v d : Z) :
  list_update (list_update l k v) k (nth k l d) = l.
Proof.
  revert k. induction l as [|h t IH]; intros k; simpl; [reflexivity|].
  destruct k; simpl; [reflexivity | rewrite IH; reflexivity].
Qed.

Lemma list_head_set_same (s : state) (i v : Z) :
  0 <= i < Z.of_nat (length (segregated_free_list s)) ->
  list_head (set_list_head s i v) i = v.
Proof.
  intros Hi. unfold list_head, set_list_head. simpl.
  apply nth_list_update_same. lia.
Qed.

Lemma list_head_set_other (s : state) (i v j : Z) :
  0 <= i -> 0 <= j -> i <> j ->
  list_head (set_list_head s i v) j = list_head s j.
Proof.
  intros Hi Hj Hij. unfold list_head, set_list_head. simpl.
  apply nth_list_update_other. lia.
Qed.

Lemma get_list_index_range (size : Z) : 0 <= get_list_index size <= 14.
Proof. unfold get_list_index. split_ifs; lia. Qed.

(** ** Insertion leaves header words alone *)

Lemma insert_preserves_header (s : state) (r x : Z) :
  heads_ok s -> r mod 16 = 8 -> x mod 16 = 8 ->
  get_size s r = 16 \/ x <> r + 16 ->
  read_word (insert_normal_or_mini s r) x = read_word s x.
Proof.
  intros Hh Hr Hx Hc.
  unfold insert_normal_or_mini, min_block_size, dsize, wsize. simpl (2 * 8).
  destruct (Z.eqb_spec (get_size s r) 16) as [E | E].
  - unfold insert_to_mini_free_list, off_next_mini.
    destruct (r =? NULL); [reflexivity|].
    destruct (list_head s 0 =? NULL); simpl;
      rewrite ?read_set_list_head, read_write_other by mlia; reflexivity.
  - destruct Hc as [Hc | Hc]; [contradiction|].
    unfold insert_to_free_list, off_prev, off_next.
    destruct (r =? NULL); [reflexivity|].
    set (seg := get_list_index (get_size s r)).
    pose proof (heads_ok_list_head s seg Hh) as Hp.
    destruct (Z.eqb_spec (list_head s seg) NULL) as [E0 | E0].
    + rewrite !read_write_other by mlia. reflexivity.
    + destruct Hp as [Hp | Hp]; [contradiction|].
      rewrite read_set_list_head.
      rewrite !read_write_other by mlia. reflexivity.
Qed.

Lemma heads_ok_insert (s : state) (r : Z) :
  heads_ok s -> r mod 16 = 8 -> heads_ok (insert_normal_or_mini s r).
Proof.
  intros Hh Hr.
  assert (ptr_ok r) by (right; exact Hr).
  unfold insert_normal_or_mini, insert_to_mini_free_list, insert_to_free_list.
  repeat match goal with
         | |- heads_ok (if ?c then _ else _) => destruct c
         | |- heads_ok (let _ := _ in _) => cbv zeta
         end;
    repeat first [ assumption
                 | apply heads_ok_write_word
                 | apply heads_ok_set_list_head ].
Qed.

(** Discharges [heads_ok] on a closed state. *)
Ltac heads_ok_by_computation :=
  match goal with
  | |- heads_ok ?s =>
      unfold heads_ok;
      let l := eval vm_compute in (segregated_free_list s) in
      replace (segregated_free_list s) with l by (vm_compute; reflexivity);
      repeat constructor; first [left; reflexivity | right; reflexivity]
  end.

(** ** A block header followed by the header of its successor *)

Lemma header_then_successor (s : state) (b size size' : Z)
      (a pa pm a' pa' pm' : bool) :
  size mod 16 = 0 -> 0 <= size < word_max ->
  size' mod 16 = 0 -> 0 <= size' < word_max ->
  (size = 0 -> size' = 0) ->
  let s1 := write_block s b size a pa pm in
  let s2 := write_word s1 (b + size) (pack size' a' pa' pm') in
  get_size s2 b = size /\
  get_prev_alloc s2 (b + size) = pa' /\
  get_prev_mini s2 (b + size) = pm' /\
  get_size s2 (b + size) = size' /\
  get_alloc s2 (b + size) = a'.
Proof.
  intros Hm Hr Hm' Hr' H0 s1 s2.
  assert (Hnext : read_word s2 (b + size) = pack size' a' pa' pm').
  { unfold s2. apply read_header_written; assumption. }
  destruct (fields_of_pack size' a' pa' pm' _ Hm' Hr' Hnext)
    as (F1 & F2 & F3 & F4).
  unfold get_size, get_prev_alloc, get_prev_mini, get_alloc.
  repeat split; try assumption.
  destruct (Z.eq_dec size 0) as [E | E].
  - rewrite E in *. rewrite Z.add_0_r in *. rewrite F1. auto.
  - assert (16 <= size) by mlia.
    unfold s2. rewrite read_write_other by lia.
    unfold s1. rewrite read_write_block_header by assumption.
    apply extract_size_pack; assumption.
Qed.

Lemma find_next_write_block s b size a pa pm :
  size mod 16 = 0 -> 0 <= size < word_max ->
  find_next (write_block s b size a pa pm) b = b + size.
Proof.
  intros Hm Hr. unfold find_next, get_size.
  rewrite read_write_block_header by assumption.
  rewrite extract_size_pack by assumption. reflexivity.
Qed.

Lemma mark_allocated_flags (s : state) (b : Z) :
  let s' := mark_allocated s b in
  get_size s' b = get_size s b /\
  get_prev_alloc s' (b + get_size s b) = true /\
  get_prev_mini s' (b + get_size s b) = (get_size s b =? 16).
Proof.
  pose proof (get_size_mod16 s b) as Hm.
  pose proof (get_size_range s b) as Hr.
  unfold mark_allocated, update_block. cbv zeta.
  rewrite find_next_write_block by assumption.
  set (s1 := write_block s b (get_size s b) true _ _).
  edestruct (header_then_successor s b (get_size s b) (get_size s1 (b + get_size s b)))
    as (H1 & H2 & H3 & _); eauto using get_size_mod16, get_size_range.
  intros E. rewrite E, Z.add_0_r. unfold s1, get_size at 1.
  rewrite read_write_block_header by assumption.
  rewrite extract_size_pack by assumption. exact E.
Qed.

Lemma mark_free_flags (s : state) (b : Z) :
  let s' := mark_free s b in
  get_size s' b = get_size s b /\
  get_prev_alloc s' (b + get_size s b) = false /\
  get_prev_mini s' (b + get_size s b) = (get_size s b =? 16).
Proof.
  pose proof (get_size_mod16 s b) as Hm.
  pose proof (get_size_range s b) as Hr.
  unfold mark_free, update_block. cbv zeta.
  rewrite find_next_write_block by assumption.
  set (s1 := write_block s b (get_size s b) false _ _).
  edestruct (header_then_successor s b (get_size s b) (get_size s1 (b + get_size s b)))
    as (H1 & H2 & H3 & _); eauto using get_size_mod16, get_size_range.
  intros E. rewrite E, Z.add_0_r. unfold s1, get_size at 1.
  rewrite read_write_block_header by assumption.
  rewrite extract_size_pack by assumption. exact E.
Qed.

Lemma extend_heap_init_flags (s : state) (bp size : Z) :
  size mod 16 = 0 -> 0 <= size < word_max ->
  let b := payload_to_header bp in
  let s' := extend_heap_init s bp size in
  get_size s' b = size /\
  get_prev_alloc s' (b + size) = false /\
  get_prev_mini s' (b + size) = (size =? 16).
Proof.
  intros Hm Hr. unfold extend_heap_init, write_epilogue. cbv zeta.
  rewrite find_next_write_block by assumption.
  edestruct (header_then_successor s (payload_to_header bp) size 0)
    as (H1 & H2 & H3 & _); eauto; try reflexivity.
  unfold word_max. lia.
Qed.

(** ** Splitting *)

Lemma split_block_flags (s : state) (b asize : Z) :
  heads_ok s -> b mod 16 = 8 ->
  asize mod 16 = 0 -> 16 <= asize -> asize + 16 <= get_size s b ->
  let s' := split_block s b asize in
  let rest := get_size s b - asize in
  get_size s' b = asize /\
  get_size s' (b + asize) = rest /\
  get_prev_mini s' (b + asize) = (asize =? 16) /\
  get_prev_mini s' (b + asize + rest) = (rest =? 16).
Proof.
  intros Hh Hb Ha Ha16 Hfit.
  pose proof (get_size_mod16 s b) as Hm.
  pose proof (get_size_range s b) as Hr.
  set (bs := get_size s b) in *.
  assert (Hw : wrap (bs - asize) = bs - asize) by (apply wrap_small; lia).
  assert (Hrm : (bs - asize) mod 16 = 0) by mlia.
  unfold split_block. fold bs. rewrite Hw. cbv zeta.
  unfold min_block_size, dsize, wsize. simpl (2 * 8).
  destruct (Z.geb_spec (bs - asize) 16) as [_|]; [|lia].
  rewrite find_next_write_block by (auto; lia).
  set (s1 := write_block s b asize true _ _).
  rewrite find_next_write_block by (auto; lia).
  set (s2 := write_block s1 (b + asize) (bs - asize) false true _).
  unfold update_block.
  set (s3 := write_word s2 _ _).
  pose proof (header_then_successor s1 (b + asize) (bs - asize)
                (get_size s2 (b + asize + (bs - asize)))
                false true (asize =? 16)
                (get_alloc s2 (b + asize + (bs - asize))) false
                (bs - asize =? 16) Hrm ltac:(lia)
                (get_size_mod16 _ _) (get_size_range _ _) ltac:(lia))
    as (H1 & _ & H3 & _).
  cbv iota in s2, s3. fold s2 in H1, H3. fold s3 in H1, H3.
  assert (Hh3 : heads_ok s3).
  { unfold s3. apply heads_ok_write_word. unfold s2.
    apply heads_ok_write_block. unfold s1. apply heads_ok_write_block, Hh. }
  assert (Hb3 : read_word s3 b = pack asize true (get_prev_alloc s b) (get_prev_mini s b)).
  { unfold s3. rewrite read_write_other by lia.
    unfold s2. rewrite read_write_block_other by lia.
    unfold s1. apply read_write_block_header; auto; lia. }
  assert (Hr3 : read_word s3 (b + asize) =
                pack (bs - asize) false true
                     (if true then asize =? 16 else false)).
  { unfold s3. rewrite read_write_other by lia.
    unfold s2. apply read_write_block_header; auto; lia. }
  unfold get_size, get_prev_mini in *.
  rewrite !insert_preserves_header; auto; try mlia.
  - rewrite Hb3, Hr3, H3.
    rewrite !extract_size_pack, extract_prev_mini_pack by (auto; lia).
    auto.
  - destruct (Z.eq_dec (bs - asize) 16) as [E|E]; [left | right; lia].
    unfold get_size. rewrite Hr3, extract_size_pack by (auto; lia). exact E.
Qed.

(** ** The [prev_mini] flag at the sites that compute it *)

(** C2.  Wherever the program computes the [prev_mini] flag of a physical
    successor with [true ? size == min_block_size : false] (the conditional
    parses as [true ? (size == min_block_size) : false], so its value is the
    comparison), the flag read back from the successor equals "the block in
    front has size 16", for a block of every size: after [malloc] marks the
    fitted block allocated, after [free] marks the block free, in
    [split_block] for the remainder and for the remainder's successor, and
    in [extend_heap] for the new epilogue.  The block in front keeps its
    size at the first two sites and has the size written for it at the
    other two. *)
Theorem prev_mini_written_from_size :
  (forall (s : state) (block : Z),
      let s' := mark_allocated s block in
      get_size s' block = get_size s block /\
      get_prev_mini s' (find_next s' block) = (get_size s' block =? 16)) /\
  (forall (s : state) (block : Z),
      let s' := mark_free s block in
      get_size s' block = get_size s block /\
      get_prev_mini s' (find_next s' block) = (get_size s' block =? 16)) /\
  (forall (s : state) (block asize : Z),
      heads_ok s -> block mod 16 = 8 ->
      asize mod 16 = 0 -> 16 <= asize -> asize + 16 <= get_size s block ->
      let s' := split_block s block asize in
      let rest := find_next s' block in
      get_size s' block = asize /\
      get_size s' rest = get_size s block - asize /\
      get_prev_mini s' rest = (get_size s' block =? 16) /\
      get_prev_mini s' (find_next s' rest) = (get_size s' rest =? 16)) /\
  (forall (s : state) (bp size : Z),
      let s' := extend_heap_init s bp (round_up size dsize) in
      let b := payload_to_header bp in
      get_size s' b = round_up size dsize /\
      get_prev_mini s' (find_next s' b) = (get_size s' b =? 16)).
Proof.
  split; [|split; [|split]]; cbv zeta.
  - intros s block.
    destruct (mark_allocated_flags s block) as (H1 & _ & H3).
    unfold find_next. rewrite H1. auto.
  - intros s block.
    destruct (mark_free_flags s block) as (H1 & _ & H3).
    unfold find_next. rewrite H1. auto.
  - intros s block asize Hh Hb Ha Ha16 Hfit.
    destruct (split_block_flags s block asize Hh Hb Ha Ha16 Hfit)
      as (H1 & H2 & H3 & H4).
    unfold find_next. rewrite H1, H2. auto.
  - intros s bp size.
    destruct (extend_heap_init_flags s bp (round_up size dsize))
      as (H1 & _ & H3).
    + apply round_up_16_mod.
    + apply round_up_16_range.
    + unfold find_next. rewrite H1. auto.
Qed.

Lemma prev_mini_written_from_size_witness :
  (heads_ok neighbours_free /\ 4104 mod 16 = 8 /\ 16 mod 16 = 0 /\
   16 <= 16 /\ 16 + 16 <= get_size neighbours_free 4104) /\
  (let s' := mark_allocated two_free_minis 4104 in
   get_size s' 4104 = 16 /\ get_prev_mini s' (find_next s' 4104) = true) /\
  (let s' := mark_free two_free_minis 4120 in
   get_size s' 4120 = 16 /\ get_prev_mini s' (find_next s' 4120) = true) /\
  (let s' := split_block neighbours_free 4104 16 in
   let rest := find_next s' 4104 in
   get_size s' 4104 = 16 /\ get_size s' rest = 16 /\
   get_prev_mini s' rest = true /\
   get_prev_mini s' (find_next s' rest) = true) /\
  (let s' := extend_heap_init seeded_arena 6160 (round_up 16 dsize) in
   get_size s' 6152 = 16 /\ get_prev_mini s' (find_next s' 6152) = true) /\
  (let s' := mark_free neighbours_free 4136 in
   get_size s' 4136 = 32 /\ get_prev_mini s' (find_next s' 4136) = false).
Proof.
  cbv zeta.
  assert (Hh : heads_ok neighbours_free) by heads_ok_by_computation.
  assert (Hfit : 16 + 16 <= get_size neighbours_free 4104)
    by (vm_compute; congruence).
  assert (E1 : get_size two_free_minis 4104 = 16) by (vm_compute; reflexivity).
  assert (E2 : get_size two_free_minis 4120 = 16) by (vm_compute; reflexivity).
  assert (E3 : get_size neighbours_free 4104 - 16 = 16)
    by (vm_compute; reflexivity).
  assert (E4 : round_up 16 dsize = 16) by reflexivity.
  assert (E5 : get_size neighbours_free 4136 = 32) by (vm_compute; reflexivity).
  destruct prev_mini_written_from_size as (A & B & C & D).
  split; [repeat split; auto; lia|].
  split; [|split; [|split; [|split]]].
  - destruct (A two_free_minis 4104) as [A1 A2]. cbv zeta in A1, A2.
    rewrite A2, A1, E1. auto.
  - destruct (B two_free_minis 4120) as [B1 B2]. cbv zeta in B1, B2.
    rewrite B2, B1, E2. auto.
  - destruct (C neighbours_free 4104 16 Hh eq_refl eq_refl ltac:(lia) Hfit)
      as (C1 & C2 & C3 & C4). cbv zeta in C1, C2, C3, C4.
    rewrite C4, C3, C2, C1, E3. auto.
  - destruct (D seeded_arena 6160 16) as [D1 D2]. cbv zeta in D1, D2.
    change (payload_to_header 6160) with 6152 in D1, D2.
    rewrite D2, D1, E4. auto.
  - destruct (B neighbours_free 4136) as [B1 B2]. cbv zeta in B1, B2.
    rewrite B2, B1, E5. auto.
Defined.

(** ** Coalescing a block that was just freed *)

Lemma just_freed_flags (s : state) (b : Z) :
  just_freed s b ->
  get_prev_alloc s (find_next s b) = false /\
  get_prev_mini s (find_next s b) = (get_size s b =? 16).
Proof.
  intros [s0 bp _ | s0 size s1 bp _]; unfold find_next.
  - destruct (mark_free_flags s0 (payload_to_header bp)) as (H1 & H2 & H3).
    rewrite H1. auto.
  - destruct (extend_heap_init_flags s1 bp (round_up size dsize)
                (round_up_16_mod _) (round_up_16_range _)) as (H1 & H2 & H3).
    rewrite H1. auto.
Qed.

Lemma find_prev_aligned (s : state) (b : Z) :
  b mod 16 = 8 -> find_prev s b <> NULL -> find_prev s b mod 16 = 8.
Proof.
  unfold find_prev, find_header, find_prev_footer, footer_to_header,
    min_block_size, dsize, wsize, NULL.
  intros Hb. destruct (get_prev_mini s b); [intros _; mlia|].
  destruct (_ =? 0); [congruence|]. intros _.
  pose proof (extract_size_mod16 (read_word s (b - 8))). mlia.
Qed.

(** ** Taking a free block off its list *)

Lemma on_mini_list_more (s : state) (block : Z) (n : nat) :
  forall p, on_mini_list n s p block -> on_mini_list (S n) s p block.
Proof.
  induction n as [|n IH]; intros p H; [contradiction|].
  destruct H as (H1 & H2 & H3 & [H4 | H4]).
  - split; [exact H1 | split; [exact H2 | split; [exact H3 | left; exact H4]]].
  - split; [exact H1 | split; [exact H2 | split; [exact H3 | right]]].
    apply IH, H4.
Qed.

Lemma mini_reach_more (s : state) (block : Z) (n : nat) :
  forall p, mini_reach n s p block -> mini_reach (S n) s p block.
Proof.
  induction n as [|n IH]; intros p H; [contradiction|].
  destruct H as [H | [H1 H2]]; [left; exact H | right].
  split; [exact H1 | apply IH, H2].
Qed.

Lemma on_mini_list_target (s : state) (block : Z) (n : nat) :
  forall p,
    on_mini_list n s p block ->
    block mod 16 = 8 /\ get_size s block = min_block_size /\
    ptr_ok (read_word s (block + off_next_mini)).
Proof.
  induction n as [|n IH]; intros p H; [contradiction|].
  destruct H as (H1 & H2 & H3 & [<- | H4]); [auto | eapply IH, H4].
Qed.

Lemma on_mini_list_start (s : state) (block p : Z) (n : nat) :
  on_mini_list n s p block ->
  p mod 16 = 8 /\ get_size s p = min_block_size.
Proof.
  destruct n; [contradiction|]. intros (H1 & H2 & _). auto.
Qed.

Lemma on_mini_list_reach (s : state) (block : Z) (n : nat) :
  forall p, on_mini_list n s p block -> mini_reach n s p block.
Proof.
  induction n as [|n IH]; intros p H; [contradiction|].
  destruct H as (H1 & H2 & H3 & [H4 | H4]); [left; exact H4 | right].
  split; [unfold NULL; intros ->; discriminate H1 | apply IH, H4].
Qed.

(** The walk of [delete_from_mini_free_list] ends at the entry in front of
    [block]. *)
Lemma mini_walk_reach (s : state) (block : Z) (n : nat) :
  forall prev next,
    mini_reach n s next block ->
    exists a, mini_walk n s prev next block = Some a.
Proof.
  induction n as [|n IH]; intros prev next H; [contradiction|].
  simpl. destruct (Z.eqb_spec next block) as [E | E]; [eauto|].
  destruct H as [H | [H1 H2]]; [contradiction|].
  destruct (Z.eqb_spec next NULL); [contradiction|].
  apply IH, H2.
Qed.

Lemma mini_walk_more (s : state) (block a : Z) (n : nat) :
  forall prev next,
    mini_walk n s prev next block = Some a ->
    mini_walk (S n) s prev next block = Some a.
Proof.
  induction n as [|n IH]; intros prev next H; [discriminate|].
  simpl in H. cbn [mini_walk].
  destruct (next =? block); [exact H|].
  destruct (next =? NULL); [discriminate|].
  apply IH, H.
Qed.

(** The entry that the walk finds is the start or a mini block of the
    list, and its link leads to [block]. *)
Lemma mini_walk_on_list (s : state) (block a : Z) (n : nat) :
  forall prev next,
    prev mod 16 = 8 -> get_size s prev = min_block_size ->
    read_word s (prev + off_next_mini) = next ->
    on_mini_list n s next block ->
    mini_walk n s prev next block = Some a ->
    a mod 16 = 8 /\ get_size s a = min_block_size /\
    read_word s (a + off_next_mini) = block.
Proof.
  induction n as [|n IH]; intros prev next Hp Hs Hl H W; [contradiction|].
  simpl in W. destruct H as (H1 & H2 & H3 & H4).
  destruct (Z.eqb_spec next block) as [E | E].
  - injection W as <-. subst next. auto.
  - destruct (next =? NULL); [discriminate|].
    destruct H4 as [H4 | H4]; [contradiction|].
    eapply IH; [exact H1 | exact H2 | reflexivity | exact H4 | exact W].
Qed.

(** What [delete_from_mini_free_list] does to a block of the mini list. *)
Lemma delete_mini_shape (fuel : nat) (s : state) (block : Z) :
  on_mini_list fuel s (list_head s 0) block ->
  (list_head s 0 = block /\
   delete_from_mini_free_list fuel s block
   = Some (set_list_head s 0 (read_word s (block + off_next_mini)))) \/
  (list_head s 0 <> block /\
   exists a,
     a mod 16 = 8 /\ get_size s a = min_block_size /\
     read_word s (a + off_next_mini) = block /\
     delete_from_mini_free_list fuel s block
     = Some (write_word s (a + off_next_mini)
                        (read_word s (block + off_next_mini)))).
Proof.
  intros H. unfold delete_from_mini_free_list.
  destruct (on_mini_list_target _ _ _ _ H) as (Hb & _).
  destruct (on_mini_list_start _ _ _ _ H) as (Hh & Hhs).
  destruct (Z.eqb_spec block NULL) as [E | _];
    [rewrite E in Hb; discriminate Hb|].
  destruct (Z.eqb_spec (list_head s 0) NULL) as [E | _];
    [rewrite E in Hh; discriminate Hh|].
  destruct (Z.eqb_spec (list_head s 0) block) as [E | E]; [left; auto|].
  right. split; [exact E|].
  destruct fuel as [|fuel]; [contradiction|].
  destruct H as (_ & _ & _ & [H | H]); [contradiction|].
  destruct (mini_walk_reach s block fuel (list_head s 0) _
              (on_mini_list_reach _ _ _ _ H)) as [a W].
  exists a.
  destruct (mini_walk_on_list s block a fuel _ _ Hh Hhs eq_refl H W)
    as (A1 & A2 & A3).
  rewrite (mini_walk_more _ _ _ _ _ _ W). auto.
Qed.

(** What [delete_from_free_list] does to a block of a doubly linked list. *)
Lemma delete_normal_shape (s : state) (block : Z) :
  block <> NULL ->
  on_free_list s block ->
  let seg := get_list_index (get_size s block) in
  let prev := read_word s (block + off_prev) in
  let next := read_word s (block + off_next) in
  (list_head s seg = block /\
   delete_from_free_list s block
   = Some (if next =? NULL then set_list_head s seg next
           else write_word (set_list_head s seg next)
                           (next + off_prev) NULL)) \/
  (list_head s seg <> block /\ prev <> NULL /\
   read_word s (prev + off_next) = block /\
   delete_from_free_list s block
   = Some (if next =? NULL then write_word s (prev + off_next) next
           else write_word (write_word s (prev + off_next) next)
                           (next + off_prev) prev)).
Proof.
  intros Hb (H1 & H2 & H3 & H4). cbv zeta. unfold delete_from_free_list.
  destruct (Z.eqb_spec block NULL); [contradiction|].
  destruct (Z.eqb_spec (list_head s (get_list_index (get_size s block)))
                       block) as [E | E].
  - left. split; [exact E|].
    destruct (read_word s (block + off_next) =? NULL); reflexivity.
  - right. destruct H3 as [H3 | [H3 H3']]; [contradiction|].
    split; [exact E | split; [exact H3 | split; [exact H3'|]]].
    destruct (Z.eqb_spec (read_word s (block + off_prev)) NULL);
      [contradiction|].
    destruct (read_word s (block + off_next) =? NULL); reflexivity.
Qed.

Lemma length_list_update (l : list Z) (k : nat) (v : Z) :
  length (list_update l k v) = length l.
Proof.
  revert k. induction l as [|h t IH]; intros k; [reflexivity|].
  destruct k; simpl; [reflexivity | rewrite IH; reflexivity].
Qed.

Lemma length_set_list_head (s : state) (i v : Z) :
  length (segregated_free_list (set_list_head s i v))
  = length (segregated_free_list s).
Proof. apply length_list_update. Qed.

Lemma listed_deletable (fuel : nat) (s : state) (block : Z) :
  listed fuel s block -> deletable fuel s block.
Proof.
  unfold listed, deletable.
  destruct (get_size s block =? min_block_size).
  - intros H. split; [apply on_mini_list_reach, H|].
    eapply on_mini_list_target, H.
  - intros (H1 & H2 & [H3 | [H3 _]] & _); auto.
Qed.

(** A deletable block is taken off its list, and the list heads stay block
    pointers. *)
Lemma delete_deletable (fuel : nat) (s : state) (block : Z) :
  block <> NULL -> heads_ok s -> deletable fuel s block ->
  exists s1,
    delete_normal_or_mini fuel s block = Some s1 /\
    heads_ok s1 /\
    length (segregated_free_list s1) = length (segregated_free_list s).
Proof.
  intros Hb Hh. unfold deletable, delete_normal_or_mini.
  destruct (get_size s block =? min_block_size).
  - intros [Hr Hl]. unfold delete_from_mini_free_list.
    destruct (Z.eqb_spec block NULL); [contradiction|].
    destruct (Z.eqb_spec (list_head s 0) NULL); [eauto|].
    destruct (Z.eqb_spec (list_head s 0) block) as [E | E].
    + eexists. split; [reflexivity|].
      split; [apply heads_ok_set_list_head; assumption|].
      apply length_set_list_head.
    + destruct fuel as [|fuel]; [contradiction|].
      destruct Hr as [Hr | [_ Hr]]; [contradiction|].
      destruct (mini_walk_reach s block fuel (list_head s 0) _ Hr) as [a W].
      rewrite (mini_walk_more _ _ _ _ _ _ W).
      eexists. split; [reflexivity|].
      split; [apply heads_ok_write_word, Hh | reflexivity].
  - intros [Hn Hp]. unfold delete_from_free_list.
    destruct (Z.eqb_spec block NULL); [contradiction|].
    destruct (Z.eqb_spec (list_head s (get_list_index (get_size s block)))
                         block) as [E | E].
    + destruct (read_word s (block + off_next) =? NULL); simpl;
        eexists; (split; [reflexivity|]);
        (split; [|first [apply length_set_list_head
                        | exact (length_set_list_head _ _ _)]]);
        repeat first [ assumption | apply heads_ok_write_word
                     | apply heads_ok_set_list_head ].
    + destruct Hp as [Hp | Hp]; [contradiction|].
      destruct (Z.eqb_spec (read_word s (block + off_prev)) NULL);
        [contradiction|].
      destruct (read_word s (block + off_next) =? NULL); simpl;
        eexists; (split; [reflexivity|]);
        (split; [|reflexivity]);
        repeat first [ assumption | apply heads_ok_write_word ].
Qed.

(** The links of the mini blocks in front of [block] are all that a walk
    to [block] reads. *)
Lemma mini_reach_frame (s s1 : state) (block : Z) :
  (forall y,
      y mod 16 = 8 -> y <> block ->
      get_size s (read_word s (y + off_next_mini)) = min_block_size ->
      read_word s1 (y + off_next_mini) = read_word s (y + off_next_mini)) ->
  forall n p, on_mini_list n s p block -> mini_reach n s1 p block.
Proof.
  intros Hf. induction n as [|n IH]; intros p H; [contradiction|].
  destruct H as (H1 & H2 & H3 & H4).
  destruct (Z.eq_dec p block) as [E | E]; [left; exact E | right].
  destruct H4 as [H4 | H4]; [contradiction|].
  split; [unfold NULL; intros ->; discriminate H1|].
  rewrite Hf; [apply IH, H4 | exact H1 | exact E |].
  eapply on_mini_list_start, H4.
Qed.

(** Unlinking another mini block keeps [block] within reach. *)
Lemma mini_reach_unlink (s : state) (a other block : Z) :
  a mod 16 = 8 ->
  read_word s (a + off_next_mini) = other -> other <> block ->
  forall n p,
    on_mini_list n s p block ->
    mini_reach n (write_word s (a + off_next_mini)
                             (read_word s (other + off_next_mini))) p block.
Proof.
  intros Ha Hl Hne. unfold off_next_mini in *.
  induction n as [|n IH]; intros p H; [contradiction|].
  destruct H as (H1 & H2 & H3 & H4).
  destruct (Z.eq_dec p block) as [E | E]; [left; exact E | right].
  destruct H4 as [H4 | H4]; [contradiction|].
  split; [unfold NULL; intros ->; discriminate H1|].
  unfold off_next_mini.
  destruct (Z.eq_dec p a) as [-> | Hpa].
  - rewrite read_write_same by reflexivity.
    rewrite wrap_small by apply read_word_range.
    change (a + off_next_mini) with (a + 8) in H4.
    rewrite Hl in H4. destruct n as [|n]; [contradiction|].
    destruct H4 as (_ & _ & _ & [H4 | H4]); [contradiction|].
    apply IH. apply on_mini_list_more. exact H4.
  - rewrite read_write_other by mlia. apply IH, H4.
Qed.

Lemma extract_size_of_word (w : Z) :
  0 <= w < word_max -> extract_size w = w - w mod 16.
Proof.
  unfold word_max. intros Hw. rewrite extract_size_decompose.
  rewrite (Z.mod_small (w / 16)).
  - mlia.
  - change (2 ^ 64) with (16 * 2 ^ 60) in Hw. mlia.
Qed.

Lemma ptr_ok_aligned (v : Z) : ptr_ok v -> v <> NULL -> v mod 16 = 8.
Proof. intros [H | H] Hv; [contradiction | exact H]. Qed.

Lemma normal_class_not_mini (size : Z) :
  size <> min_block_size -> 16 <= size -> size mod 16 = 0 ->
  get_list_index size <> 0.
Proof.
  unfold min_block_size, dsize, wsize. simpl (2 * 8). intros H1 H2 H3.
  assert (32 <= size) by mlia.
  unfold get_list_index, s_list_mini, s_list_1, s_list_2, s_list_3, s_list_4,
    s_list_5, s_list_6, s_list_7, s_list_8, s_list_9, s_list_10, s_list_11,
    s_list_12, s_list_13.
  split_ifs; lia.
Qed.

(** ** Two deletions in a row

    In the fourth case of [coalesce_block] the successor [n] is taken off
    its list first and the predecessor [p] second.  The first deletion
    leaves the header of [p] alone and leaves [p] deletable. *)

Section SecondDeletion.

Variables (fuel : nat) (s : state) (p n : Z).
Hypothesis Hp : p mod 16 = 8.
Hypothesis Hn : n mod 16 = 8.
Hypothesis Hpos : 0 < p.
Hypothesis Hpsz : 16 <= get_size s p.
Hypothesis Hapart : p + get_size s p + 16 <= n.
Hypothesis Hlen :
  length (segregated_free_list s) = Z.to_nat SEG_LIST_NUM.
Hypothesis Hlp : listed fuel s p.

Lemma mini_head_deleted_first :
  on_mini_list fuel s (list_head s 0) n -> list_head s 0 = n ->
  let s1 := set_list_head s 0 (read_word s (n + off_next_mini)) in
  get_size s1 p = get_size s p /\ deletable fuel s1 p.
Proof.
  intros Hln Hhead s1. split; [reflexivity|].
  pose proof (get_size_range s p) as Hr.
  pose proof (get_size_mod16 s p) as Hm.
  unfold deletable, listed in *.
  change (get_size s1 p) with (get_size s p).
  destruct (Z.eqb_spec (get_size s p) min_block_size) as [E | E].
  - split; [|exact (proj2 (proj2 (on_mini_list_target _ _ _ _ Hlp)))].
    unfold s1. rewrite list_head_set_same
      by (rewrite Hlen; unfold SEG_LIST_NUM; lia).
    rewrite Hhead in Hlp. destruct fuel as [|f]; [contradiction|].
    destruct Hlp as (_ & _ & _ & [H | H]); [lia|].
    apply mini_reach_more.
    apply (mini_reach_frame s); [reflexivity | exact H].
  - destruct Hlp as (H1 & H2 & H3 & _).
    split; [exact H2|].
    unfold s1. rewrite list_head_set_other.
    + destruct H3 as [H3 | [H3 _]]; auto.
    + lia.
    + pose proof (get_list_index_range (get_size s p)). lia.
    + intros H0. symmetry in H0. revert H0.
      apply normal_class_not_mini; [exact E | exact Hpsz | exact Hm].
Qed.

Lemma mini_unlinked_first (a : Z) :
  on_mini_list fuel s (list_head s 0) n ->
  a mod 16 = 8 -> get_size s a = min_block_size ->
  read_word s (a + off_next_mini) = n ->
  let s1 := write_word s (a + off_next_mini)
                       (read_word s (n + off_next_mini)) in
  get_size s1 p = get_size s p /\ deletable fuel s1 p.
Proof.
  intros Hln Ha Hsa Hl s1.
  pose proof (get_size_range s p) as Hr.
  assert (Hsz : get_size s1 p = get_size s p).
  { unfold s1, get_size, off_next_mini.
    rewrite read_write_other by mlia. reflexivity. }
  split; [exact Hsz|]. unfold deletable. rewrite Hsz.
  unfold listed in Hlp.
  destruct (Z.eqb_spec (get_size s p) min_block_size) as [E | E].
  - split.
    + change (list_head s1 0) with (list_head s 0). unfold s1.
      apply mini_reach_unlink; [exact Ha | exact Hl | lia | exact Hlp].
    + unfold s1, off_next_mini. destruct (Z.eq_dec a p) as [-> | Hap].
      * rewrite read_write_same by reflexivity. apply ptr_ok_wrap.
        exact (proj2 (proj2 (on_mini_list_target _ _ _ _ Hln))).
      * rewrite read_write_other by mlia.
        exact (proj2 (proj2 (on_mini_list_target _ _ _ _ Hlp))).
  - assert (Hap : a <> p) by congruence.
    destruct Hlp as (H1 & H2 & H3 & _). split.
    + unfold s1, off_next_mini, off_next.
      rewrite read_write_other by mlia. exact H2.
    + change (list_head s1) with (list_head s).
      destruct H3 as [H3 | [H3 _]]; [left; exact H3 | right].
      unfold s1, off_next_mini, off_prev.
      rewrite read_write_other by mlia. exact H3.
Qed.

Section NormalSuccessor.

Hypothesis Hln : on_free_list s n.
Hypothesis En : get_size s n <> min_block_size.
Hypothesis Hnsz : 16 <= get_size s n.

Let seg := get_list_index (get_size s n).
Let prev := read_word s (n + off_prev).
Let next := read_word s (n + off_next).

Lemma normal_successor_facts :
  seg <> 0 /\ 0 <= seg < 15 /\ p <> n /\
  (prev <> NULL -> prev mod 16 = 8) /\
  (next <> NULL -> next mod 16 = 8) /\
  (next <> NULL -> read_word s (next + 8) = n) /\
  (next <> NULL -> get_list_index (get_size s next) = seg) /\
  0 <= prev < word_max /\ 0 <= next < word_max.
Proof.
  destruct Hln as (N1 & N2 & N3 & N4).
  pose proof (get_size_range s p).
  pose proof (get_list_index_range (get_size s n)).
  split; [apply normal_class_not_mini; auto using get_size_mod16|].
  split; [unfold seg; lia|].
  split; [lia|].
  split; [apply ptr_ok_aligned, N1|].
  split; [apply ptr_ok_aligned, N2|].
  split; [intros Hx; apply (N4 Hx)|].
  split; [intros Hx; apply (N4 Hx)|].
  split; apply read_word_range.
Qed.

(** The mini blocks in front of a mini [p] keep their links when [n]
    leaves its list: the only link word of that parity that is written is
    the one of the successor of [n], which points back to [n] and so is not
    in front of [p] on the mini list. *)
Lemma normal_deletion_keeps_mini_links (s1 : state) :
  (forall x, x mod 16 = 0 -> x <> next + 8 ->
             read_word s1 x = read_word s x) ->
  forall y,
    y mod 16 = 8 -> y <> p ->
    get_size s (read_word s (y + off_next_mini)) = min_block_size ->
    read_word s1 (y + off_next_mini) = read_word s (y + off_next_mini).
Proof.
  intros Hf y Hy Hyp Hys. unfold off_next_mini in *.
  apply Hf; [mlia|]. intros Heq.
  assert (y = next) by lia. subst y.
  destruct normal_successor_facts as (_ & _ & _ & _ & _ & B & _).
  rewrite B in Hys; [contradiction|].
  intros Hx. rewrite Hx in Hy. discriminate Hy.
Qed.

(** Any state that differs from [s] as the deletion of [n] makes it
    differ: link words of the successor and of the predecessor of [n] on
    its list, and the head of that list. *)
Lemma normal_deleted_first (s1 : state) :
  (forall x, x mod 16 = 0 -> x <> next + 8 ->
             read_word s1 x = read_word s x) ->
  (next <> NULL ->
   (read_word s1 (next + 8) = NULL /\ list_head s1 seg = next) \/
   (read_word s1 (next + 8) = prev /\ prev <> NULL)) ->
  (forall x, x mod 16 = 8 ->
             (prev <> NULL -> read_word s (prev + 16) = n ->
              x <> prev + 16) ->
             read_word s1 x = read_word s x) ->
  (forall x, x mod 16 = 8 -> ptr_ok (read_word s x) ->
             ptr_ok (read_word s1 x)) ->
  (forall i, 0 <= i ->
             list_head s1 i = list_head s i \/
             (i = seg /\ list_head s seg = n)) ->
  get_size s1 p = get_size s p /\ deletable fuel s1 p.
Proof.
  intros K0 K0' K8 K8' KH.
  destruct normal_successor_facts
    as (Hseg & Hsegr & Hpn & Hpa & Hna & Hback & Hcls & Hpr & Hnr).
  pose proof (get_size_range s p) as Hr.
  pose proof (get_size_mod16 s p) as Hm.
  assert (Hsz : get_size s1 p = get_size s p).
  { unfold get_size. rewrite K8; [reflexivity | exact Hp|].
    intros Hx Hl Heq. rewrite Heq in Hapart, Hpos.
    unfold get_size in Hapart. rewrite Hl in Hapart.
    rewrite extract_size_of_word in Hapart
      by (rewrite <- Hl; apply read_word_range).
    clear - Hapart Hpr Hn. mlia. }
  split; [exact Hsz|]. unfold deletable. rewrite Hsz.
  unfold listed in Hlp.
  destruct (Z.eqb_spec (get_size s p) min_block_size) as [E | E].
  - assert (Hh0 : list_head s1 0 = list_head s 0).
    { destruct (KH 0 ltac:(lia)) as [H | [H _]]; [exact H | lia]. }
    split.
    + rewrite Hh0. apply (mini_reach_frame s); [|exact Hlp].
      apply normal_deletion_keeps_mini_links, K0.
    + unfold off_next_mini.
      pose proof (proj2 (proj2 (on_mini_list_target _ _ _ _ Hlp))) as Ht.
      unfold off_next_mini in Ht.
      destruct (Z.eq_dec p next) as [Epn | Epn].
      * assert (Hnn : next <> NULL) by (unfold NULL; lia).
        rewrite Epn.
        destruct (K0' Hnn) as [[-> _] | [-> _]];
          [apply ptr_ok_null | apply Hln].
      * rewrite K0 by mlia. exact Ht.
  - destruct Hlp as (P1 & P2 & P3 & _). split.
    + apply K8'; [unfold off_next; mlia | exact P2].
    + destruct (Z.eq_dec p next) as [Epn | Epn].
      * assert (Hnn : next <> NULL) by (unfold NULL; lia).
        destruct (K0' Hnn) as [[_ Hhd] | [Hrd Hpv]].
        -- left. rewrite Epn at 1. rewrite (Hcls Hnn). rewrite Hhd.
           symmetry. exact Epn.
        -- right. unfold off_prev. rewrite Epn, Hrd. exact Hpv.
      * assert (Hrd : read_word s1 (p + off_prev) = read_word s (p + off_prev)).
        { unfold off_prev. apply K0; mlia. }
        rewrite Hrd.
        pose proof (get_list_index_range (get_size s p)) as Hir.
        destruct (KH (get_list_index (get_size s p)) ltac:(lia))
          as [Hhd | [Hs Hhd]].
        -- rewrite Hhd. destruct P3 as [P3 | [P3 _]]; auto.
        -- right. destruct P3 as [P3 | [P3 _]]; [|exact P3].
           rewrite Hs, Hhd in P3. congruence.
Qed.

End NormalSuccessor.

Lemma deletable_after_delete (s1 : state) :
  listed fuel s n -> 16 <= get_size s n ->
  delete_normal_or_mini fuel s n = Some s1 ->
  get_size s1 p = get_size s p /\ deletable fuel s1 p.
Proof.
  intros Hl Hnsz D. unfold delete_normal_or_mini in D. unfold listed in Hl.
  destruct (Z.eqb_spec (get_size s n) min_block_size) as [E | E].
  - destruct (delete_mini_shape fuel s n Hl)
      as [[Hh Hd] | (Hh & a & A1 & A2 & A3 & Hd)];
      rewrite Hd in D; injection D as <-.
    + apply mini_head_deleted_first; assumption.
    + apply mini_unlinked_first; assumption.
  - assert (Hnn : n <> NULL) by (unfold NULL; intros ->; discriminate Hn).
    destruct (normal_successor_facts Hl E Hnsz)
      as (Hseg & Hsegr & Hpn & Hpa & Hna & Hback & Hcls & Hpr & Hnr).
    assert (Hsegl : 0 <= get_list_index (get_size s n)
                    < Z.of_nat (length (segregated_free_list s))).
    { rewrite Hlen. unfold SEG_LIST_NUM. lia. }
    destruct (delete_normal_shape s n Hnn Hl)
      as [[Hh Hd] | (Hh & Hpv & Hbk & Hd)];
      rewrite Hd in D; injection D as <-;
      apply normal_deleted_first; try assumption;
      unfold off_prev, off_next in *.
    + intros x Hx Hne.
      destruct (Z.eqb_spec (read_word s (n + 16)) NULL) as [E0 | E0];
        [reflexivity|].
      specialize (Hna E0). rewrite read_write_other by mlia. reflexivity.
    + intros E0. left.
      destruct (Z.eqb_spec (read_word s (n + 16)) NULL); [contradiction|].
      split; [rewrite read_write_same by reflexivity; reflexivity|].
      rewrite list_head_write_word. apply list_head_set_same. exact Hsegl.
    + intros x Hx _.
      destruct (Z.eqb_spec (read_word s (n + 16)) NULL) as [E0 | E0];
        [reflexivity|].
      specialize (Hna E0). rewrite read_write_other by mlia. reflexivity.
    + intros x Hx Hok.
      destruct (Z.eqb_spec (read_word s (n + 16)) NULL) as [E0 | E0];
        [exact Hok|].
      specialize (Hna E0). rewrite read_write_other by mlia. exact Hok.
    + intros i Hi.
      destruct (Z.eq_dec i (get_list_index (get_size s n))) as [Ei | Ei];
        [right; split; [exact Ei | exact Hh] | left].
      destruct (read_word s (n + 16) =? NULL);
        rewrite ?list_head_write_word; apply list_head_set_other; lia.
    + intros x Hx Hne. specialize (Hpa Hpv).
      destruct (Z.eqb_spec (read_word s (n + 16)) NULL) as [E0 | E0].
      * rewrite read_write_other by mlia. reflexivity.
      * specialize (Hna E0). rewrite !read_write_other by mlia. reflexivity.
    + intros E0. right. split; [|exact Hpv].
      destruct (Z.eqb_spec (read_word s (n + 16)) NULL); [contradiction|].
      rewrite read_write_same by reflexivity. apply wrap_small, Hpr.
    + intros x Hx Hne. specialize (Hne Hpv Hbk). specialize (Hpa Hpv).
      destruct (Z.eqb_spec (read_word s (n + 16)) NULL) as [E0 | E0].
      * rewrite read_write_other by mlia. reflexivity.
      * specialize (Hna E0). rewrite !read_write_other by mlia. reflexivity.
    + intros x Hx Hok. specialize (Hpa Hpv).
      assert (Hin : ptr_ok (read_word
                              (write_word s (read_word s (n + 8) + 16)
                                          (read_word s (n + 16))) x)).
      { destruct (Z.eq_dec x (read_word s (n + 8) + 16)) as [-> | Exp].
        - rewrite read_write_same by reflexivity. apply ptr_ok_wrap, Hl.
        - rewrite read_write_other by mlia. exact Hok. }
      destruct (Z.eqb_spec (read_word s (n + 16)) NULL) as [E0 | E0];
        [exact Hin|].
      specialize (Hna E0). rewrite read_write_other by mlia. exact Hin.
    + intros i Hi. left.
      destruct (read_word s (n + 16) =? NULL); reflexivity.
Qed.

End SecondDeletion.

(** ** The merged block and its successor *)

Lemma merge_result_flags (s : state) (block size : Z) (pa pm : bool) :
  heads_ok s -> block mod 16 = 8 ->
  size mod 16 = 0 -> 32 <= size < word_max ->
  let s' := merge_result s block size pa pm in
  get_size s' block = size /\
  get_prev_alloc s' (block + size) = false /\
  get_prev_mini s' (block + size) = false.
Proof.
  intros Hh Hb Hm Hr. unfold merge_result, update_block. cbv zeta.
  set (s1 := write_block s block size false pa pm).
  set (s2 := insert_normal_or_mini s1 block).
  assert (Hh1 : heads_ok s1) by (apply heads_ok_write_block, Hh).
  assert (H1 : read_word s1 block = pack size false pa pm).
  { unfold s1. apply read_write_block_header; auto; lia. }
  assert (H2 : read_word s2 block = pack size false pa pm).
  { unfold s2. rewrite insert_preserves_header; auto. right; lia. }
  assert (Hn : find_next s2 block = block + size).
  { unfold find_next, get_size. rewrite H2, extract_size_pack by (auto; lia).
    reflexivity. }
  rewrite Hn.
  set (nsize := get_size s2 (block + size)).
  set (nalloc := get_alloc s2 (block + size)).
  assert (Hw : read_word (write_word s2 (block + size)
                                     (pack nsize nalloc false false))
                         (block + size) = pack nsize nalloc false false).
  { exact (read_header_written s2 (block + size) nsize nalloc false false
             (get_size_range _ _)). }
  unfold get_size, get_prev_alloc, get_prev_mini. rewrite Hw.
  rewrite extract_prev_alloc_pack, extract_prev_mini_pack
    by apply get_size_mod16.
  rewrite read_write_other by lia. rewrite H2.
  rewrite extract_size_pack by (auto; lia). auto.
Qed.

(** The four cases of [coalesce_block]. *)
Lemma coalesce_block_cases (fuel : nat) (s : state) (b : Z)
      (s' : state) (m : Z) :
  coalesce_block fuel s b = Some (s', m) ->
  let n := find_next s b in
  let p := find_prev s b in
  (get_prev_alloc s b = true /\ get_alloc s n = true /\
   s' = insert_normal_or_mini s b /\ m = b) \/
  (get_prev_alloc s b = false /\ get_alloc s n = true /\
   p <> NULL /\ m = p /\
   exists s1,
     delete_normal_or_mini fuel s p = Some s1 /\
     s' = merge_result s1 p (wrap (get_size s p + get_size s b))
                       (get_prev_alloc s p) (get_prev_mini s p)) \/
  (get_prev_alloc s b = true /\ get_alloc s n = false /\ m = b /\
   exists s1,
     delete_normal_or_mini fuel s n = Some s1 /\
     s' = merge_result s1 b (wrap (get_size s b + get_size s n))
                       (get_prev_alloc s b) (get_prev_mini s b)) \/
  (get_prev_alloc s b = false /\ get_alloc s n = false /\
   p <> NULL /\ m = p /\
   exists s1 s2,
     delete_normal_or_mini fuel s n = Some s1 /\
     delete_normal_or_mini fuel s1 p = Some s2 /\
     s' = merge_result s2 p
            (wrap (get_size s p + get_size s b + get_size s n))
            (get_prev_alloc s p) (get_prev_mini s p)).
Proof.
  unfold coalesce_block. cbv zeta. intros H.
  destruct (get_prev_alloc s b) eqn:Ep;
    destruct (get_alloc s (find_next s b)) eqn:En; simpl in H.
  - left. injection H as <- <-. auto.
  - right; right; left.
    destruct (delete_normal_or_mini fuel s (find_next s b)) as [s1|] eqn:D;
      [|discriminate].
    injection H as <- <-. repeat split; auto. exists s1. auto.
  - right; left.
    destruct (Z.eqb_spec (find_prev s b) NULL) as [E|E]; [discriminate|].
    destruct (delete_normal_or_mini fuel s (find_prev s b)) as [s1|] eqn:D;
      [|discriminate].
    injection H as <- <-. repeat split; auto. exists s1. auto.
  - right; right; right.
    destruct (Z.eqb_spec (find_prev s b) NULL) as [E|E]; [discriminate|].
    destruct (delete_normal_or_mini fuel s (find_next s b)) as [s1|] eqn:D1;
      [|discriminate].
    destruct (delete_normal_or_mini fuel s1 (find_prev s b)) as [s2|] eqn:D2;
      [|discriminate].
    injection H as <- <-. repeat split; auto. exists s1, s2. auto.
Qed.

Lemma free_calls_coalesce_block (fuel : nat) (s : state) (bp : Z) :
  bp <> NULL ->
  just_freed (mark_free s (payload_to_header bp)) (payload_to_header bp) /\
  free fuel s bp =
  match coalesce_block fuel (mark_free s (payload_to_header bp))
                       (payload_to_header bp) with
  | Some r => Some (fst r)
  | None => None
  end.
Proof.
  intros Hbp. split; [apply freed_by_free, Hbp|].
  unfold free. destruct (Z.eqb_spec bp NULL); [contradiction | reflexivity].
Qed.

Lemma extend_heap_calls_coalesce_block
      (fuel : nat) (s : state) (size : Z) (s1 : state) (bp : Z) :
  mem_sbrk s (to_signed (round_up size dsize)) = Some (s1, bp) ->
  just_freed (extend_heap_init s1 bp (round_up size dsize))
             (payload_to_header bp) /\
  extend_heap fuel s size =
  coalesce_block fuel (extend_heap_init s1 bp (round_up size dsize))
                 (payload_to_header bp).
Proof.
  intros Hbrk. split; [eapply freed_by_extend_heap, Hbrk|].
  unfold extend_heap. rewrite Hbrk. reflexivity.
Qed.

(** ** [coalesce_block] goes through *)

(** In a heap that is well formed around the block, [coalesce_block]
    returns: with both neighbours allocated it inserts the block; otherwise
    it takes the free neighbours off their lists and ends with
    [merge_result] on the merged block. *)
Lemma coalesce_block_runs (fuel : nat) (s : state) (block : Z) :
  coalesce_ready fuel s block ->
  (get_prev_alloc s block && get_alloc s (find_next s block) = true /\
   coalesce_block fuel s block
   = Some (insert_normal_or_mini s block, block)) \/
  (get_prev_alloc s block && get_alloc s (find_next s block) = false /\
   exists s2,
     heads_ok s2 /\
     length (segregated_free_list s2) = Z.to_nat SEG_LIST_NUM /\
     coalesce_block fuel s block
     = Some (merge_result s2 (merged_block s block) (merged_size s block)
                          (get_prev_alloc s (merged_block s block))
                          (get_prev_mini s (merged_block s block)),
             merged_block s block)).
Proof.
  intros (Hb & Hsz & Hh & Hlen & Hprev & Hnext & Hsum).
  pose proof (get_size_range s block) as Hr.
  pose proof (get_size_mod16 s block) as Hm.
  assert (Hna : find_next s block mod 16 = 8) by (unfold find_next; mlia).
  assert (Hnn : find_next s block <> NULL)
    by (unfold NULL; intros E; rewrite E in Hna; discriminate Hna).
  unfold coalesce_block, merged_block, merged_size. cbv zeta.
  destruct (get_prev_alloc s block) eqn:Ep;
    destruct (get_alloc s (find_next s block)) eqn:En; simpl.
  - left. auto.
  - right. split; [reflexivity|].
    destruct (Hnext eq_refl) as [Hnsz Hnl].
    destruct (delete_deletable fuel s _ Hnn Hh (listed_deletable _ _ _ Hnl))
      as (s1 & D & Hh1 & Hl1).
    rewrite D. exists s1.
    split; [exact Hh1 | split; [rewrite Hl1; exact Hlen|]].
    pose proof (get_size_range s (find_next s block)).
    rewrite wrap_small by lia. rewrite Ep. reflexivity.
  - right. split; [reflexivity|].
    destruct (Hprev eq_refl) as (Hpos & Hpsz & Hadj & Hpl).
    destruct (Z.eqb_spec (find_prev s block) NULL) as [E | E];
      [unfold NULL in E; lia|].
    destruct (delete_deletable fuel s _ E Hh (listed_deletable _ _ _ Hpl))
      as (s1 & D & Hh1 & Hl1).
    rewrite D. exists s1.
    split; [exact Hh1 | split; [rewrite Hl1; exact Hlen|]].
    pose proof (get_size_range s (find_prev s block)).
    rewrite wrap_small by lia. rewrite Z.add_0_r. reflexivity.
  - right. split; [reflexivity|].
    destruct (Hprev eq_refl) as (Hpos & Hpsz & Hadj & Hpl).
    destruct (Hnext eq_refl) as [Hnsz Hnl].
    destruct (Z.eqb_spec (find_prev s block) NULL) as [E | E];
      [unfold NULL in E; lia|].
    pose proof (find_prev_aligned s block Hb E) as Hpa.
    destruct (delete_deletable fuel s _ Hnn Hh (listed_deletable _ _ _ Hnl))
      as (s1 & D1 & Hh1 & Hl1).
    rewrite D1.
    assert (Hapart : find_prev s block + get_size s (find_prev s block) + 16
                     <= find_next s block).
    { unfold find_next in Hadj |- *. lia. }
    destruct (deletable_after_delete fuel s _ _ Hpa Hna Hpos Hpsz Hapart
                Hlen Hpl s1 Hnl Hnsz D1) as [_ Hd].
    destruct (delete_deletable fuel s1 _ E Hh1 Hd) as (s2 & D2 & Hh2 & Hl2).
    rewrite D2. exists s2.
    split; [exact Hh2 | split; [rewrite Hl2, Hl1; exact Hlen|]].
    pose proof (get_size_range s (find_prev s block)).
    pose proof (get_size_range s (find_next s block)).
    rewrite wrap_small by lia. reflexivity.
Qed.

Lemma coalesce_ready_merged (fuel : nat) (s : state) (block : Z) :
  coalesce_ready fuel s block ->
  merged_block s block mod 16 = 8 /\
  merged_size s block mod 16 = 0 /\
  16 <= merged_size s block < word_max /\
  (get_prev_alloc s block && get_alloc s (find_next s block) = false ->
   32 <= merged_size s block) /\
  merged_block s block + merged_size s block
  = (if get_alloc s (find_next s block) then find_next s block
     else find_next s (find_next s block)).
Proof.
  intros (Hb & Hsz & Hh & Hlen & Hprev & Hnext & Hsum).
  pose proof (get_size_range s block) as Hr.
  pose proof (get_size_mod16 s block) as Hm.
  pose proof (get_size_range s (find_prev s block)) as Hrp.
  pose proof (get_size_mod16 s (find_prev s block)) as Hmp.
  pose proof (get_size_range s (find_next s block)) as Hrn.
  pose proof (get_size_mod16 s (find_next s block)) as Hmn.
  unfold merged_block, merged_size in *.
  destruct (get_prev_alloc s block) eqn:Ep;
    destruct (get_alloc s (find_next s block)) eqn:En; simpl.
  - split; [exact Hb|]. split; [mlia|]. split; [lia|].
    split; [discriminate|]. unfold find_next. lia.
  - destruct (Hnext eq_refl) as [Hnsz _].
    split; [exact Hb|]. split; [mlia|]. split; [lia|].
    split; [lia|]. unfold find_next. lia.
  - destruct (Hprev eq_refl) as (Hpos & Hpsz & Hadj & _).
    assert (E : find_prev s block <> NULL) by (unfold NULL; lia).
    pose proof (find_prev_aligned s block Hb E).
    split; [assumption|]. split; [mlia|]. split; [lia|].
    split; [lia|]. unfold find_next in *. lia.
  - destruct (Hprev eq_refl) as (Hpos & Hpsz & Hadj & _).
    destruct (Hnext eq_refl) as [Hnsz _].
    assert (E : find_prev s block <> NULL) by (unfold NULL; lia).
    pose proof (find_prev_aligned s block Hb E).
    split; [assumption|]. split; [mlia|]. split; [lia|].
    split; [lia|]. unfold find_next in *. lia.
Qed.

(** C1.  [coalesce_block], called by [free] or by [extend_heap] on the
    block they have just marked free, in a heap that is well formed around
    that block, returns.  The block it returns is the merged block: the
    free predecessor if there is one and the block itself otherwise, with
    the size of the block and of its free neighbours together, so that it
    ends where the last of them ended.  Afterwards the header of its
    physical successor has [prev_alloc = false] and
    [prev_mini = (merged size == 16)]; in particular the successor of a
    freed mini block between two allocated neighbours has
    [prev_mini = true]. *)
Theorem coalesce_sets_successor_flags
        (fuel : nat) (s : state) (block : Z) :
  just_freed s block ->
  coalesce_ready fuel s block ->
  let merged := merged_block s block in
  exists s',
    coalesce_block fuel s block = Some (s', merged) /\
    get_size s' merged = merged_size s block /\
    find_next s' merged
    = (if get_alloc s (find_next s block) then find_next s block
       else find_next s (find_next s block)) /\
    get_prev_alloc s' (find_next s' merged) = false /\
    get_prev_mini s' (find_next s' merged) = (get_size s' merged =? 16) /\
    (get_prev_alloc s block = true ->
     get_alloc s (find_next s block) = true ->
     get_size s block = 16 ->
     get_prev_mini s' (find_next s' merged) = true).
Proof.
  intros Hjf Hready. cbv zeta.
  destruct (just_freed_flags s block Hjf) as [Hf1 Hf2].
  destruct (coalesce_ready_merged fuel s block Hready)
    as (Hma & Hmm & Hmr & Hm32 & Hend).
  pose proof Hready as (Hb & Hsz & Hh & Hlen & _).
  destruct (coalesce_block_runs fuel s block Hready)
    as [[Hc Hrun] | (Hc & s2 & Hh2 & Hl2 & Hrun)].
  - apply andb_prop in Hc. destruct Hc as [Ep En].
    exists (insert_normal_or_mini s block).
    unfold merged_block, merged_size in *. rewrite Ep, En in *.
    replace (0 + get_size s block + 0) with (get_size s block) in * by lia.
    assert (Hblock : read_word (insert_normal_or_mini s block) block
                     = read_word s block).
    { apply insert_preserves_header; auto. right. lia. }
    assert (Hsame : get_size (insert_normal_or_mini s block) block
                    = get_size s block).
    { unfold get_size. rewrite Hblock. reflexivity. }
    assert (Hnxt : read_word (insert_normal_or_mini s block)
                             (block + get_size s block)
                   = read_word s (block + get_size s block)).
    { apply insert_preserves_header; auto; [rewrite Hend; unfold find_next; mlia|].
      destruct (Z.eq_dec (get_size s block) 16); [left | right]; lia. }
    split; [exact Hrun|].
    split; [exact Hsame|].
    unfold find_next in *. rewrite Hsame.
    split; [reflexivity|].
    unfold get_prev_alloc, get_prev_mini in *. rewrite Hnxt.
    split; [exact Hf1|].
    split; [exact Hf2|].
    intros _ _ E16. rewrite Hf2, E16. reflexivity.
  - eexists. split; [exact Hrun|].
    destruct (merge_result_flags s2 (merged_block s block)
                (merged_size s block)
                (get_prev_alloc s (merged_block s block))
                (get_prev_mini s (merged_block s block))
                Hh2 Hma Hmm ltac:(specialize (Hm32 Hc); lia))
      as (G1 & G2 & G3).
    cbv zeta in G1, G2, G3.
    set (s' := merge_result s2 _ _ _ _) in *.
    assert (Hfn : find_next s' (merged_block s block)
                  = merged_block s block + merged_size s block).
    { unfold find_next. rewrite G1. reflexivity. }
    rewrite !Hfn, G1, G2, G3.
    split; [reflexivity|].
    split; [exact Hend|].
    split; [reflexivity|].
    specialize (Hm32 Hc).
    destruct (Z.eqb_spec (merged_size s block) 16) as [E | _]; [lia|].
    split; [reflexivity|].
    intros Ep En _. rewrite Ep, En in Hc. discriminate Hc.
Qed.

(** Closed facts about a sample state, by evaluation. *)
Ltac settle :=
  lazymatch goal with
  | |- _ /\ _ => split; settle
  | |- _ \/ _ => first [left; solve [settle] | right; solve [settle]]
  | |- True => exact I
  | |- _ = _ => reflexivity
  | |- (_ -> False) -> _ =>
      let H := fresh in
      intros H; first [solve [settle] | exfalso; apply H; reflexivity]
  | |- _ -> _ =>
      let H := fresh in intros H; first [discriminate H | clear H; settle]
  | |- Forall _ _ => constructor; settle
  end.

Lemma mini_middle_freed_ready :
  coalesce_ready 8 mini_middle_freed (payload_to_header mini_middle_payload).
Proof. vm_compute. settle. Qed.

Lemma coalesce_sets_successor_flags_witness :
  let s := mini_middle_freed in
  let block := payload_to_header mini_middle_payload in
  (just_freed s block /\ coalesce_ready 8 s block) /\
  let merged := merged_block s block in
  exists s',
    coalesce_block 8 s block = Some (s', merged) /\
    get_size s' merged = merged_size s block /\
    find_next s' merged
    = (if get_alloc s (find_next s block) then find_next s block
       else find_next s (find_next s block)) /\
    get_prev_alloc s' (find_next s' merged) = false /\
    get_prev_mini s' (find_next s' merged) = (get_size s' merged =? 16) /\
    (get_prev_alloc s block = true ->
     get_alloc s (find_next s block) = true ->
     get_size s block = 16 ->
     get_prev_mini s' (find_next s' merged) = true).
Proof.
  cbv zeta.
  assert (Hjf : just_freed mini_middle_freed
                           (payload_to_header mini_middle_payload)).
  { unfold mini_middle_freed. apply freed_by_free. discriminate. }
  split; [split; [exact Hjf | exact mini_middle_freed_ready]|].
  exact (coalesce_sets_successor_flags 8 _ _ Hjf mini_middle_freed_ready).
Defined.

Lemma mini_middle_freed_values :
  let s := mini_middle_freed in
  let block := payload_to_header mini_middle_payload in
  get_size s block = 32 /\
  find_prev s block = 4104 /\ get_size s 4104 = 16 /\
  get_alloc s 4104 = false /\
  find_next s block = 4152 /\ get_size s 4152 = 16 /\
  get_alloc s 4152 = false /\
  list_head s 0 = 4104 /\ read_word s (4104 + off_next_mini) = 4152 /\
  get_prev_mini s 4168 = true /\
  merged_block s block = 4104 /\ merged_size s block = 64.
Proof. vm_compute. settle. Qed.

(** The well-formedness that coalescing relies on holds at the call of
    [coalesce_block] in each of its cases with a mini block as neighbour,
    and at the call in [extend_heap] behind a free block. *)
Lemma coalesce_ready_samples :
  (coalesce_ready 8 mini_prev_freed 4120 /\
   get_prev_alloc mini_prev_freed 4120 = false /\
   get_size mini_prev_freed (find_prev mini_prev_freed 4120) = 16 /\
   get_alloc mini_prev_freed (find_next mini_prev_freed 4120) = true) /\
  (coalesce_ready 8 mini_next_freed 4104 /\
   get_prev_alloc mini_next_freed 4104 = true /\
   get_alloc mini_next_freed (find_next mini_next_freed 4104) = false /\
   get_size mini_next_freed (find_next mini_next_freed 4104) = 16) /\
  (coalesce_ready 8 mini_between_live 4120 /\
   get_size mini_between_live 4120 = 16 /\
   get_prev_alloc mini_between_live 4120 = true /\
   get_alloc mini_between_live (find_next mini_between_live 4120) = true) /\
  (coalesce_ready 8 extended_behind_free 6152 /\
   just_freed extended_behind_free 6152 /\
   get_prev_alloc extended_behind_free 6152 = false /\
   get_size extended_behind_free (find_prev extended_behind_free 6152)
   = 2048).
Proof.
  split; [vm_compute; settle | split; [vm_compute; settle|]].
  split; [vm_compute; settle|].
  split; [vm_compute; settle|].
  split; [|vm_compute; settle].
  exact (freed_by_extend_heap seeded_arena 4016
           (set_brk seeded_arena (mem_brk seeded_arena + 4016)) 6160 eq_refl).
Qed.

(** ** [find_fit] always returns *)

Lemma find_fit_scan_total (fuel : nat) (s : state) (block_size : Z) :
  forall block cont best min_diff,
    0 <= cont -> 1 <= Z.of_nat fuel -> SEARCH_LIMIT + 2 - cont <= Z.of_nat fuel ->
    exists r,
      find_fit_scan fuel s block_size block cont best min_diff = Some r /\
      match r with ScanNext c _ _ => 0 <= c | ScanReturn _ => True end.
Proof.
  unfold SEARCH_LIMIT.
  induction fuel as [|fuel IH]; intros block cont best min_diff Hc H1 Hf.
  - lia.
  - cbn [find_fit_scan].
    destruct (block =? NULL); [eexists; split; [reflexivity | exact Hc]|].
    destruct (_ && (_ <=? CLOSE_ENOUGH));
      [eexists; split; [reflexivity | exact I]|].
    unfold SEARCH_LIMIT.
    destruct (Z.gtb_spec cont 10);
      [eexists; split; [reflexivity | apply Z.le_refl]|].
    apply IH; lia.
Qed.

Lemma find_fit_lists_total (n : nat) (s : state) (block_size : Z) :
  forall i cont best min_diff,
    0 <= cont ->
    exists b,
      find_fit_lists n scan_fuel s block_size i cont best min_diff = Some b.
Proof.
  induction n as [|n IH]; intros i cont best min_diff Hc.
  - eexists; reflexivity.
  - cbn [find_fit_lists].
    destruct (i <? SEG_LIST_NUM); [|eexists; reflexivity].
    destruct (find_fit_scan_total scan_fuel s block_size (list_head s i)
                cont best min_diff Hc) as (r & -> & Hr).
    + vm_compute. congruence.
    + unfold scan_fuel, SEARCH_LIMIT. lia.
    + destruct r as [b | c b m]; [eexists; reflexivity | apply IH, Hr].
Qed.

Lemma find_fit_total (s : state) (asize : Z) :
  exists block, find_fit s asize = Some block.
Proof.
  unfold find_fit. cbv zeta.
  destruct (_ && _); [eexists; reflexivity|].
  apply find_fit_lists_total. lia.
Qed.

(** ** The checker returns its last check *)

Lemma checkheap_lists_last (fuel : nat) (s : state) (b : bool) :
  forall n i c,
    (0 < n)%nat -> i + Z.of_nat n = SEG_LIST_NUM -> 
    checkheap_lists n fuel s i c = Some b ->
    check_bucket fuel s (list_head s (SEG_LIST_NUM - 1)) = Some b.
Proof.
  unfold SEG_LIST_NUM.
  induction n as [|n IH]; intros i c Hn Hi H; [lia|].
  cbn [checkheap_lists] in H. unfold SEG_LIST_NUM in H.
  destruct (Z.ltb_spec i 15); [|lia].
  destruct (check_cycle fuel s _); [|discriminate].
  destruct (check_alloc fuel s _); [|discriminate].
  destruct (check_bounds fuel s _); [|discriminate].
  destruct (check_consecutive fuel s _); [|discriminate].
  destruct (check_bucket fuel s (list_head s i)) as [c'|] eqn:E; [|discriminate].
  destruct n as [|n'].
  - simpl in H. injection H as <-.
    replace (15 - 1) with i by lia. exact E.
  - eapply IH; [lia | | exact H]. lia.
Qed.

Lemma mm_checkheap_last_check (fuel : nat) (s : state) (b : bool) :
  mm_checkheap fuel s = Some b ->
  check_bucket fuel s (list_head s (SEG_LIST_NUM - 1)) = Some b.
Proof.
  unfold mm_checkheap. cbv zeta. intros H.
  destruct (heap_start s =? NULL); [discriminate|].
  repeat match type of H with
         | match ?x with Some _ => _ | None => _ end = _ =>
             destruct x; [|discriminate]
         end.
  eapply checkheap_lists_last; [ | | exact H]; [vm_compute; lia | reflexivity].
Qed.

(** C3.  The checker does not return the conjunction of its checks: on a
    seeded heap whose prologue word was overwritten, [check_prologue] fails
    and [mm_checkheap] still returns [true]. *)
Theorem mm_checkheap_misses_prologue :
  check_prologue corrupted_prologue (heap_start corrupted_prologue - wsize)
  = false /\
  mm_checkheap 64 corrupted_prologue = Some true.
Proof. split; vm_compute; reflexivity. Qed.

(** C4.  [find_fit] examines more than [SEARCH_LIMIT] entries of a list:
    with eleven blocks that are too small in front of a fitting one, it
    returns that twelfth entry, which a search bounded by ten entries per
    list never reaches. *)
Theorem find_fit_reaches_twelfth_entry :
  let s := crowded_bucket in
  let head := list_head s (get_list_index 128) in
  forallb (fun k => get_size s (nth_entry s head k) <? 128) (seq 0 11) = true /\
  get_size s (nth_entry s head 11) = 128 /\
  find_fit s 128 = Some (nth_entry s head 11) /\
  find_fit_spec s 128 <> nth_entry s head 11.
Proof. repeat split; vm_compute; congruence. Qed.

(** * Further properties of the program *)

(** ** Further properties of the helper functions *)

(** X1.  Packing a block size (a multiple of 16 that fits a word) with the
    three flags and extracting the four fields gives them back. *)
Theorem pack_round_trip (size : Z) (alloc prev_alloc prev_mini : bool) :
  size mod 16 = 0 -> 0 <= size < word_max ->
  extract_size (pack size alloc prev_alloc prev_mini) = size /\
  extract_alloc (pack size alloc prev_alloc prev_mini) = alloc /\
  extract_prev_alloc (pack size alloc prev_alloc prev_mini) = prev_alloc /\
  extract_prev_mini (pack size alloc prev_alloc prev_mini) = prev_mini.
Proof.
  intros Hm Hr. apply (fields_of_pack size); auto.
Qed.

Lemma pack_round_trip_witness :
  (2048 mod 16 = 0 /\ 0 <= 2048 < word_max) /\
  extract_size (pack 2048 false true false) = 2048 /\
  extract_alloc (pack 2048 false true false) = false /\
  extract_prev_alloc (pack 2048 false true false) = true /\
  extract_prev_mini (pack 2048 false true false) = false.
Proof.
  assert (H1 : 2048 mod 16 = 0) by reflexivity.
  assert (H2 : 0 <= 2048 < word_max) by (vm_compute; split; congruence).
  split; [auto|]. exact (pack_round_trip 2048 false true false H1 H2).
Defined.

(** X2.  [extract_size] clears the low four bits of a header word: the result
    is the word rounded down to a multiple of 16. *)
Theorem extract_size_clears_flags (word : Z) :
  0 <= word < word_max ->
  extract_size word = word - word mod 16 /\
  extract_size word <= word < extract_size word + 16.
Proof.
  intros Hw. rewrite extract_size_decompose.
  assert (Hq : (word / 16) mod 2 ^ 60 = word / 16).
  { apply Z.mod_small. unfold word_max in Hw.
    change (2 ^ 64) with (16 * 2 ^ 60) in Hw. mlia. }
  rewrite Hq. mlia.
Qed.

Lemma extract_size_clears_flags_witness :
  0 <= 2055 < word_max /\
  extract_size 2055 = 2055 - 2055 mod 16 /\
  extract_size 2055 <= 2055 < extract_size 2055 + 16.
Proof.
  assert (H : 0 <= 2055 < word_max) by (vm_compute; split; congruence).
  split; [exact H|]. exact (extract_size_clears_flags 2055 H).
Defined.

(** X3.  When [size + (n - 1)] does not wrap, [round_up size n] is the least
    multiple of [n] that is not below [size]. *)
Theorem round_up_is_next_multiple (size n : Z) :
  0 < n -> 0 <= size -> size + (n - 1) < word_max ->
  round_up size n mod n = 0 /\
  size <= round_up size n < size + n.
Proof.
  intros Hn Hs Hfit. unfold round_up.
  rewrite (wrap_small (size + (n - 1))) by lia.
  assert (Hq : 0 <= (size + (n - 1)) / n) by (apply Z.div_pos; lia).
  assert (Hle : n * ((size + (n - 1)) / n) <= size + (n - 1))
    by (apply Z.mul_div_le; lia).
  assert (Hlt : size + (n - 1) < n * ((size + (n - 1)) / n) + n).
  { pose proof (Z.mod_pos_bound (size + (n - 1)) n Hn).
    pose proof (Z.div_mod (size + (n - 1)) n ltac:(lia)). lia. }
  rewrite wrap_small by nia.
  split.
  - rewrite Z.mul_comm. apply Z.mod_mul. lia.
  - lia.
Qed.

Lemma round_up_is_next_multiple_witness :
  (0 < 16 /\ 0 <= 25 /\ 25 + (16 - 1) < word_max) /\
  round_up 25 16 mod 16 = 0 /\ 25 <= round_up 25 16 < 25 + 16.
Proof.
  assert (H : 25 + (16 - 1) < word_max) by (vm_compute; reflexivity).
  split; [repeat split; auto; lia|].
  exact (round_up_is_next_multiple 25 16 ltac:(lia) ltac:(lia) H).
Defined.

(** X4.  For a request that does not wrap, the adjusted size of [malloc] is a
    multiple of 16, at least 16, and holds the header and the request with
    less than 16 bytes to spare. *)
Theorem malloc_asize_holds_request (size : Z) :
  0 < size -> size + 8 + 15 < word_max ->
  malloc_asize size mod 16 = 0 /\
  16 <= malloc_asize size /\
  size + 8 <= malloc_asize size < size + 8 + 16.
Proof.
  intros Hpos Hfit. split; [apply malloc_asize_mod|].
  unfold malloc_asize, min_block_size, dsize, wsize. simpl (2 * 8).
  destruct (Z.leb_spec size 8).
  - lia.
  - rewrite (wrap_small (size + 8)) by lia.
    rewrite round_up_16.
    rewrite (wrap_small (size + 8 + 15)) by lia. mlia.
Qed.

Lemma malloc_asize_holds_request_witness :
  (0 < 24 /\ 24 + 8 + 15 < word_max) /\
  malloc_asize 24 mod 16 = 0 /\
  16 <= malloc_asize 24 /\
  24 + 8 <= malloc_asize 24 < 24 + 8 + 16.
Proof.
  assert (H : 24 + 8 + 15 < word_max) by (vm_compute; reflexivity).
  split; [split; [lia | exact H]|].
  exact (malloc_asize_holds_request 24 ltac:(lia) H).
Defined.

(** X5.  [get_list_index] is monotone in the size and stays inside the array
    of list heads. *)
Theorem get_list_index_monotone (size1 size2 : Z) :
  size1 <= size2 ->
  0 <= get_list_index size1 /\
  get_list_index size1 <= get_list_index size2 /\
  get_list_index size2 < SEG_LIST_NUM.
Proof.
  intros Hle.
  pose proof (get_list_index_range size1).
  pose proof (get_list_index_range size2).
  split; [lia | split; [|unfold SEG_LIST_NUM; lia]].
  unfold get_list_index, s_list_mini, s_list_1, s_list_2, s_list_3, s_list_4,
    s_list_5, s_list_6, s_list_7, s_list_8, s_list_9, s_list_10, s_list_11,
    s_list_12, s_list_13.
  clear H H0.
  destruct (get_list_index_cases size2)
    as [[Hs Hi] | [[Hs Hi] | [(k0 & Hk0 & Hs & Hi) | [Hs Hi]]]].
  all: split_ifs; try lia.
Qed.

Lemma get_list_index_monotone_witness :
  48 <= 300 /\
  0 <= get_list_index 48 /\
  get_list_index 48 <= get_list_index 300 /\
  get_list_index 300 < SEG_LIST_NUM.
Proof.
  split; [lia|]. exact (get_list_index_monotone 48 300 ltac:(lia)).
Defined.

(** ** The checker's size checks *)

(** X6.  [check_block_alignment] and [check_minimum_block_size] can never
    report a failure: they test sizes read through [get_size], which are
    multiples of 16 by construction. *)
Theorem size_checks_never_fail (fuel : nat) (s : state) (block : Z) :
  check_block_alignment fuel s block <> Some false /\
  check_minimum_block_size fuel s block <> Some false.
Proof.
  split; revert block; induction fuel as [|fuel IH]; intros block; simpl;
    try discriminate.
  - destruct (get_size s block >? 0); [|discriminate].
    unfold dsize, wsize. simpl (2 * 8).
    rewrite get_size_mod16. simpl. apply IH.
  - pose proof (get_size_mod16 s block). pose proof (get_size_range s block).
    destruct (Z.gtb_spec (get_size s block) 0); [|discriminate].
    unfold min_block_size, dsize, wsize. simpl (2 * 8).
    destruct (Z.ltb_spec (get_size s block) 16); [mlia | apply IH].
Qed.

(** ** The arena only grows *)

Lemma arena_grows_refl (s : state) : arena_grows s s.
Proof. unfold arena_grows. repeat split; auto; try lia. Qed.

Lemma arena_grows_trans (s1 s2 s3 : state) :
  arena_grows s1 s2 -> arena_grows s2 s3 -> arena_grows s1 s3.
Proof.
  unfold arena_grows. intros (A1 & A2 & A3 & A4) (B1 & B2 & B3 & B4).
  repeat split; try congruence; try lia.
Qed.

Lemma same_arena_grows (s s' : state) : same_arena s s' -> arena_grows s s'.
Proof.
  unfold same_arena, arena_grows. intros (A & B & C & _).
  rewrite A, B, C. repeat split; auto; try lia.
Qed.

Lemma mem_sbrk_grows (s : state) (incr : Z) (s' : state) (bp : Z) :
  mem_sbrk s incr = Some (s', bp) -> arena_grows s s'.
Proof.
  unfold mem_sbrk. destruct (_ || _) eqn:C; [discriminate|].
  intros [= <- <-]. apply orb_false_elim in C. destruct C as [C1 C2].
  apply Z.ltb_ge in C1. rewrite Z.gtb_ltb in C2. apply Z.ltb_ge in C2.
  unfold arena_grows. simpl. repeat split; auto; try lia.
Qed.

Lemma extend_heap_arena (fuel : nat) (s : state) (size : Z)
      (s' : state) (block : Z) :
  extend_heap fuel s size = Some (s', block) -> arena_grows s s'.
Proof.
  unfold extend_heap. intros H.
  destruct (mem_sbrk s _) as [[s1 bp]|] eqn:E.
  - apply mem_sbrk_grows in E. apply same_arena_coalesce in H.
    eapply arena_grows_trans; [exact E|].
    apply same_arena_grows.
    eapply same_arena_trans; [|exact H].
    unfold extend_heap_init, write_epilogue. cbv zeta.
    eapply same_arena_trans; [apply same_arena_write_block|].
    apply same_arena_write_word.
  - injection H as <- <-. apply arena_grows_refl.
Qed.

Lemma mm_init_arena (fuel : nat) (s : state) (s' : state) (ok : bool) :
  mm_init fuel s = Some (s', ok) -> arena_grows s s'.
Proof.
  unfold mm_init. cbv zeta. intros H.
  destruct (mem_sbrk _ _) as [[s1 start]|] eqn:E.
  - apply mem_sbrk_grows in E.
    destruct (extend_heap fuel _ chunksize) as [[s2 b]|] eqn:X; [|discriminate].
    apply extend_heap_arena in X.
    assert (s2 = s') by (destruct (b =? NULL); congruence). subst s2.
    unfold arena_grows in *. simpl in *.
    destruct E as (E1 & E2 & E3 & E4). destruct X as (X1 & X2 & X3 & X4).
    repeat split; try congruence; try lia.
  - injection H as <- <-. unfold arena_grows. simpl.
    repeat split; auto; try lia.
Qed.

Lemma malloc_place_arena (fuel : nat) (s : state) (asize : Z)
      (s' : state) (p : Z) :
  malloc_place fuel s asize = Some (s', p) -> arena_grows s s'.
Proof.
  unfold malloc_place. intros H.
  destruct (find_fit s asize) as [block|]; [|discriminate].
  destruct (block =? NULL).
  - destruct (extend_heap fuel s _) as [[s1 b]|] eqn:X; [|discriminate].
    apply extend_heap_arena in X.
    destruct (b =? NULL).
    + injection H as <- <-. exact X.
    + apply same_arena_malloc_take in H.
      eapply arena_grows_trans; [exact X | apply same_arena_grows, H].
  - apply same_arena_grows. eapply same_arena_malloc_take, H.
Qed.

(** X7.  [malloc] never moves the base or the limit of the arena, never moves
    the break down, and keeps the break below the limit. *)
Theorem malloc_only_grows_arena
        (fuel : nat) (s : state) (size : Z) (s' : state) (p : Z) :
  malloc fuel s size = Some (s', p) ->
  mem_heap s' = mem_heap s /\
  mem_max_addr s' = mem_max_addr s /\
  mem_brk s <= mem_brk s' /\
  (mem_brk s <= mem_max_addr s -> mem_brk s' <= mem_max_addr s').
Proof.
  unfold malloc. intros H.
  change (arena_grows s s').
  destruct (heap_start s =? NULL).
  - destruct (mm_init fuel s) as [[s1 ok]|] eqn:I; [|discriminate].
    apply mm_init_arena in I.
    destruct ok; simpl in H.
    + destruct (size =? 0).
      * injection H as <- <-. exact I.
      * apply malloc_place_arena in H. eapply arena_grows_trans; eauto.
    + injection H as <- <-. exact I.
  - simpl in H. destruct (size =? 0).
    + injection H as <- <-. apply arena_grows_refl.
    + eapply malloc_place_arena, H.
Qed.

Lemma malloc_only_grows_arena_witness :
  match malloc 0 seeded_arena 4000 with
  | Some (s', p) =>
      mem_heap s' = mem_heap seeded_arena /\
      mem_max_addr s' = mem_max_addr seeded_arena /\
      mem_brk seeded_arena <= mem_brk s' /\
      (mem_brk seeded_arena <= mem_max_addr seeded_arena ->
       mem_brk s' <= mem_max_addr s')
  | None => False
  end.
Proof.
  assert (H : is_some (malloc 0 seeded_arena 4000) = true)
    by (vm_compute; reflexivity).
  destruct (malloc 0 seeded_arena 4000) as [[s' p]|] eqn:E;
    [|discriminate H].
  exact (malloc_only_grows_arena 0 seeded_arena 4000 s' p E).
Defined.

(** X8.  [free] leaves the break, the arena bounds and [heap_start] as they
    are: memory is never given back to the arena. *)
Theorem free_keeps_arena (fuel : nat) (s : state) (bp : Z) (s' : state) :
  free fuel s bp = Some s' ->
  mem_brk s' = mem_brk s /\ mem_heap s' = mem_heap s /\
  mem_max_addr s' = mem_max_addr s /\ heap_start s' = heap_start s.
Proof.
  unfold free. intros H. change (same_arena s s').
  destruct (bp =? NULL); [injection H as <-; apply same_arena_refl|].
  destruct (coalesce_block fuel _ _) as [[s1 m]|] eqn:C; [|discriminate].
  injection H as <-. apply same_arena_coalesce in C.
  eapply same_arena_trans; [|exact C].
  unfold mark_free. cbv zeta.
  eapply same_arena_trans; [apply same_arena_write_block|].
  apply same_arena_update_block.
Qed.

Lemma free_keeps_arena_witness :
  match free 0 three_live_blocks 4144 with
  | Some s' =>
      mem_brk s' = mem_brk three_live_blocks /\
      mem_heap s' = mem_heap three_live_blocks /\
      mem_max_addr s' = mem_max_addr three_live_blocks /\
      heap_start s' = heap_start three_live_blocks
  | None => False
  end.
Proof.
  assert (H : is_some (free 0 three_live_blocks 4144) = true)
    by (vm_compute; reflexivity).
  destruct (free 0 three_live_blocks 4144) as [s'|] eqn:E;
    [|discriminate H].
  exact (free_keeps_arena 0 three_live_blocks 4144 s' E).
Defined.

(** ** [find_fit] *)

Lemma find_fit_scan_fits (fuel : nat) (s : state) (block_size : Z) :
  forall block cont best min_diff r,
    best = NULL \/ block_size <= get_size s best ->
    find_fit_scan fuel s block_size block cont best min_diff = Some r ->
    match r with
    | ScanReturn b => b = NULL \/ block_size <= get_size s b
    | ScanNext _ b _ => b = NULL \/ block_size <= get_size s b
    end.
Proof.
  induction fuel as [|fuel IH]; intros block cont best min_diff r Hb H;
    [discriminate|].
  cbn [find_fit_scan] in H.
  destruct (block =? NULL); [injection H as <-; exact Hb|].
  remember (get_size s block >=? block_size) as fits eqn:Ef.
  remember (fits && (wrap (get_size s block - block_size) <? min_diff))
    as better eqn:Eb.
  assert (Hb' : (if better then block else best) = NULL \/
                block_size <= get_size s (if better then block else best)).
  { destruct better; [|exact Hb]. right.
    symmetry in Eb. apply andb_true_iff in Eb. destruct Eb as [Eb _].
    subst fits. rewrite Z.geb_leb in Eb. apply Z.leb_le, Eb. }
  match type of H with
  | (if ?c then _ else _) = _ => destruct c
  end; [injection H as <-; exact Hb'|].
  destruct (cont >? SEARCH_LIMIT); [injection H as <-; exact Hb'|].
  eapply IH; eauto.
Qed.

Lemma find_fit_lists_fits (n fuel : nat) (s : state) (block_size : Z) :
  forall i cont best min_diff b,
    best = NULL \/ block_size <= get_size s best ->
    find_fit_lists n fuel s block_size i cont best min_diff = Some b ->
    b = NULL \/ block_size <= get_size s b.
Proof.
  induction n as [|n IH]; intros i cont best min_diff b Hb H.
  - injection H as <-. exact Hb.
  - cbn [find_fit_lists] in H.
    destruct (i <? SEG_LIST_NUM); [|injection H as <-; exact Hb].
    destruct (find_fit_scan fuel s block_size _ cont best min_diff)
      as [r|] eqn:E; [|discriminate].
    apply find_fit_scan_fits in E; [|exact Hb].
    destruct r as [b' | c b' m].
    + injection H as <-. exact E.
    + eapply IH; eauto.
Qed.

(** X9.  A block returned by [find_fit] is large enough for the request,
    except for the head of the mini list, which is returned unchecked for a
    request of size class 0. *)
Theorem find_fit_returns_fitting_block (s : state) (asize block : Z) :
  find_fit s asize = Some block ->
  block = NULL \/
  asize <= get_size s block \/
  (get_list_index asize = 0 /\ block = list_head s 0).
Proof.
  unfold find_fit. cbv zeta.
  destruct (Z.eqb_spec (get_list_index asize) 0) as [E|E]; simpl.
  - destruct (list_head s 0 =? NULL); simpl.
    + intros H. apply find_fit_lists_fits in H; [tauto | left; reflexivity].
    + intros [= <-]. auto.
  - intros H. apply find_fit_lists_fits in H; [tauto | left; reflexivity].
Qed.

Lemma find_fit_returns_fitting_block_witness :
  find_fit seeded_arena 32 = Some 4104 /\
  (4104 = NULL \/
   32 <= get_size seeded_arena 4104 \/
   (get_list_index 32 = 0 /\ 4104 = list_head seeded_arena 0)).
Proof.
  assert (H : find_fit seeded_arena 32 = Some 4104)
    by (vm_compute; reflexivity).
  split; [exact H|]. exact (find_fit_returns_fitting_block _ _ _ H).
Defined.

Lemma find_fit_lists_empty (n : nat) (s : state) (block_size : Z) :
  (forall i, list_head s i = NULL) ->
  forall i cont best min_diff,
    find_fit_lists n scan_fuel s block_size i cont best min_diff = Some best.
Proof.
  intros Hall. induction n as [|n IH]; intros i cont best min_diff.
  - reflexivity.
  - cbn [find_fit_lists]. destruct (i <? SEG_LIST_NUM); [|reflexivity].
    rewrite Hall. change scan_fuel with (S (Z.to_nat (SEARCH_LIMIT + 2))).
    cbn [find_fit_scan]. simpl (NULL =? NULL). cbv iota. apply IH.
Qed.

(** X10.  With every list empty [find_fit] returns [NULL]. *)
Theorem find_fit_empty_lists (s : state) (asize : Z) :
  (forall i, list_head s i = NULL) ->
  find_fit s asize = Some NULL.
Proof.
  intros Hall. unfold find_fit. cbv zeta. rewrite Hall.
  rewrite Z.eqb_refl. simpl negb. rewrite andb_false_r.
  apply find_fit_lists_empty, Hall.
Qed.

Lemma find_fit_empty_lists_witness :
  (forall i, list_head (fresh_arena 4096 1048576) i = NULL) /\
  find_fit (fresh_arena 4096 1048576) 64 = Some NULL.
Proof.
  assert (H : forall i, list_head (fresh_arena 4096 1048576) i = NULL).
  { intros i. unfold list_head, fresh_arena. simpl segregated_free_list.
    destruct (nth_in_or_default (Z.to_nat i)
                (repeat NULL (Z.to_nat SEG_LIST_NUM)) NULL) as [Hin | E];
      [|exact E].
    exact (repeat_spec _ _ _ Hin). }
  split; [exact H|]. exact (find_fit_empty_lists _ 64 H).
Defined.

(** X11.  When the first block of the request's own list fits with at most
    [CLOSE_ENOUGH] bytes to spare, [find_fit] returns it at once. *)
Theorem find_fit_takes_close_head (s : state) (asize : Z) :
  let head := list_head s (get_list_index asize) in
  head <> NULL ->
  asize <= get_size s head <= asize + CLOSE_ENOUGH ->
  find_fit s asize = Some head.
Proof.
  intros head Hhead Hsize. unfold find_fit. cbv zeta.
  pose proof (get_list_index_range asize) as Hidx.
  destruct (Z.eqb_spec (get_list_index asize) 0) as [E|E]; cbn [andb].
  - unfold head in *. rewrite E in *.
    destruct (Z.eqb_spec (list_head s 0) NULL); [contradiction | reflexivity].
  - assert (Hn : exists n, Z.to_nat (SEG_LIST_NUM - get_list_index asize) = S n).
    { exists (Z.to_nat (SEG_LIST_NUM - get_list_index asize - 1)).
      unfold SEG_LIST_NUM. lia. }
    destruct Hn as [n ->]. cbn [find_fit_lists].
    destruct (Z.ltb_spec (get_list_index asize) SEG_LIST_NUM);
      [|unfold SEG_LIST_NUM in *; lia].
    fold head. change scan_fuel with (S (Z.to_nat (SEARCH_LIMIT + 2))).
    cbn [find_fit_scan].
    destruct (Z.eqb_spec head NULL); [contradiction|].
    unfold CLOSE_ENOUGH in *.
    pose proof (get_size_range s head) as Hr.
    rewrite (wrap_small (get_size s head - asize)) by (unfold word_max; lia).
    destruct (Z.geb_spec (get_size s head) asize); [|lia].
    assert (Hlt : (get_size s head - asize <? SIZE_MAX) = true).
    { apply Z.ltb_lt. unfold SIZE_MAX, word_max. lia. }
    rewrite Hlt. simpl.
    destruct (Z.leb_spec (get_size s head - asize) 46); [reflexivity | lia].
Qed.

Lemma find_fit_takes_close_head_witness :
  let head := list_head seeded_arena (get_list_index 2016) in
  (head <> NULL /\
   2016 <= get_size seeded_arena head <= 2016 + CLOSE_ENOUGH) /\
  find_fit seeded_arena 2016 = Some head.
Proof.
  cbv zeta.
  assert (H1 : list_head seeded_arena (get_list_index 2016) <> NULL)
    by (vm_compute; congruence).
  assert (H2 : 2016 <= get_size seeded_arena
                         (list_head seeded_arena (get_list_index 2016))
               <= 2016 + CLOSE_ENOUGH)
    by (vm_compute; split; congruence).
  split; [auto|]. exact (find_fit_takes_close_head seeded_arena 2016 H1 H2).
Defined.

(** ** Blocks and their boundary words *)

Lemma read_footer_written (s : state) (b size : Z) (pa pm : bool) :
  size mod 16 = 0 -> 32 <= size < word_max ->
  read_word (write_block s b size false pa pm) (b + size - 8)
  = pack size false pa pm.
Proof.
  intros Hm Hr. rewrite write_block_eq by (auto; lia).
  unfold min_block_size, dsize, wsize. simpl (2 * 8).
  destruct (Z.gtb_spec size 16); [|lia]. simpl.
  apply read_header_written. lia.
Qed.

(** X12.  [write_block] writes the packed header; for a free block of more than
    16 bytes it also writes the same word as footer in the last word of the
    block; for an allocated or a mini block it writes nothing but the
    header. *)
Theorem write_block_layout
        (s : state) (block size : Z) (alloc prev_alloc prev_mini : bool) :
  size mod 16 = 0 -> 0 <= size < word_max ->
  let s' := write_block s block size alloc prev_alloc prev_mini in
  read_word s' block = pack size alloc prev_alloc prev_mini /\
  (alloc = false -> 16 < size ->
   header_to_footer s' block = block + size - wsize /\
   read_word s' (header_to_footer s' block) = read_word s' block) /\
  (alloc = true \/ size <= 16 ->
   forall x, x + 8 <= block \/ block + 8 <= x ->
             read_word s' x = read_word s x).
Proof.
  intros Hm Hr s'.
  assert (Hh : read_word s' block = pack size alloc prev_alloc prev_mini)
    by (apply read_write_block_header; assumption).
  split; [exact Hh | split].
  - intros -> Hbig.
    assert (Hf : header_to_footer s' block = block + size - wsize).
    { unfold header_to_footer, get_size. rewrite Hh.
      rewrite extract_size_pack by assumption.
      unfold off_payload, dsize, wsize. lia. }
    split; [exact Hf|]. rewrite Hf, Hh. unfold wsize.
    apply read_footer_written; [assumption | mlia].
  - intros Hc x Hx. unfold s'. rewrite write_block_eq by assumption.
    unfold min_block_size, dsize, wsize. simpl (2 * 8).
    destruct (negb alloc && (size >? 16)) eqn:E.
    + apply andb_true_iff in E. destruct E as [E1 E2].
      apply Z.gtb_lt in E2. destruct Hc as [-> | Hc]; [discriminate | lia].
    + apply read_write_other. lia.
Qed.

Lemma write_block_layout_witness :
  (2048 mod 16 = 0 /\ 0 <= 2048 < word_max) /\
  let s' := write_block seeded_arena 4104 2048 false true false in
  read_word s' 4104 = pack 2048 false true false /\
  (false = false -> 16 < 2048 ->
   header_to_footer s' 4104 = 4104 + 2048 - wsize /\
   read_word s' (header_to_footer s' 4104) = read_word s' 4104).
Proof.
  assert (H1 : 2048 mod 16 = 0) by reflexivity.
  assert (H2 : 0 <= 2048 < word_max) by (vm_compute; split; congruence).
  split; [auto|]. cbv zeta.
  pose proof (write_block_layout seeded_arena 4104 2048 false true false
                H1 H2) as (A & B & _).
  auto.
Defined.

(** The words that [mark_free] and [mark_allocated] leave behind. *)
Lemma mark_words (s : state) (b : Z) (alloc : bool) :
  16 <= get_size s b ->
  let size := get_size s b in
  let s1 := write_block s b size alloc (get_prev_alloc s b)
                        (get_prev_mini s b) in
  let s' := update_block s1 (find_next s1 b) (get_size s1 (find_next s1 b))
                         (get_alloc s1 (find_next s1 b)) alloc
                         (if true then size =? min_block_size else false) in
  read_word s' b = pack size alloc (get_prev_alloc s b) (get_prev_mini s b) /\
  read_word s' (b + size)
  = pack (get_size s (b + size)) (get_alloc s (b + size)) alloc (size =? 16) /\
  (alloc = false -> 16 < size ->
   read_word s' (b + size - 8)
   = pack size alloc (get_prev_alloc s b) (get_prev_mini s b)).
Proof.
  intros Hsz size s1 s'.
  pose proof (get_size_mod16 s b) as Hm.
  pose proof (get_size_range s b) as Hr. fold size in Hsz, Hm, Hr.
  assert (Hn : find_next s1 b = b + size)
    by (apply find_next_write_block; assumption).
  assert (Hnw : read_word s1 (b + size) = read_word s (b + size)).
  { apply read_write_block_other; lia. }
  assert (Hgs : get_size s1 (b + size) = get_size s (b + size))
    by (unfold get_size; rewrite Hnw; reflexivity).
  assert (Hga : get_alloc s1 (b + size) = get_alloc s (b + size))
    by (unfold get_alloc; rewrite Hnw; reflexivity).
  unfold s', update_block. rewrite Hn, Hgs, Hga.
  split; [|split].
  - rewrite read_write_other by lia.
    apply read_write_block_header; assumption.
  - apply read_header_written. apply get_size_range.
  - intros -> Hbig. rewrite read_write_other by lia.
    apply read_footer_written; [assumption | mlia].
Qed.

Lemma mark_free_words (s : state) (b : Z) :
  16 <= get_size s b ->
  let size := get_size s b in
  let s' := mark_free s b in
  read_word s' b = pack size false (get_prev_alloc s b) (get_prev_mini s b) /\
  read_word s' (b + size)
  = pack (get_size s (b + size)) (get_alloc s (b + size)) false (size =? 16) /\
  (16 < size ->
   read_word s' (b + size - 8)
   = pack size false (get_prev_alloc s b) (get_prev_mini s b)).
Proof.
  intros Hsz. destruct (mark_words s b false Hsz) as (A & B & C).
  cbv zeta in *. unfold mark_free. cbv zeta. auto.
Qed.

Lemma mark_allocated_words (s : state) (b : Z) :
  16 <= get_size s b ->
  let size := get_size s b in
  let s' := mark_allocated s b in
  read_word s' b = pack size true (get_prev_alloc s b) (get_prev_mini s b) /\
  read_word s' (b + size)
  = pack (get_size s (b + size)) (get_alloc s (b + size)) true (size =? 16).
Proof.
  intros Hsz. destruct (mark_words s b true Hsz) as (A & B & _).
  cbv zeta in *. unfold mark_allocated. cbv zeta. auto.
Qed.

(** X13.  After [free] has marked a block free, [find_prev] of its physical
    successor is that block, through the footer for a normal block and
    through the [prev_mini] flag for a mini block. *)
Theorem freed_block_found_by_successor (s : state) (block : Z) :
  16 <= get_size s block ->
  let s' := mark_free s block in
  find_next s' block = block + get_size s block /\
  find_prev s' (find_next s' block) = block.
Proof.
  intros Hsz s'.
  pose proof (get_size_mod16 s block) as Hm.
  pose proof (get_size_range s block) as Hr.
  destruct (mark_free_words s block Hsz) as (A & B & C). cbv zeta in *.
  fold s' in A, B, C.
  assert (Hn : find_next s' block = block + get_size s block).
  { unfold find_next, get_size at 1. rewrite A.
    rewrite extract_size_pack by assumption. reflexivity. }
  split; [exact Hn|]. rewrite Hn.
  unfold find_prev, get_prev_mini, find_header, find_prev_footer,
    footer_to_header, min_block_size, dsize, wsize. simpl (2 * 8).
  rewrite B. rewrite extract_prev_mini_pack by apply get_size_mod16.
  destruct (Z.eqb_spec (get_size s block) 16) as [E|E]; [lia|].
  rewrite C by mlia.
  rewrite extract_size_pack by assumption.
  destruct (Z.eqb_spec (get_size s block) 0); lia.
Qed.

Lemma freed_block_found_by_successor_witness :
  16 <= get_size neighbours_free 4136 /\
  let s' := mark_free neighbours_free 4136 in
  find_next s' 4136 = 4136 + get_size neighbours_free 4136 /\
  find_prev s' (find_next s' 4136) = 4136.
Proof.
  assert (H : 16 <= get_size neighbours_free 4136)
    by (vm_compute; congruence).
  split; [exact H|]. exact (freed_block_found_by_successor _ _ H).
Defined.

(** X14.  Marking a block allocated or free keeps its size and its own
    [prev_alloc] and [prev_mini] flags, sets its allocation bit, copies that
    bit into the [prev_alloc] flag of the successor and keeps the
    successor's size and allocation bit. *)
Theorem marking_keeps_flags_consistent (s : state) (block : Z) :
  16 <= get_size s block ->
  let next := block + get_size s block in
  (let s' := mark_allocated s block in
   get_alloc s' block = true /\
   get_size s' block = get_size s block /\
   get_prev_alloc s' block = get_prev_alloc s block /\
   get_prev_mini s' block = get_prev_mini s block /\
   get_prev_alloc s' next = get_alloc s' block /\
   get_size s' next = get_size s next /\
   get_alloc s' next = get_alloc s next) /\
  (let s' := mark_free s block in
   get_alloc s' block = false /\
   get_size s' block = get_size s block /\
   get_prev_alloc s' block = get_prev_alloc s block /\
   get_prev_mini s' block = get_prev_mini s block /\
   get_prev_alloc s' next = get_alloc s' block /\
   get_size s' next = get_size s next /\
   get_alloc s' next = get_alloc s next).
Proof.
  intros Hsz next.
  pose proof (get_size_mod16 s block) as Hm.
  pose proof (get_size_range s block) as Hr.
  pose proof (get_size_mod16 s next) as Hm'.
  pose proof (get_size_range s next) as Hr'.
  destruct (mark_allocated_words s block Hsz) as (A1 & A2).
  destruct (mark_free_words s block Hsz) as (B1 & B2 & _).
  cbv zeta in *. fold next in A2, B2.
  unfold get_alloc, get_size, get_prev_alloc, get_prev_mini in *.
  rewrite A1, A2, B1, B2.
  rewrite !extract_size_pack, !extract_alloc_pack, !extract_prev_alloc_pack,
    !extract_prev_mini_pack by assumption.
  repeat split; reflexivity.
Qed.

Lemma marking_keeps_flags_consistent_witness :
  16 <= get_size neighbours_free 4136 /\
  (let s' := mark_free neighbours_free 4136 in
   get_alloc s' 4136 = false /\
   get_size s' 4136 = get_size neighbours_free 4136).
Proof.
  assert (H : 16 <= get_size neighbours_free 4136)
    by (vm_compute; congruence).
  split; [exact H|].
  pose proof (marking_keeps_flags_consistent _ _ H) as (_ & A & B & _).
  auto.
Defined.

(** ** The free lists *)

Lemma insert_facts (s : state) (b : Z) :
  b <> NULL -> b mod 16 = 8 -> heads_ok s ->
  let seg := get_list_index (get_size s b) in
  let s' := insert_normal_or_mini s b in
  segregated_free_list s' =
  list_update (segregated_free_list s) (Z.to_nat seg) b /\
  read_word s' (b + next_link_offset (get_size s b))
  = wrap (list_head s seg).
Proof.
  intros Hb Ha Hh seg s'. unfold s', insert_normal_or_mini, next_link_offset.
  unfold min_block_size, dsize, wsize. simpl (2 * 8).
  pose proof (heads_ok_list_head s seg Hh) as Hp.
  destruct (Z.eqb_spec (get_size s b) 16) as [E|E].
  - assert (Hseg : seg = 0) by (unfold seg; rewrite E; reflexivity).
    rewrite Hseg in *.
    unfold insert_to_mini_free_list, off_next_mini.
    destruct (Z.eqb_spec b NULL); [contradiction|].
    destruct (Z.eqb_spec (list_head s 0) NULL) as [E0|E0].
    + split; [reflexivity|]. rewrite E0.
      apply read_write_same. reflexivity.
    + split; [reflexivity|]. rewrite read_set_list_head.
      apply read_write_same. reflexivity.
  - unfold insert_to_free_list, off_prev, off_next. fold seg.
    destruct (Z.eqb_spec b NULL); [contradiction|].
    destruct (Z.eqb_spec (list_head s seg) NULL) as [E0|E0].
    + split; [reflexivity|]. rewrite E0.
      apply read_write_same. reflexivity.
    + destruct Hp as [Hp|Hp]; [contradiction|].
      split; [reflexivity|]. rewrite read_set_list_head.
      rewrite read_write_other by mlia.
      apply read_write_same. reflexivity.
Qed.

(** X15.  [insert_normal_or_mini] puts the block at the head of the list of its
    size class, leaves the other heads alone, makes the block's next link
    the old head and does not touch the block's header. *)
Theorem insert_puts_block_at_head (s : state) (block : Z) :
  block <> NULL -> block mod 16 = 8 -> heads_ok s ->
  length (segregated_free_list s) = Z.to_nat SEG_LIST_NUM ->
  let seg := get_list_index (get_size s block) in
  0 <= list_head s seg < word_max ->
  let s' := insert_normal_or_mini s block in
  list_head s' seg = block /\
  (forall i, 0 <= i -> i <> seg -> list_head s' i = list_head s i) /\
  read_word s' (block + next_link_offset (get_size s block))
  = list_head s seg /\
  get_size s' block = get_size s block.
Proof.
  intros Hb Ha Hh Hlen seg Hrange s'.
  destruct (insert_facts s block Hb Ha Hh) as (L & N). fold seg s' in L, N.
  pose proof (get_list_index_range (get_size s block)) as Hidx. fold seg in Hidx.
  unfold list_head at 1. rewrite L.
  split; [|split; [|split]].
  - apply nth_list_update_same. rewrite Hlen. unfold SEG_LIST_NUM. lia.
  - intros i Hi Hne. unfold list_head. rewrite L.
    apply nth_list_update_other. lia.
  - rewrite N. apply wrap_small, Hrange.
  - unfold get_size. unfold s'.
    rewrite insert_preserves_header; auto. right. lia.
Qed.

Lemma insert_puts_block_at_head_witness :
  let s := mark_free neighbours_free 4136 in
  let seg := get_list_index (get_size s 4136) in
  (4136 <> NULL /\ 4136 mod 16 = 8 /\ heads_ok s /\
   length (segregated_free_list s) = Z.to_nat SEG_LIST_NUM /\
   0 <= list_head s seg < word_max) /\
  list_head (insert_normal_or_mini s 4136) seg = 4136 /\
  read_word (insert_normal_or_mini s 4136)
            (4136 + next_link_offset (get_size s 4136))
  = list_head s seg.
Proof.
  cbv zeta.
  assert (H1 : 4136 <> NULL) by discriminate.
  assert (H2 : 4136 mod 16 = 8) by reflexivity.
  assert (H3 : heads_ok (mark_free neighbours_free 4136))
    by heads_ok_by_computation.
  assert (H4 : length (segregated_free_list (mark_free neighbours_free 4136))
               = Z.to_nat SEG_LIST_NUM) by (vm_compute; reflexivity).
  assert (H5 : 0 <= list_head (mark_free neighbours_free 4136)
                      (get_list_index
                         (get_size (mark_free neighbours_free 4136) 4136))
               < word_max) by (vm_compute; split; congruence).
  split; [auto|].
  pose proof (insert_puts_block_at_head _ _ H1 H2 H3 H4 H5) as (A & _ & B & _).
  auto.
Defined.

(** X16.  Deleting a block right after inserting it restores every list head
    and keeps the block's size. *)
Theorem delete_undoes_insert (fuel : nat) (s : state) (block : Z) :
  block <> NULL -> block mod 16 = 8 -> heads_ok s ->
  length (segregated_free_list s) = Z.to_nat SEG_LIST_NUM ->
  0 <= list_head s (get_list_index (get_size s block)) < word_max ->
  exists s',
    delete_normal_or_mini fuel (insert_normal_or_mini s block) block
    = Some s' /\
    segregated_free_list s' = segregated_free_list s /\
    get_size s' block = get_size s block.
Proof.
  intros Hb Ha Hh Hlen Hrange.
  set (seg := get_list_index (get_size s block)) in *.
  set (s1 := insert_normal_or_mini s block).
  destruct (insert_facts s block Hb Ha Hh) as (L & N). fold seg s1 in L, N.
  rewrite (wrap_small _ Hrange) in N.
  pose proof (get_list_index_range (get_size s block)) as Hidx. fold seg in Hidx.
  assert (Hsz : get_size s1 block = get_size s block).
  { unfold get_size, s1. rewrite insert_preserves_header; auto. right; lia. }
  assert (Hhead : list_head s1 seg = block).
  { unfold list_head. rewrite L. apply nth_list_update_same.
    rewrite Hlen. unfold SEG_LIST_NUM. lia. }
  assert (Hrestore : forall s2 : state,
             segregated_free_list s2 = segregated_free_list s1 ->
             segregated_free_list (set_list_head s2 seg (list_head s seg))
             = segregated_free_list s).
  { intros s2 E. unfold set_list_head. simpl. rewrite E, L.
    apply list_update_restore. }
  unfold delete_normal_or_mini. rewrite Hsz.
  unfold next_link_offset in N.
  unfold min_block_size, dsize, wsize in *. simpl (2 * 8) in *.
  destruct (Z.eqb_spec (get_size s block) 16) as [E|E].
  - assert (Hseg : seg = 0) by (unfold seg; rewrite E; reflexivity).
    rewrite Hseg in *.
    unfold delete_from_mini_free_list.
    destruct (Z.eqb_spec block NULL); [contradiction|].
    rewrite Hhead.
    destruct (Z.eqb_spec block NULL); [contradiction|].
    rewrite Z.eqb_refl. rewrite N.
    eexists. split; [reflexivity|]. split.
    + apply Hrestore. reflexivity.
    + unfold get_size. rewrite read_set_list_head. exact Hsz.
  - unfold delete_from_free_list. rewrite Hsz. fold seg.
    destruct (Z.eqb_spec block NULL); [contradiction|].
    rewrite Hhead, Z.eqb_refl. rewrite N.
    pose proof (heads_ok_list_head s seg Hh) as Hp.
    destruct (Z.eqb_spec (list_head s seg) NULL) as [E0|E0]; simpl.
    + eexists. split; [reflexivity|]. split.
      * apply Hrestore. reflexivity.
      * unfold get_size. rewrite read_set_list_head. exact Hsz.
    + destruct Hp as [Hp|Hp]; [contradiction|].
      eexists. split; [reflexivity|]. split.
      * apply (Hrestore s1). reflexivity.
      * unfold get_size, off_prev.
        rewrite read_write_other by mlia.
        rewrite read_set_list_head. exact Hsz.
Qed.

Lemma delete_undoes_insert_witness :
  let s := mark_free neighbours_free 4136 in
  (4136 <> NULL /\ 4136 mod 16 = 8 /\ heads_ok s /\
   length (segregated_free_list s) = Z.to_nat SEG_LIST_NUM /\
   0 <= list_head s (get_list_index (get_size s 4136)) < word_max) /\
  exists s',
    delete_normal_or_mini 0 (insert_normal_or_mini s 4136) 4136 = Some s' /\
    segregated_free_list s' = segregated_free_list s /\
    get_size s' 4136 = get_size s 4136.
Proof.
  cbv zeta.
  assert (H1 : 4136 <> NULL) by discriminate.
  assert (H2 : 4136 mod 16 = 8) by reflexivity.
  assert (H3 : heads_ok (mark_free neighbours_free 4136))
    by heads_ok_by_computation.
  assert (H4 : length (segregated_free_list (mark_free neighbours_free 4136))
               = Z.to_nat SEG_LIST_NUM) by (vm_compute; reflexivity).
  assert (H5 : 0 <= list_head (mark_free neighbours_free 4136)
                      (get_list_index
                         (get_size (mark_free neighbours_free 4136) 4136))
               < word_max) by (vm_compute; split; congruence).
  split; [auto|].
  exact (delete_undoes_insert 0 _ _ H1 H2 H3 H4 H5).
Defined.

(** X17.  [delete_from_free_list] on a block that is not the head of its list
    links its predecessor and its successor to each other and changes no
    list head. *)
Theorem delete_unlinks_interior_block (s : state) (block : Z) (s' : state) :
  block <> NULL ->
  list_head s (get_list_index (get_size s block)) <> block ->
  let prev := read_word s (block + off_prev) in
  let next := read_word s (block + off_next) in
  prev mod 16 = 8 -> ptr_ok next ->
  delete_from_free_list s block = Some s' ->
  read_word s' (prev + off_next) = next /\
  (next <> NULL -> read_word s' (next + off_prev) = prev) /\
  segregated_free_list s' = segregated_free_list s.
Proof.
  intros Hb Hhead prev next Hprev Hnext.
  unfold delete_from_free_list.
  destruct (Z.eqb_spec block NULL); [contradiction|].
  destruct (Z.eqb_spec (list_head s (get_list_index (get_size s block))) block);
    [contradiction|].
  fold prev next.
  pose proof (read_word_range s (block + off_prev)) as Rp.
  pose proof (read_word_range s (block + off_next)) as Rn.
  fold prev in Rp. fold next in Rn.
  destruct (Z.eqb_spec prev NULL) as [E|E]; [unfold NULL in E; mlia|].
  unfold off_prev, off_next in *.
  destruct (Z.eqb_spec next NULL) as [En|En]; simpl; intros [= <-].
  - split; [|split; [contradiction | reflexivity]].
    rewrite read_write_same by reflexivity. apply wrap_small, Rn.
  - destruct Hnext as [Hnext|Hnext]; [contradiction|].
    split; [|split; [|reflexivity]].
    + rewrite read_write_other by mlia.
      rewrite read_write_same by reflexivity. apply wrap_small, Rn.
    + intros _. rewrite read_write_same by reflexivity. apply wrap_small, Rp.
Qed.

Lemma delete_unlinks_interior_block_witness :
  let s := neighbours_free in
  let block := 4104 in
  let prev := read_word s (block + off_prev) in
  let next := read_word s (block + off_next) in
  (block <> NULL /\
   list_head s (get_list_index (get_size s block)) <> block /\
   prev mod 16 = 8 /\ ptr_ok next) /\
  match delete_from_free_list s block with
  | Some s' =>
      read_word s' (prev + off_next) = next /\
      (next <> NULL -> read_word s' (next + off_prev) = prev) /\
      segregated_free_list s' = segregated_free_list s
  | None => False
  end.
Proof.
  cbv zeta.
  assert (H1 : 4104 <> NULL) by discriminate.
  assert (H2 : list_head neighbours_free
                 (get_list_index (get_size neighbours_free 4104)) <> 4104)
    by (vm_compute; congruence).
  assert (H3 : read_word neighbours_free (4104 + off_prev) mod 16 = 8)
    by (vm_compute; reflexivity).
  assert (H4 : ptr_ok (read_word neighbours_free (4104 + off_next)))
    by (left; vm_compute; reflexivity).
  split; [auto|].
  destruct (delete_from_free_list neighbours_free 4104) as [s'|] eqn:E.
  - exact (delete_unlinks_interior_block _ _ _ H1 H2 H3 H4 E).
  - assert (X : is_some (delete_from_free_list neighbours_free 4104) = true)
      by (vm_compute; reflexivity).
    rewrite E in X. discriminate X.
Defined.

(** ** Splitting, merging and freeing whole blocks *)

Lemma lists_mark_free (s : state) (b : Z) :
  segregated_free_list (mark_free s b) = segregated_free_list s.
Proof.
  unfold mark_free, update_block. cbv zeta. simpl. apply lists_write_block;
    [apply get_size_mod16 | apply get_size_range].
Qed.

Lemma split_block_words (s : state) (b asize : Z) :
  heads_ok s -> b mod 16 = 8 ->
  asize mod 16 = 0 -> 16 <= asize -> asize + 16 <= get_size s b ->
  let bs := get_size s b in
  let rest := bs - asize in
  let s' := split_block s b asize in
  read_word s' b
  = pack asize true (get_prev_alloc s b) (get_prev_mini s b) /\
  read_word s' (b + asize) = pack rest false true (asize =? 16) /\
  read_word s' (b + bs)
  = pack (get_size s (b + bs)) (get_alloc s (b + bs)) false (rest =? 16) /\
  segregated_free_list s'
  = list_update (segregated_free_list s)
                (Z.to_nat (get_list_index rest)) (b + asize).
Proof.
  intros Hh Hb Ha Ha16 Hfit bs rest s'.
  pose proof (get_size_mod16 s b) as Hm.
  pose proof (get_size_range s b) as Hr.
  fold bs in Hfit, Hm, Hr.
  assert (Hw : wrap (bs - asize) = bs - asize) by (apply wrap_small; lia).
  assert (Hrm : (bs - asize) mod 16 = 0) by mlia.
  subst rest.
  unfold s', split_block. fold bs. rewrite Hw. cbv zeta.
  unfold min_block_size, dsize, wsize. simpl (2 * 8).
  destruct (Z.geb_spec (bs - asize) 16) as [_|]; [|lia].
  rewrite find_next_write_block by (auto; lia).
  set (s1 := write_block s b asize true _ _).
  rewrite find_next_write_block by (auto; lia).
  set (s2 := write_block s1 (b + asize) (bs - asize) false true _).
  replace (b + asize + (bs - asize)) with (b + bs) by lia.
  unfold update_block.
  assert (Hn2 : read_word s2 (b + bs) = read_word s (b + bs)).
  { unfold s2. rewrite read_write_block_other by lia.
    unfold s1. apply read_write_block_other; lia. }
  assert (Hgs : get_size s2 (b + bs) = get_size s (b + bs))
    by (unfold get_size; rewrite Hn2; reflexivity).
  assert (Hga : get_alloc s2 (b + bs) = get_alloc s (b + bs))
    by (unfold get_alloc; rewrite Hn2; reflexivity).
  rewrite Hgs, Hga.
  set (s3 := write_word s2 (b + bs) _).
  assert (Hh3 : heads_ok s3).
  { unfold s3. apply heads_ok_write_word. unfold s2.
    apply heads_ok_write_block. unfold s1. apply heads_ok_write_block, Hh. }
  assert (H3b : read_word s3 b
                = pack asize true (get_prev_alloc s b) (get_prev_mini s b)).
  { unfold s3. rewrite read_write_other by lia.
    unfold s2. rewrite read_write_block_other by lia.
    unfold s1. apply read_write_block_header; auto; lia. }
  assert (H3r : read_word s3 (b + asize)
                = pack (bs - asize) false true (asize =? 16)).
  { unfold s3. rewrite read_write_other by lia.
    unfold s2. apply read_write_block_header; auto; lia. }
  assert (H3n : read_word s3 (b + bs)
                = pack (get_size s (b + bs)) (get_alloc s (b + bs)) false
                       (bs - asize =? 16)).
  { unfold s3. apply read_header_written. apply get_size_range. }
  assert (Hsz3 : get_size s3 (b + asize) = bs - asize).
  { unfold get_size. rewrite H3r. apply extract_size_pack; auto; lia. }
  destruct (insert_facts s3 (b + asize)) as (L & _);
    [unfold NULL; mlia | mlia | exact Hh3 |].
  rewrite Hsz3 in L.
  split; [|split; [|split]].
  - rewrite insert_preserves_header;
      [exact H3b | exact Hh3 | mlia | mlia | right; lia].
  - rewrite insert_preserves_header;
      [exact H3r | exact Hh3 | mlia | mlia | right; lia].
  - rewrite insert_preserves_header;
      [exact H3n | exact Hh3 | mlia | mlia | rewrite Hsz3; lia].
  - rewrite L. unfold s3, s2, s1. simpl.
    rewrite !lists_write_block; auto; lia.
Qed.

(** X18.  When at least 16 bytes are left over, [split_block] cuts the block
    into an allocated block of [asize] bytes and a free remainder with the
    rest of the bytes, sets the [prev_alloc] flags of the remainder and of
    its successor, and puts the remainder at the head of the list of its
    size class. *)
Theorem split_block_partitions (s : state) (block asize : Z) :
  heads_ok s -> block mod 16 = 8 ->
  length (segregated_free_list s) = Z.to_nat SEG_LIST_NUM ->
  asize mod 16 = 0 -> 16 <= asize -> asize + 16 <= get_size s block ->
  let rest := get_size s block - asize in
  let s' := split_block s block asize in
  get_size s' block = asize /\ get_alloc s' block = true /\
  get_size s' (block + asize) = rest /\
  get_alloc s' (block + asize) = false /\
  get_prev_alloc s' (block + asize) = true /\
  get_prev_alloc s' (block + asize + rest) = false /\
  get_size s' (block + asize + rest) = get_size s (block + get_size s block) /\
  list_head s' (get_list_index rest) = block + asize.
Proof.
  intros Hh Hb Hlen Ha Ha16 Hfit rest s'.
  destruct (split_block_words s block asize Hh Hb Ha Ha16 Hfit)
    as (W1 & W2 & W3 & L). cbv zeta in *. fold rest s' in W1, W2, W3, L.
  pose proof (get_size_mod16 s block) as Hm.
  pose proof (get_size_range s block) as Hr.
  assert (Hrm : rest mod 16 = 0) by (unfold rest; mlia).
  assert (Hrr : 0 <= rest < word_max) by (unfold rest; lia).
  replace (block + asize + rest) with (block + get_size s block)
    by (unfold rest; lia).
  pose proof (get_size_mod16 s (block + get_size s block)) as Hnm.
  pose proof (get_size_range s (block + get_size s block)) as Hnr.
  split; [unfold get_size at 1; rewrite W1;
          apply extract_size_pack; auto; lia|].
  split; [unfold get_alloc; rewrite W1; apply extract_alloc_pack; auto|].
  split; [unfold get_size at 1; rewrite W2;
          apply extract_size_pack; auto|].
  split; [unfold get_alloc; rewrite W2; apply extract_alloc_pack; auto|].
  split; [unfold get_prev_alloc; rewrite W2;
          apply extract_prev_alloc_pack; auto|].
  split; [unfold get_prev_alloc; rewrite W3;
          apply extract_prev_alloc_pack; auto|].
  split; [unfold get_size at 1; rewrite W3;
          apply extract_size_pack; auto|].
  unfold list_head. rewrite L. apply nth_list_update_same.
  pose proof (get_list_index_range rest). rewrite Hlen.
  unfold SEG_LIST_NUM. lia.
Qed.

Lemma split_block_partitions_witness :
  let s := seeded_arena in
  let s' := split_block s 4104 48 in
  (heads_ok s /\ 4104 mod 16 = 8 /\
   length (segregated_free_list s) = Z.to_nat SEG_LIST_NUM /\
   48 mod 16 = 0 /\ 16 <= 48 /\ 48 + 16 <= get_size s 4104) /\
  get_size s' 4104 = 48 /\ get_alloc s' 4104 = true /\
  get_size s' (4104 + 48) = get_size s 4104 - 48 /\
  get_alloc s' (4104 + 48) = false.
Proof.
  cbv zeta.
  assert (H1 : heads_ok seeded_arena) by heads_ok_by_computation.
  assert (H2 : length (segregated_free_list seeded_arena)
               = Z.to_nat SEG_LIST_NUM) by (vm_compute; reflexivity).
  assert (H3 : 48 + 16 <= get_size seeded_arena 4104)
    by (vm_compute; congruence).
  split; [repeat split; auto; lia|].
  pose proof (split_block_partitions seeded_arena 4104 48 H1 eq_refl H2
                eq_refl ltac:(lia) H3) as (A & B & C & D & _).
  auto.
Defined.

Lemma merge_result_header (s : state) (block size : Z) (pa pm : bool) :
  heads_ok s -> block mod 16 = 8 ->
  size mod 16 = 0 -> 32 <= size < word_max ->
  read_word (merge_result s block size pa pm) block = pack size false pa pm.
Proof.
  intros Hh Hb Hm Hr. unfold merge_result, update_block. cbv zeta.
  set (s1 := write_block s block size false pa pm).
  set (s2 := insert_normal_or_mini s1 block).
  assert (Hh1 : heads_ok s1) by (apply heads_ok_write_block, Hh).
  assert (H2 : read_word s2 block = pack size false pa pm).
  { unfold s2. rewrite insert_preserves_header; auto; [|right; lia].
    unfold s1. apply read_write_block_header; auto; lia. }
  assert (Hn : find_next s2 block = block + size).
  { unfold find_next, get_size. rewrite H2, extract_size_pack by (auto; lia).
    reflexivity. }
  rewrite Hn. rewrite read_write_other by lia. exact H2.
Qed.

Lemma merge_result_head (s : state) (block size : Z) (pa pm : bool) :
  heads_ok s ->
  length (segregated_free_list s) = Z.to_nat SEG_LIST_NUM ->
  block mod 16 = 8 -> size mod 16 = 0 -> 32 <= size < word_max ->
  list_head (merge_result s block size pa pm) (get_list_index size) = block.
Proof.
  intros Hh Hlen Hb Hm Hr. unfold merge_result, update_block. cbv zeta.
  rewrite list_head_write_word.
  set (s1 := write_block s block size false pa pm).
  assert (Hh1 : heads_ok s1) by (apply heads_ok_write_block, Hh).
  assert (Hs1 : get_size s1 block = size).
  { unfold get_size, s1. rewrite read_write_block_header by (auto; lia).
    apply extract_size_pack; auto; lia. }
  assert (Hbn : block <> NULL)
    by (unfold NULL; intros E; rewrite E in Hb; discriminate Hb).
  destruct (insert_facts s1 block Hbn Hb Hh1) as [Hl _].
  cbv zeta in Hl. rewrite Hs1 in Hl.
  unfold list_head. rewrite Hl. unfold s1.
  rewrite lists_write_block by (auto; lia).
  apply nth_list_update_same.
  pose proof (get_list_index_range size). rewrite Hlen.
  unfold SEG_LIST_NUM. lia.
Qed.

(** X19.  In a heap that is well formed around a free block,
    [coalesce_block] returns a free block that starts at the free
    predecessor (or at the block itself), whose size is the sum of the
    sizes of the block and of its free neighbours, which ends where the
    last of them ended, and which is the head of the list of its size
    class. *)
Theorem coalesce_merges_free_neighbours
        (fuel : nat) (s : state) (block : Z) :
  coalesce_ready fuel s block ->
  get_alloc s block = false ->
  let merged := merged_block s block in
  exists s',
    coalesce_block fuel s block = Some (s', merged) /\
    get_alloc s' merged = false /\
    get_size s' merged = merged_size s block /\
    find_next s' merged
    = (if get_alloc s (find_next s block) then find_next s block
       else find_next s (find_next s block)) /\
    list_head s' (get_list_index (merged_size s block)) = merged.
Proof.
  intros Hready Hfree. cbv zeta.
  destruct (coalesce_ready_merged fuel s block Hready)
    as (Hma & Hmm & Hmr & Hm32 & Hend).
  pose proof Hready as (Hb & Hsz & Hh & Hlen & _).
  destruct (coalesce_block_runs fuel s block Hready)
    as [[Hc Hrun] | (Hc & s2 & Hh2 & Hl2 & Hrun)].
  - apply andb_prop in Hc. destruct Hc as [Ep En].
    exists (insert_normal_or_mini s block).
    unfold merged_block, merged_size in *. rewrite Ep, En in *.
    replace (0 + get_size s block + 0) with (get_size s block) in * by lia.
    assert (Hw : read_word (insert_normal_or_mini s block) block
                 = read_word s block).
    { apply insert_preserves_header; auto. right. lia. }
    assert (Hbn : block <> NULL)
      by (unfold NULL; intros E; rewrite E in Hb; discriminate Hb).
    destruct (insert_facts s block Hbn Hb Hh) as [Hl _]. cbv zeta in Hl.
    assert (Hsame : get_size (insert_normal_or_mini s block) block
                    = get_size s block).
    { unfold get_size. rewrite Hw. reflexivity. }
    split; [exact Hrun|].
    split; [unfold get_alloc in *; rewrite Hw; exact Hfree|].
    split; [exact Hsame|].
    split; [unfold find_next; rewrite Hsame; reflexivity|].
    unfold list_head. rewrite Hl. apply nth_list_update_same.
    pose proof (get_list_index_range (get_size s block)).
    rewrite Hlen. unfold SEG_LIST_NUM. lia.
  - specialize (Hm32 Hc).
    eexists. split; [exact Hrun|].
    set (s' := merge_result s2 _ _ _ _).
    assert (Hhd : read_word s' (merged_block s block)
                  = pack (merged_size s block) false
                         (get_prev_alloc s (merged_block s block))
                         (get_prev_mini s (merged_block s block))).
    { apply merge_result_header; auto; lia. }
    assert (Hs : get_size s' (merged_block s block) = merged_size s block).
    { unfold get_size. rewrite Hhd. apply extract_size_pack; auto; lia. }
    split; [unfold get_alloc; rewrite Hhd; apply extract_alloc_pack; auto; lia|].
    split; [exact Hs|].
    split; [unfold find_next; rewrite Hs; exact Hend|].
    apply merge_result_head; auto; lia.
Qed.

Lemma middle_freed_ready :
  coalesce_ready 8 middle_freed (payload_to_header middle_payload).
Proof. vm_compute. settle. Qed.

Lemma coalesce_merges_free_neighbours_witness :
  let s := middle_freed in
  let block := payload_to_header middle_payload in
  (coalesce_ready 8 s block /\ get_alloc s block = false) /\
  let merged := merged_block s block in
  exists s',
    coalesce_block 8 s block = Some (s', merged) /\
    get_alloc s' merged = false /\
    get_size s' merged = merged_size s block /\
    find_next s' merged
    = (if get_alloc s (find_next s block) then find_next s block
       else find_next s (find_next s block)) /\
    list_head s' (get_list_index (merged_size s block)) = merged.
Proof.
  cbv zeta.
  assert (Hfree : get_alloc middle_freed (payload_to_header middle_payload)
                  = false) by (vm_compute; reflexivity).
  split; [split; [exact middle_freed_ready | exact Hfree]|].
  exact (coalesce_merges_free_neighbours 8 _ _ middle_freed_ready Hfree).
Defined.

(** X20.  Freeing a block between two allocated blocks marks it free with its
    size unchanged, puts it at the head of the list of its size class and
    clears the [prev_alloc] flag of its successor. *)
Theorem free_between_allocated_blocks (fuel : nat) (s : state) (bp : Z) :
  let block := payload_to_header bp in
  let size := get_size s block in
  bp <> NULL -> block mod 16 = 8 -> 16 <= size ->
  heads_ok s ->
  length (segregated_free_list s) = Z.to_nat SEG_LIST_NUM ->
  get_prev_alloc s block = true ->
  get_alloc s (block + size) = true ->
  exists s',
    free fuel s bp = Some s' /\
    get_alloc s' block = false /\
    get_size s' block = size /\
    list_head s' (get_list_index size) = block /\
    get_prev_alloc s' (block + size) = false /\
    get_prev_mini s' (block + size) = (size =? 16).
Proof.
  intros block size Hbp Hb Hsz Hh Hlen Hpa Hna.
  pose proof (get_size_mod16 s block) as Hm.
  pose proof (get_size_range s block) as Hr. fold size in Hm, Hr.
  pose proof (get_size_mod16 s (block + size)) as Hnm.
  pose proof (get_size_range s (block + size)) as Hnr.
  destruct (mark_free_words s block Hsz) as (W1 & W2 & _).
  cbv zeta in W1, W2. fold size in W1, W2.
  set (s1 := mark_free s block) in *.
  assert (Hh1 : heads_ok s1).
  { unfold heads_ok, s1. rewrite lists_mark_free. exact Hh. }
  assert (Hsz1 : get_size s1 block = size).
  { unfold get_size at 1. rewrite W1. apply extract_size_pack; auto. }
  assert (Hrun : coalesce_block fuel s1 block
                 = Some (insert_normal_or_mini s1 block, block)).
  { unfold coalesce_block. cbv zeta. unfold find_next. rewrite Hsz1.
    unfold get_prev_alloc, get_alloc. rewrite W1, W2.
    rewrite extract_prev_alloc_pack, extract_alloc_pack by auto.
    rewrite Hpa, Hna. reflexivity. }
  exists (insert_normal_or_mini s1 block).
  assert (Hblock : block <> NULL) by (unfold NULL; mlia).
  destruct (insert_facts s1 block Hblock Hb Hh1) as (L & _).
  rewrite Hsz1 in L.
  assert (Hw1 : read_word (insert_normal_or_mini s1 block) block
                = read_word s1 block).
  { apply insert_preserves_header; auto. right; lia. }
  assert (Hw2 : read_word (insert_normal_or_mini s1 block) (block + size)
                = read_word s1 (block + size)).
  { apply insert_preserves_header; auto; [mlia|].
    rewrite Hsz1. lia. }
  split.
  { unfold free. destruct (Z.eqb_spec bp NULL); [contradiction|].
    fold block. fold s1. rewrite Hrun. reflexivity. }
  unfold get_alloc, get_size at 1, get_prev_alloc, get_prev_mini.
  rewrite Hw1, Hw2, W1, W2.
  rewrite extract_alloc_pack, extract_size_pack, extract_prev_alloc_pack,
    extract_prev_mini_pack by auto.
  repeat split; auto.
  unfold list_head. rewrite L. apply nth_list_update_same.
  pose proof (get_list_index_range size).
  unfold s1. rewrite lists_mark_free, Hlen. unfold SEG_LIST_NUM. lia.
Qed.

Lemma free_between_allocated_blocks_witness :
  let s := three_live_blocks in
  let bp := 4144 in
  let block := payload_to_header bp in
  let size := get_size s block in
  (bp <> NULL /\ block mod 16 = 8 /\ 16 <= size /\ heads_ok s /\
   length (segregated_free_list s) = Z.to_nat SEG_LIST_NUM /\
   get_prev_alloc s block = true /\ get_alloc s (block + size) = true) /\
  exists s',
    free 0 s bp = Some s' /\
    get_alloc s' block = false /\
    get_size s' block = size /\
    list_head s' (get_list_index size) = block /\
    get_prev_alloc s' (block + size) = false /\
    get_prev_mini s' (block + size) = (size =? 16).
Proof.
  cbv zeta.
  assert (H1 : 4144 <> NULL) by discriminate.
  assert (H2 : payload_to_header 4144 mod 16 = 8) by reflexivity.
  assert (H3 : 16 <= get_size three_live_blocks (payload_to_header 4144))
    by (vm_compute; congruence).
  assert (H4 : heads_ok three_live_blocks) by heads_ok_by_computation.
  assert (H5 : length (segregated_free_list three_live_blocks)
               = Z.to_nat SEG_LIST_NUM) by (vm_compute; reflexivity).
  assert (H6 : get_prev_alloc three_live_blocks (payload_to_header 4144)
               = true) by (vm_compute; reflexivity).
  assert (H7 : get_alloc three_live_blocks
                 (payload_to_header 4144
                  + get_size three_live_blocks (payload_to_header 4144))
               = true) by (vm_compute; reflexivity).
  split; [repeat split; auto|].
  exact (free_between_allocated_blocks 0 _ _ H1 H2 H3 H4 H5 H6 H7).
Defined.

Lemma same_arena_extend_heap_init (s : state) (bp size : Z) :
  same_arena s (extend_heap_init s bp size).
Proof.
  unfold extend_heap_init, write_epilogue. cbv zeta.
  eapply same_arena_trans; [apply same_arena_write_block|].
  apply same_arena_write_word.
Qed.

(** [extend_heap] behind an allocated last block: the state it returns. *)
Lemma extend_heap_behind_allocated (fuel : nat) (s : state) (size : Z) :
  let bp := mem_brk s in
  let block := payload_to_header bp in
  let asize := round_up size dsize in
  16 <= asize < 2 ^ 63 ->
  bp + asize <= mem_max_addr s ->
  get_prev_alloc s block = true ->
  let s1 := extend_heap_init (set_brk s (bp + asize)) bp asize in
  extend_heap fuel s size = Some (insert_normal_or_mini s1 block, block) /\
  read_word s1 block = pack asize false true (get_prev_mini s block) /\
  read_word s1 (block + asize) = pack 0 true false (asize =? 16) /\
  segregated_free_list s1 = segregated_free_list s /\
  (forall x, x + 8 <= block -> read_word s1 x = read_word s x).
Proof.
  intros bp block asize Hsz Hfit Hpa s1.
  assert (Hm : asize mod 16 = 0) by apply round_up_16_mod.
  assert (Hr : 0 <= asize < word_max) by apply round_up_16_range.
  assert (Hsbrk : mem_sbrk s (to_signed asize)
                  = Some (set_brk s (bp + asize), bp)).
  { unfold mem_sbrk, to_signed.
    destruct (Z.ltb_spec asize (2 ^ 63)); [|lia].
    destruct (Z.ltb_spec asize 0); [lia|].
    rewrite Z.gtb_ltb.
    destruct (Z.ltb_spec (mem_max_addr s) (mem_brk s + asize));
      [unfold bp in Hfit; lia | reflexivity]. }
  set (s0 := set_brk s (bp + asize)) in *.
  assert (Hread0 : forall x, read_word s0 x = read_word s x)
    by reflexivity.
  assert (Hinit : s1 = write_word
                         (write_block s0 block asize false true
                                      (get_prev_mini s block))
                         (block + asize) (pack 0 true false (asize =? 16))).
  { unfold s1, extend_heap_init, write_epilogue. cbv zeta. fold block.
    rewrite find_next_write_block by assumption.
    unfold get_prev_alloc, get_prev_mini. rewrite !Hread0.
    fold (get_prev_alloc s block). rewrite Hpa.
    unfold min_block_size, dsize, wsize. reflexivity. }
  assert (W1 : read_word s1 block
               = pack asize false true (get_prev_mini s block)).
  { rewrite Hinit. rewrite read_write_other by lia.
    apply read_write_block_header; assumption. }
  assert (W2 : read_word s1 (block + asize)
               = pack 0 true false (asize =? 16)).
  { rewrite Hinit. apply read_header_written. unfold word_max. lia. }
  split; [|split; [exact W1 | split; [exact W2 | split]]].
  - unfold extend_heap. fold asize. rewrite Hsbrk. fold block. fold s0 s1.
    unfold coalesce_block. cbv zeta.
    unfold find_next, get_size at 1, get_prev_alloc, get_alloc.
    rewrite W1. rewrite extract_size_pack, extract_prev_alloc_pack by assumption.
    rewrite W2. rewrite extract_alloc_pack by reflexivity. reflexivity.
  - rewrite Hinit. simpl. rewrite lists_write_block by assumption.
    reflexivity.
  - intros x Hx. rewrite Hinit. rewrite read_write_other by lia.
    rewrite read_write_block_other by lia. apply Hread0.
Qed.

(** X21.  Behind an allocated last block, a successful [extend_heap] turns the
    old epilogue into the header of a free block of the rounded size, writes
    a new epilogue behind it, moves the break by that size and puts the
    block at the head of the list of its size class. *)
Theorem extend_heap_adds_free_block (fuel : nat) (s : state) (size : Z) :
  let bp := mem_brk s in
  let block := payload_to_header bp in
  let asize := round_up size dsize in
  bp mod 16 = 0 ->
  16 <= asize < 2 ^ 63 ->
  bp + asize <= mem_max_addr s ->
  get_prev_alloc s block = true ->
  heads_ok s ->
  length (segregated_free_list s) = Z.to_nat SEG_LIST_NUM ->
  exists s',
    extend_heap fuel s size = Some (s', block) /\
    mem_brk s' = bp + asize /\
    get_size s' block = asize /\ get_alloc s' block = false /\
    get_prev_alloc s' block = true /\
    read_word s' (block + asize) = pack 0 true false (asize =? 16) /\
    list_head s' (get_list_index asize) = block.
Proof.
  intros bp block asize Hbp Hsz Hfit Hpa Hh Hlen.
  destruct (extend_heap_behind_allocated fuel s size Hsz Hfit Hpa)
    as (Hrun & W1 & W2 & L1 & _).
  fold bp block asize in Hrun, W1, W2, L1.
  set (s1 := extend_heap_init (set_brk s (bp + asize)) bp asize) in *.
  assert (Hm : asize mod 16 = 0) by apply round_up_16_mod.
  assert (Hr : 0 <= asize < word_max) by apply round_up_16_range.
  assert (Hb : block mod 16 = 8) by (unfold block, payload_to_header, off_payload; mlia).
  assert (Hh1 : heads_ok s1) by (unfold heads_ok; rewrite L1; exact Hh).
  assert (Hsz1 : get_size s1 block = asize).
  { unfold get_size. rewrite W1. apply extract_size_pack; assumption. }
  assert (Hblock : block <> NULL) by (unfold NULL; mlia).
  destruct (insert_facts s1 block Hblock Hb Hh1) as (L & _).
  rewrite Hsz1 in L.
  exists (insert_normal_or_mini s1 block).
  split; [exact Hrun|].
  split.
  { destruct (same_arena_insert s1 block) as (B & _). rewrite B.
    destruct (same_arena_extend_heap_init
                (set_brk s (bp + asize)) bp asize) as (B' & _).
    fold s1 in B'. rewrite B'. reflexivity. }
  assert (Hw1 : read_word (insert_normal_or_mini s1 block) block
                = read_word s1 block).
  { apply insert_preserves_header; auto. right; lia. }
  assert (Hw2 : read_word (insert_normal_or_mini s1 block) (block + asize)
                = read_word s1 (block + asize)).
  { apply insert_preserves_header; auto; [mlia|]. rewrite Hsz1. lia. }
  unfold get_size at 1, get_alloc, get_prev_alloc.
  rewrite Hw1, Hw2, W1, W2.
  rewrite extract_size_pack, extract_alloc_pack, extract_prev_alloc_pack
    by assumption.
  repeat split; auto.
  unfold list_head. rewrite L. apply nth_list_update_same.
  pose proof (get_list_index_range asize).
  rewrite L1, Hlen. unfold SEG_LIST_NUM. lia.
Qed.

Lemma extend_heap_adds_free_block_witness :
  let s := three_live_blocks in
  let s0 := fst (match malloc 0 s 1936 with
                 | Some r => r | None => (s, NULL) end) in
  let bp := mem_brk s0 in
  let block := payload_to_header bp in
  let asize := round_up 4096 dsize in
  (bp mod 16 = 0 /\ 16 <= asize < 2 ^ 63 /\ bp + asize <= mem_max_addr s0 /\
   get_prev_alloc s0 block = true /\ heads_ok s0 /\
   length (segregated_free_list s0) = Z.to_nat SEG_LIST_NUM) /\
  exists s',
    extend_heap 0 s0 4096 = Some (s', block) /\
    mem_brk s' = bp + asize /\
    get_size s' block = asize /\ get_alloc s' block = false /\
    get_prev_alloc s' block = true /\
    read_word s' (block + asize) = pack 0 true false (asize =? 16) /\
    list_head s' (get_list_index asize) = block.
Proof.
  cbv zeta.
  set (s0 := fst (match malloc 0 three_live_blocks 1936 with
                  | Some r => r | None => (three_live_blocks, NULL) end)).
  assert (H1 : mem_brk s0 mod 16 = 0) by (vm_compute; reflexivity).
  assert (H2 : 16 <= round_up 4096 dsize < 2 ^ 63)
    by (vm_compute; split; congruence).
  assert (H3 : mem_brk s0 + round_up 4096 dsize <= mem_max_addr s0)
    by (vm_compute; congruence).
  assert (H4 : get_prev_alloc s0 (payload_to_header (mem_brk s0)) = true)
    by (vm_compute; reflexivity).
  assert (H5 : heads_ok s0) by heads_ok_by_computation.
  assert (H6 : length (segregated_free_list s0) = Z.to_nat SEG_LIST_NUM)
    by (vm_compute; reflexivity).
  split; [repeat split; auto; apply H2|].
  exact (extend_heap_adds_free_block 0 s0 4096 H1 H2 H3 H4 H5 H6).
Defined.

(** X22.  On an arena with room for 16 + 2048 bytes at a 16-aligned break,
    [mm_init] succeeds: prologue, one free block of [chunksize] bytes whose
    header is [heap_start], and epilogue; every list is empty except the one
    of that block. *)
Theorem mm_init_seeds_heap (fuel : nat) (s : state) :
  let base := mem_brk s in
  base mod 16 = 0 ->
  0 <= base ->
  base + 2 * wsize + chunksize <= mem_max_addr s ->
  exists s',
    mm_init fuel s = Some (s', true) /\
    heap_start s' = base + wsize /\
    mem_brk s' = base + 2 * wsize + chunksize /\
    read_word s' base = pack 0 true true false /\
    read_word s' (heap_start s') = pack chunksize false true false /\
    read_word s' (heap_start s' + chunksize) = pack 0 true false false /\
    (forall i, 0 <= i ->
       list_head s' i
       = if i =? get_list_index chunksize then heap_start s' else NULL).
Proof.
  intros base Hbase Hpos Hfit.
  unfold wsize in *. change chunksize with 2048 in *. simpl (2 * 8) in *.
  unfold mm_init. cbv zeta.
  set (sL := set_lists s (repeat NULL (Z.to_nat SEG_LIST_NUM))).
  assert (Hsbrk : mem_sbrk sL (2 * wsize) = Some (set_brk sL (base + 16), base)).
  { unfold mem_sbrk, wsize. simpl (2 * 8). simpl (mem_brk sL). simpl (mem_max_addr sL).
    fold base.
    destruct (Z.ltb_spec 16 0); [lia|]. rewrite Z.gtb_ltb.
    destruct (Z.ltb_spec (mem_max_addr s) (base + 16)); [lia | reflexivity]. }
  rewrite Hsbrk. unfold wsize.
  set (sA := set_heap_start
               (write_word
                  (write_word (set_brk sL (base + 16)) base
                              (pack 0 true true false))
                  (base + 8) (pack 0 true true false)) (base + 8)).
  assert (HwA1 : read_word sA base = pack 0 true true false).
  { unfold sA. change (read_word (set_heap_start ?t _) ?x) with (read_word t x).
    rewrite read_write_other by lia.
    apply read_header_written. unfold word_max. lia. }
  assert (HwA2 : read_word sA (base + 8) = pack 0 true true false).
  { unfold sA. change (read_word (set_heap_start ?t _) ?x) with (read_word t x).
    apply read_header_written. unfold word_max. lia. }
  assert (Hru : round_up 2048 dsize = 2048) by reflexivity.
  destruct (extend_heap_behind_allocated fuel sA 2048) as (Hrun & W1 & W2 & L1 & Fr).
  { rewrite Hru. lia. }
  { rewrite Hru. simpl (mem_brk sA). simpl (mem_max_addr sA). lia. }
  { unfold get_prev_alloc. simpl (mem_brk sA).
    unfold payload_to_header, off_payload.
    replace (base + 16 - 8) with (base + 8) by lia.
    rewrite HwA2. reflexivity. }
  rewrite Hru in *. simpl (mem_brk sA) in *.
  unfold payload_to_header, off_payload in *.
  replace (base + 16 - 8) with (base + 8) in * by lia.
  change chunksize with 2048. rewrite Hrun.
  destruct (Z.eqb_spec (base + 8) NULL) as [E|E]; [unfold NULL in E; lia|].
  set (s1 := extend_heap_init (set_brk sA (base + 16 + 2048)) (base + 16) 2048) in *.
  assert (Hpm : get_prev_mini sA (base + 8) = false).
  { unfold get_prev_mini. rewrite HwA2. reflexivity. }
  rewrite Hpm in W1.
  assert (Hsz1 : get_size s1 (base + 8) = 2048).
  { unfold get_size. rewrite W1. reflexivity. }
  assert (HL1 : segregated_free_list s1 = repeat NULL (Z.to_nat SEG_LIST_NUM))
    by (rewrite L1; reflexivity).
  assert (Hinsert : insert_normal_or_mini s1 (base + 8)
                    = write_word
                        (write_word (set_list_head s1 6 (base + 8))
                                    (base + 8 + 8) NULL)
                        (base + 8 + 16) NULL).
  { unfold insert_normal_or_mini. rewrite Hsz1.
    unfold insert_to_free_list. rewrite Hsz1.
    destruct (Z.eqb_spec (base + 8) NULL); [contradiction|].
    change (get_list_index 2048) with 6.
    unfold list_head. rewrite HL1. reflexivity. }
  eexists. split; [reflexivity|].
  rewrite Hinsert.
  split; [reflexivity|].
  split.
  { change (mem_brk s1 = base + 16 + 2048).
    destruct (same_arena_extend_heap_init
                (set_brk sA (base + 16 + 2048)) (base + 16) 2048) as (B' & _).
    fold s1 in B'. rewrite B'. reflexivity. }
  change (heap_start _) with (base + 8).
  split.
  { rewrite !read_write_other by lia. rewrite read_set_list_head.
    rewrite Fr by lia. exact HwA1. }
  split.
  { rewrite !read_write_other by lia. rewrite read_set_list_head. exact W1. }
  split.
  { rewrite !read_write_other by lia. rewrite read_set_list_head. exact W2. }
  intros i Hi. 
  change (list_head (write_word (write_word ?t _ _) _ _) i) with (list_head t i).
  change (get_list_index 2048) with 6.
  destruct (Z.eqb_spec i 6) as [-> | Hne].
  - apply list_head_set_same. rewrite HL1. simpl. lia.
  - rewrite list_head_set_other by lia.
    unfold list_head. rewrite HL1.
    destruct (nth_in_or_default (Z.to_nat i)
                (repeat NULL (Z.to_nat SEG_LIST_NUM)) NULL) as [Hin | Ed];
      [exact (repeat_spec _ _ _ Hin) | exact Ed].
Qed.

Lemma mm_init_seeds_heap_witness :
  let s := fresh_arena 4096 1048576 in
  (mem_brk s mod 16 = 0 /\ 0 <= mem_brk s /\
   mem_brk s + 2 * wsize + chunksize <= mem_max_addr s) /\
  exists s',
    mm_init 0 s = Some (s', true) /\
    heap_start s' = mem_brk s + wsize /\
    mem_brk s' = mem_brk s + 2 * wsize + chunksize /\
    read_word s' (mem_brk s) = pack 0 true true false /\
    read_word s' (heap_start s') = pack chunksize false true false /\
    read_word s' (heap_start s' + chunksize) = pack 0 true false false /\
    (forall i, 0 <= i ->
       list_head s' i
       = if i =? get_list_index chunksize then heap_start s' else NULL).
Proof.
  cbv zeta.
  assert (H1 : mem_brk (fresh_arena 4096 1048576) mod 16 = 0) by reflexivity.
  assert (H2 : 0 <= mem_brk (fresh_arena 4096 1048576))
    by (vm_compute; congruence).
  assert (H3 : mem_brk (fresh_arena 4096 1048576) + 2 * wsize + chunksize
               <= mem_max_addr (fresh_arena 4096 1048576))
    by (vm_compute; congruence).
  split; [auto|].
  exact (mm_init_seeds_heap 0 _ H1 H2 H3).
Defined.

(** X23.  On an initialised allocator [calloc] with element size zero returns
    [NULL] and leaves the state as it is. *)
Theorem calloc_zero_size (fuel : nat) (s : state) (elements : Z) :
  heap_start s <> NULL -> elements <> 0 ->
  calloc fuel s elements 0 = Some (s, NULL).
Proof.
  intros Hinit He. unfold calloc. rewrite Z.mul_0_r.
  change (wrap 0) with 0.
  destruct (Z.eqb_spec elements 0); [contradiction|].
  rewrite Z.div_0_l by exact He. simpl.
  rewrite malloc_initialized by exact Hinit. reflexivity.
Qed.

Lemma calloc_zero_size_witness :
  (heap_start seeded_arena <> NULL /\ 5 <> 0) /\
  calloc 0 seeded_arena 5 0 = Some (seeded_arena, NULL).
Proof.
  assert (H1 : heap_start seeded_arena <> NULL) by (vm_compute; congruence).
  assert (H2 : 5 <> 0) by discriminate.
  split; [auto|]. exact (calloc_zero_size 0 _ 5 H1 H2).
Defined.

Lemma mini_walk_finds_predecessor (fuel : nat) (s : state) (block : Z) :
  forall prev p,
    mini_walk fuel s prev (read_word s (prev + off_next_mini)) block = Some p ->
    read_word s (p + off_next_mini) = block.
Proof.
  induction fuel as [|fuel IH]; intros prev p H; [discriminate|].
  simpl in H.
  destruct (Z.eqb_spec (read_word s (prev + off_next_mini)) block) as [E|E].
  - injection H as <-. exact E.
  - destruct (_ =? NULL); [discriminate|]. eapply IH, H.
Qed.

(** X24.  [delete_from_mini_free_list] does nothing on an empty list, moves the
    head to the block's successor when the block is the head, and otherwise
    makes the predecessor found by the walk point to the block's
    successor. *)
Theorem delete_from_mini_list_unlinks
        (fuel : nat) (s : state) (block : Z) (s' : state) :
  block <> NULL ->
  delete_from_mini_free_list fuel s block = Some s' ->
  (list_head s 0 = NULL -> s' = s) /\
  (list_head s 0 = block ->
   list_head s' 0 = read_word s (block + off_next_mini)) /\
  (list_head s 0 <> NULL -> list_head s 0 <> block ->
   exists prev,
     read_word s (prev + off_next_mini) = block /\
     read_word s' (prev + off_next_mini)
     = read_word s (block + off_next_mini) /\
     segregated_free_list s' = segregated_free_list s).
Proof.
  intros Hb. unfold delete_from_mini_free_list.
  destruct (Z.eqb_spec block NULL); [contradiction|].
  destruct (Z.eqb_spec (list_head s 0) NULL) as [E0|E0].
  - intros [= <-]. split; [reflexivity|].
    split; [congruence | contradiction].
  - destruct (Z.eqb_spec (list_head s 0) block) as [E1|E1].
    + intros [= <-]. split; [contradiction|]. split; [|contradiction].
      intros _. unfold list_head, set_list_head in *. simpl in *.
      destruct (segregated_free_list s) as [|h t]; [|reflexivity].
      simpl in E1. congruence.
    + destruct (mini_walk fuel s _ _ block) as [prev|] eqn:W; [|discriminate].
      intros [= <-]. split; [contradiction|]. split; [contradiction|].
      intros _ _. exists prev.
      split; [eapply mini_walk_finds_predecessor, W|].
      split; [|reflexivity].
      rewrite read_write_same by reflexivity.
      apply wrap_small, read_word_range.
Qed.

Lemma delete_from_mini_list_unlinks_witness :
  let s := two_free_minis in
  let block := 4104 in
  (block <> NULL /\ list_head s 0 <> NULL /\ list_head s 0 <> block) /\
  match delete_from_mini_free_list 4 s block with
  | Some s' =>
      exists prev,
        read_word s (prev + off_next_mini) = block /\
        read_word s' (prev + off_next_mini)
        = read_word s (block + off_next_mini) /\
        segregated_free_list s' = segregated_free_list s
  | None => False
  end.
Proof.
  cbv zeta.
  assert (H1 : 4104 <> NULL) by discriminate.
  assert (H2 : list_head two_free_minis 0 <> NULL) by (vm_compute; congruence).
  assert (H3 : list_head two_free_minis 0 <> 4104) by (vm_compute; congruence).
  split; [auto|].
  destruct (delete_from_mini_free_list 4 two_free_minis 4104) as [s'|] eqn:E.
  - exact (proj2 (proj2 (delete_from_mini_list_unlinks 4 _ _ _ H1 E)) H2 H3).
  - assert (X : is_some (delete_from_mini_free_list 4 two_free_minis 4104)
                = true) by (vm_compute; reflexivity).
    rewrite E in X. discriminate X.
Defined.

(** X25.  [calloc] returns [NULL] for a count of zero and for a product
    that does not fit a [size_t], and passes a [NULL] of [malloc] on.  When
    [malloc] returns a block, [calloc] zeroes the [count * size] bytes from
    its payload on and changes nothing else, provided these bytes lie in
    the arena; when they do not, the [memset] leaves the arena and the call
    faults. *)
Theorem calloc_zeroes_block (fuel : nat) (s : state) (elements size : Z) :
  0 <= elements < word_max ->
  0 <= size < word_max ->
  (elements = 0 -> calloc fuel s elements size = Some (s, NULL)) /\
  (word_max <= elements * size ->
   calloc fuel s elements size = Some (s, NULL)) /\
  (0 < elements -> elements * size < word_max ->
   forall s1 bp,
     malloc fuel s (elements * size) = Some (s1, bp) ->
     (bp = NULL -> calloc fuel s elements size = Some (s1, NULL)) /\
     (bp <> NULL -> in_arena s1 bp (elements * size) = true ->
      exists s2,
        calloc fuel s elements size = Some (s2, bp) /\
        (forall i, 0 <= i < elements * size ->
                   load8 (heap s2) (bp + i) = 0) /\
        (forall x, x < bp \/ bp + elements * size <= x ->
                   heap s2 x = heap s1 x) /\
        segregated_free_list s2 = segregated_free_list s1 /\
        same_arena s1 s2) /\
     (bp <> NULL -> in_arena s1 bp (elements * size) = false ->
      calloc fuel s elements size = None)).
Proof.
  intros He Hs. split; [|split].
  - intros ->. reflexivity.
  - intros Hov. unfold calloc.
    destruct (Z.eqb_spec elements 0); [reflexivity|].
    assert (Hlt : wrap (elements * size) / elements < size).
    { apply Z.div_lt_upper_bound; [lia|].
      pose proof (wrap_range (elements * size)). lia. }
    destruct (Z.eqb_spec (wrap (elements * size) / elements) size); [lia|].
    reflexivity.
  - intros Hpos Hfit s1 bp Hm. unfold calloc.
    rewrite (wrap_small (elements * size)) by nia.
    destruct (Z.eqb_spec elements 0); [lia|].
    assert (Hq : elements * size / elements = size).
    { rewrite Z.mul_comm. apply Z.div_mul. lia. }
    rewrite Hq, Z.eqb_refl. simpl. rewrite Hm.
    split; [intros ->; reflexivity|].
    split.
    + intros Hbp Hin. destruct (Z.eqb_spec bp NULL); [contradiction|].
      unfold memset. rewrite Hin.
      eexists. split; [reflexivity|]. simpl.
      split; [|split; [|split; [reflexivity | repeat split]]].
      * intros i Hi. unfold load8.
        destruct (Z.leb_spec bp (bp + i)); [|lia].
        destruct (Z.ltb_spec (bp + i) (bp + elements * size)); [|lia].
        reflexivity.
      * intros x Hx.
        destruct (Z.leb_spec bp x); [|reflexivity].
        destruct (Z.ltb_spec x (bp + elements * size)); [lia | reflexivity].
    + intros Hbp Hin. destruct (Z.eqb_spec bp NULL); [contradiction|].
      unfold memset. rewrite Hin. reflexivity.
Qed.

Lemma calloc_zeroes_block_witness :
  (0 <= 4 < word_max /\ 0 <= 16 < word_max) /\
  match malloc 0 seeded_arena (4 * 16) with
  | Some (s1, bp) =>
      bp <> NULL /\ in_arena s1 bp (4 * 16) = true /\
      exists s2,
        calloc 0 seeded_arena 4 16 = Some (s2, bp) /\
        (forall i, 0 <= i < 4 * 16 -> load8 (heap s2) (bp + i) = 0) /\
        (forall x, x < bp \/ bp + 4 * 16 <= x -> heap s2 x = heap s1 x) /\
        segregated_free_list s2 = segregated_free_list s1 /\
        same_arena s1 s2
  | None => False
  end.
Proof.
  assert (H1 : 0 <= 4 < word_max) by (vm_compute; split; congruence).
  assert (H2 : 0 <= 16 < word_max) by (vm_compute; split; congruence).
  assert (H3 : match malloc 0 seeded_arena (4 * 16) with
               | Some (s1, bp) =>
                   negb (bp =? NULL) && in_arena s1 bp (4 * 16)
               | None => false
               end = true) by (vm_compute; reflexivity).
  split; [auto|].
  pose proof (calloc_zeroes_block 0 seeded_arena 4 16 H1 H2) as (_ & _ & C).
  destruct (malloc 0 seeded_arena (4 * 16)) as [[s1 bp]|];
    [|discriminate H3].
  apply andb_prop in H3. destruct H3 as [H3 H4].
  assert (Hbp : bp <> NULL) by (intros ->; discriminate H3).
  destruct (C ltac:(lia) ltac:(vm_compute; reflexivity) s1 bp eq_refl)
    as (_ & Hz & _).
  split; [exact Hbp | split; [exact H4 | exact (Hz Hbp H4)]].
Defined.
